(** * Akita origin statistics: a shallow embedding of [AkitaOriginStats]

    The class under study lives in [src/data/AkitaOriginStats.js].  It keeps
    four running totals, a ranked map of the top five monetized origins, a
    "needs some love" map and a map of sent assets per currency.

    Modelling choices.
    - JS numbers that the class adds or compares (times, visit counts,
      rankings) are integers, modelled by [Z].
    - A JS object used as a map is a [gmap] of its own properties; reading
      a property that is absent yields [Undefined], as in JS.  The
      top-origins map is only ever indexed by rankings, whose property names
      are in one-to-one correspondence with the integers, so it is keyed by
      [Z].  The asset map is read under the asset code the caller passes,
      which may be the name of a property inherited from
      [Object.prototype]: that read goes through [readProperty].
    - [console.log] is the only effect besides the mutation of [this]; each
      method returns the new [this] (when it mutates) together with the
      lines it logged, in order.  [updateAssetsMapWithAsset], which logs
      nothing but can throw, returns a [Completion].
    - The class stores the origin objects it is handed and never writes to
      them; an origin object is modelled by the values of its fields at the
      time of the call.
    - The classes [AkitaOriginData] and [WebMonetizationAsset] are used by
      the file but not defined in it: the former is modelled by the fields
      the file reads, the latter is kept abstract. *)

From Equations Require Import Equations.
From stdpp Require Import gmap strings list fin_maps.

Open Scope Z_scope.

(** ** JavaScript values *)

(** What a slot of a JS map may hold when objects of class [A] are expected:
    the two falsy non-values, or an object (always truthy). *)
Inductive Entry (A : Type) : Type :=
| Undefined
| Null
| Obj (a : A).
Arguments Undefined {A}.
Arguments Null {A}.
Arguments Obj {A} a.

Definition truthy {A : Type} (e : Entry A) : bool :=
  match e with
  | Obj _ => true
  | Undefined | Null => false
  end.

(** [o[k]]: reading a property, present or not. *)
Definition prop {K A : Type} `{Countable K} (o : gmap K (Entry A)) (k : K) : Entry A :=
  default Undefined (o !! k).

(** Numbers, as far as [isNaN] and truthiness can tell them apart. *)
Inductive Number : Type :=
| NaN
| Finite (z : Z).

(** Primitive values that reach [updateAssetsMapWithAsset] as fields of the
    payment data. *)
Inductive JsValue : Type :=
| JsUndefined
| JsNull
| JsBoolean (b : bool)
| JsNumber (n : Number)
| JsString (s : string).

(** ECMAScript [ToBoolean]. *)
Definition ToBoolean (v : JsValue) : bool :=
  match v with
  | JsUndefined | JsNull => false
  | JsBoolean b => b
  | JsNumber NaN => false
  | JsNumber (Finite z) => negb (bool_decide (z = 0))
  | JsString s => negb (bool_decide (s = ""%string))
  end.

(** A destructuring default [x = d] applies exactly when the property is
    missing or [undefined]. *)
Definition withDefault (v d : JsValue) : JsValue :=
  match v with
  | JsUndefined => d
  | _ => v
  end.

(** ** Origin data *)

(** Modelled from the spec: the class [AkitaOriginVisitData] is not among
    the sources studied; of its fields the file reads [timeSpentAtOrigin],
    the cumulative time spent at the origin in milliseconds. *)
Record AkitaOriginVisitData : Type := {
  timeSpentAtOrigin : Z
}.

(** Modelled from the spec: the class [AkitaOriginData] is not among the
    sources studied; the file reads its origin identifier, its monetization
    flag and its visit data (the spec's OriginVisitRecord). *)
Record AkitaOriginData : Type := {
  origin : string;
  isCurrentlyMonetized : bool;
  originVisitData : AkitaOriginVisitData
}.

(** Modelled from the spec: [AkitaOriginData.fromObject] is not among the
    sources studied; reconstruction copies a plain object field by field,
    nested visit data included. *)
Definition AkitaOriginData_fromObject (o : AkitaOriginData) : AkitaOriginData :=
  {| origin := origin o;
     isCurrentlyMonetized := isCurrentlyMonetized o;
     originVisitData :=
       {| timeSpentAtOrigin := timeSpentAtOrigin (originVisitData o) |} |}.

(** ** Console *)

Inductive LogEntry : Type :=
| LogFirstPos (ranking : Z)
| LogCurrent (currentOrigin : Entry AkitaOriginData)
| LogReplacement (replacementOrigin : Entry AkitaOriginData).

(** A computation that logs: its value and the lines it printed. *)
Definition Console (A : Type) : Type := (A * list LogEntry)%type.

Definition ret {A : Type} (a : A) : Console A := (a, []).

Definition bind {A B : Type} (c : Console A) (k : A → Console B) : Console B :=
  let r := k c.1 in (r.1, c.2 ++ r.2).

Definition console_log (l : LogEntry) : Console unit := (tt, [l]).

Notation "'let*' x ':=' c 'in' k" := (bind c (λ x, k))
  (at level 10, x name, c at level 100, k at level 200, only parsing).

(** ** The statistics object *)

(** The payment data destructured by [updateAssetsMapWithAsset]; a missing
    property reads as [JsUndefined]. *)
Record PaymentData : Type := {
  paymentPointer : JsValue;
  amount : JsValue;
  assetScale : JsValue;
  assetCode : JsValue
}.

(** The fields of an [AkitaOriginStats] object.  [Asset] is what an entry of
    [totalSentAssetsMap] holds: a [WebMonetizationAsset] in an instance of
    the class, an arbitrary stored value in a plain object handed to
    [fromObject]. *)
Record AkitaOriginStats (Asset : Type) : Type := {
  totalTimeSpent : Z;
  totalMonetizedTimeSpent : Z;
  totalVisits : Z;
  totalMonetizedVisits : Z;
  topOriginsMap : gmap Z (Entry AkitaOriginData);
  needsSomeLoveMap : gmap string (Entry AkitaOriginData);
  totalSentAssetsMap : gmap string Asset
}.
Arguments totalTimeSpent {Asset} _.
Arguments totalMonetizedTimeSpent {Asset} _.
Arguments totalVisits {Asset} _.
Arguments totalMonetizedVisits {Asset} _.
Arguments topOriginsMap {Asset} _.
Arguments needsSomeLoveMap {Asset} _.
Arguments totalSentAssetsMap {Asset} _.

Definition ORIGIN_RANKING_FIRST : Z := 1.
Definition ORIGIN_RANKING_LAST : Z := 5.

(** [new AkitaOriginStats()]: the field initialisers. *)
Definition new_AkitaOriginStats {Asset : Type} : AkitaOriginStats Asset :=
  {| totalTimeSpent := 0;
     totalMonetizedTimeSpent := 0;
     totalVisits := 0;
     totalMonetizedVisits := 0;
     topOriginsMap := ∅;
     needsSomeLoveMap := ∅;
     totalSentAssetsMap := ∅ |}.

Definition inspect {A : Type} (a : A) : {b : A | a = b} := exist _ a eq_refl.

(** ** Reading a plain object by an arbitrary name

    [totalSentAssetsMap] is a plain object ([{}]), read under the asset
    code the caller passes.  Reading [o[key]] finds the object's own
    property of that name or, failing that, the property of that name that
    every plain object inherits from [Object.prototype]. *)

(** The names of the properties of [Object.prototype]. *)
Definition Object_prototype_names : list string :=
  [ "constructor"; "hasOwnProperty"; "isPrototypeOf"; "propertyIsEnumerable";
    "toLocaleString"; "toString"; "valueOf"; "__proto__";
    "__defineGetter__"; "__defineSetter__"; "__lookupGetter__";
    "__lookupSetter__" ]%string.

(** What [o[key]] evaluates to: an own entry, an inherited value (a
    function, or the prototype object for [__proto__]), or [undefined]. *)
Inductive PropertyRead (A : Type) : Type :=
| Own (a : A)
| Inherited
| NotFound.
Arguments Own {A} a.
Arguments Inherited {A}.
Arguments NotFound {A}.

Definition readProperty {A : Type} (o : gmap string A) (key : string) : PropertyRead A :=
  match o !! key with
  | Some a => Own a
  | None => if bool_decide (key ∈ Object_prototype_names) then Inherited else NotFound
  end.

(** Truthiness of what was read: objects and functions are truthy,
    [undefined] is not. *)
Definition truthyRead {A : Type} (r : PropertyRead A) : bool :=
  match r with
  | Own _ | Inherited => true
  | NotFound => false
  end.

(** How a call of a method ends: it returns, or it throws a [TypeError];
    either way [this] is the object as the call leaves it. *)
Inductive Completion (A : Type) : Type :=
| Returns (this : A)
| ThrowsTypeError (this : A).
Arguments Returns {A} this.
Arguments ThrowsTypeError {A} this.

Definition objectAfter {A : Type} (c : Completion A) : A :=
  match c with
  | Returns this | ThrowsTypeError this => this
  end.

Section Akita.
(** Instances of the class [WebMonetizationAsset], which is not among the
    sources studied, with its constructor and its [addAmount] method. *)
Context {WebMonetizationAsset : Type}.
Variable new_WebMonetizationAsset : JsValue → WebMonetizationAsset.
Variable addAmount : JsValue → JsValue → WebMonetizationAsset → WebMonetizationAsset.

(** ECMAScript conversions between strings and numbers, whose grammars
    are left abstract. *)
Variable StringToNumber : string → Number.
Variable NumberToString : Number → string.

Abbreviation Stats := (AkitaOriginStats WebMonetizationAsset).

(** *** Field updates of [this] *)

Definition set_totalTimeSpent (v : Z) (this : Stats) : Stats :=
  {| totalTimeSpent := v;
     totalMonetizedTimeSpent := totalMonetizedTimeSpent this;
     totalVisits := totalVisits this;
     totalMonetizedVisits := totalMonetizedVisits this;
     topOriginsMap := topOriginsMap this;
     needsSomeLoveMap := needsSomeLoveMap this;
     totalSentAssetsMap := totalSentAssetsMap this |}.

Definition set_totalMonetizedTimeSpent (v : Z) (this : Stats) : Stats :=
  {| totalTimeSpent := totalTimeSpent this;
     totalMonetizedTimeSpent := v;
     totalVisits := totalVisits this;
     totalMonetizedVisits := totalMonetizedVisits this;
     topOriginsMap := topOriginsMap this;
     needsSomeLoveMap := needsSomeLoveMap this;
     totalSentAssetsMap := totalSentAssetsMap this |}.

Definition set_totalVisits (v : Z) (this : Stats) : Stats :=
  {| totalTimeSpent := totalTimeSpent this;
     totalMonetizedTimeSpent := totalMonetizedTimeSpent this;
     totalVisits := v;
     totalMonetizedVisits := totalMonetizedVisits this;
     topOriginsMap := topOriginsMap this;
     needsSomeLoveMap := needsSomeLoveMap this;
     totalSentAssetsMap := totalSentAssetsMap this |}.

Definition set_totalMonetizedVisits (v : Z) (this : Stats) : Stats :=
  {| totalTimeSpent := totalTimeSpent this;
     totalMonetizedTimeSpent := totalMonetizedTimeSpent this;
     totalVisits := totalVisits this;
     totalMonetizedVisits := v;
     topOriginsMap := topOriginsMap this;
     needsSomeLoveMap := needsSomeLoveMap this;
     totalSentAssetsMap := totalSentAssetsMap this |}.

Definition set_topOriginsMap (v : gmap Z (Entry AkitaOriginData)) (this : Stats) : Stats :=
  {| totalTimeSpent := totalTimeSpent this;
     totalMonetizedTimeSpent := totalMonetizedTimeSpent this;
     totalVisits := totalVisits this;
     totalMonetizedVisits := totalMonetizedVisits this;
     topOriginsMap := v;
     needsSomeLoveMap := needsSomeLoveMap this;
     totalSentAssetsMap := totalSentAssetsMap this |}.

Definition set_needsSomeLoveMap (v : gmap string (Entry AkitaOriginData)) (this : Stats) : Stats :=
  {| totalTimeSpent := totalTimeSpent this;
     totalMonetizedTimeSpent := totalMonetizedTimeSpent this;
     totalVisits := totalVisits this;
     totalMonetizedVisits := totalMonetizedVisits this;
     topOriginsMap := topOriginsMap this;
     needsSomeLoveMap := v;
     totalSentAssetsMap := totalSentAssetsMap this |}.

Definition set_totalSentAssetsMap (v : gmap string WebMonetizationAsset) (this : Stats) : Stats :=
  {| totalTimeSpent := totalTimeSpent this;
     totalMonetizedTimeSpent := totalMonetizedTimeSpent this;
     totalVisits := totalVisits this;
     totalMonetizedVisits := totalMonetizedVisits this;
     topOriginsMap := topOriginsMap this;
     needsSomeLoveMap := needsSomeLoveMap this;
     totalSentAssetsMap := v |}.

(** [this.topOriginsMap[ranking]] *)
Definition topOrigin (this : Stats) (ranking : Z) : Entry AkitaOriginData :=
  prop (topOriginsMap this) ranking.

(** [this.topOriginsMap[ranking] = v] *)
Definition topOrigin_assign (ranking : Z) (v : Entry AkitaOriginData) (this : Stats) : Stats :=
  set_topOriginsMap (<[ranking := v]> (topOriginsMap this)) this.

(** *** Update time spent and visits *)

Definition updateTotalTimeSpent (recentTimeSpent : Z) (this : Stats) : Stats :=
  set_totalTimeSpent (totalTimeSpent this + recentTimeSpent) this.

Definition updateTotalMonetizedTimeSpent (recentTimeSpent : Z) (this : Stats) : Stats :=
  set_totalMonetizedTimeSpent (totalMonetizedTimeSpent this + recentTimeSpent) this.

Definition incrementTotalVisits (this : Stats) : Stats :=
  set_totalVisits (totalVisits this + 1) this.

Definition incrementTotalMonetizedVisits (this : Stats) : Stats :=
  set_totalMonetizedVisits (totalMonetizedVisits this + 1) this.

Definition incrementVisits (originisCurrentlyMonetized : bool) (this : Stats) : Stats :=
  let this1 :=
    if originisCurrentlyMonetized then incrementTotalMonetizedVisits this else this in
  incrementTotalVisits this1.

(** *** Top five monetized origins *)

(** The test of [contenderBattlesOriginAt]: the ranking is past the last
    one, or nobody holds it, or the contender spent more time than its
    holder. *)
Definition contenderStopsAt (this : Stats) (ranking timeSpentAtContender : Z) : bool :=
  bool_decide (ranking > ORIGIN_RANKING_LAST)
  || negb (truthy (topOrigin this ranking))
  || (bool_decide (ranking ≤ ORIGIN_RANKING_LAST)
      && match topOrigin this ranking with
         | Obj holder =>
             bool_decide (timeSpentAtContender > timeSpentAtOrigin (originVisitData holder))
         | Undefined | Null => false
         end).

(** The source logs the ranking and then tests; the test has no effect, so
    here the test selects the clause and each clause starts with the log. *)
Equations? contenderBattlesOriginAt (this : Stats) (ranking timeSpentAtContender : Z)
  : Console Z by wf (Z.to_nat (ORIGIN_RANKING_LAST + 1 - ranking)) lt :=
contenderBattlesOriginAt this ranking timeSpentAtContender
  with inspect (contenderStopsAt this ranking timeSpentAtContender) := {
  | exist _ true _ =>
      let* _ := console_log (LogFirstPos ranking) in
      ret ranking;
  | exist _ false Hgo =>
      let* _ := console_log (LogFirstPos ranking) in
      contenderBattlesOriginAt this (ranking + 1) timeSpentAtContender }.
Proof.
  unfold contenderStopsAt, ORIGIN_RANKING_LAST in *.
  case_bool_decide; [done|]. lia.
Qed.

Equations? reorderTopOriginsMap (this : Stats) (ranking : Z)
  (replacementOrigin : Entry AkitaOriginData)
  : Console Stats by wf (Z.to_nat (ORIGIN_RANKING_LAST + 1 - ranking)) lt :=
reorderTopOriginsMap this ranking replacementOrigin
  with inspect (bool_decide (ranking ≤ ORIGIN_RANKING_LAST)) := {
  | exist _ true Hle =>
      let currentOrigin := topOrigin this ranking in
      let* _ := console_log (LogCurrent currentOrigin) in
      let* _ := console_log (LogReplacement replacementOrigin) in
      let this1 := topOrigin_assign ranking replacementOrigin this in
      reorderTopOriginsMap this1 (ranking + 1) currentOrigin;
  | exist _ false _ => ret this }.
Proof.
  apply bool_decide_eq_true in Hle. unfold ORIGIN_RANKING_LAST in *. lia.
Qed.

Definition maybeUpdateTopOriginsMap (topOriginsContender : AkitaOriginData) (this : Stats)
  : Console Stats :=
  if isCurrentlyMonetized topOriginsContender then
    let timeSpentAtContender := timeSpentAtOrigin (originVisitData topOriginsContender) in
    if bool_decide (timeSpentAtContender > 0) then
      let* ranking :=
        contenderBattlesOriginAt this ORIGIN_RANKING_FIRST timeSpentAtContender in
      if bool_decide (ranking > ORIGIN_RANKING_LAST) then
        ret this
      else
        match topOrigin this ranking with
        | Undefined | Null =>
            ret (topOrigin_assign ranking (Obj topOriginsContender) this)
        | Obj holder =>
            if bool_decide (origin topOriginsContender = origin holder) then
              ret (topOrigin_assign ranking (Obj topOriginsContender) this)
            else
              reorderTopOriginsMap this ranking (Obj topOriginsContender)
        end
    else ret this
  else ret this.

Definition updateTimeSpent (recentTimeSpent : Z) (originData : AkitaOriginData) (this : Stats)
  : Console Stats :=
  let* this1 := maybeUpdateTopOriginsMap originData this in
  let this2 := updateTotalTimeSpent recentTimeSpent this1 in
  if isCurrentlyMonetized originData then
    ret (updateTotalMonetizedTimeSpent recentTimeSpent this2)
  else ret this2.

(** *** Needs some love *)

Definition maybeUpdateNeedsSomeLoveMap
  (newneedsSomeLoveMap : gmap string (Entry AkitaOriginData)) (this : Stats) : Stats :=
  set_needsSomeLoveMap newneedsSomeLoveMap this.

(** *** Total sent assets *)

(** ECMAScript [ToNumber] on primitives. *)
Definition ToNumber (v : JsValue) : Number :=
  match v with
  | JsUndefined => NaN
  | JsNull => Finite 0
  | JsBoolean b => Finite (if b then 1 else 0)
  | JsNumber n => n
  | JsString s => StringToNumber s
  end.

(** The global [isNaN]: coerce to a number, then test. *)
Definition isNaN (v : JsValue) : bool :=
  match ToNumber v with
  | NaN => true
  | Finite _ => false
  end.

(** ECMAScript [ToPropertyKey] on primitives. *)
Definition ToPropertyKey (v : JsValue) : string :=
  match v with
  | JsUndefined => "undefined"
  | JsNull => "null"
  | JsBoolean b => if b then "true" else "false"
  | JsNumber n => NumberToString n
  | JsString s => s
  end.

(** The entry read back for [addAmount] is the object's own asset, whose
    method mutates it in place; an inherited value, or [undefined], has no
    [addAmount] method, and calling it throws a [TypeError]. *)
Definition updateAssetsMapWithAsset (paymentData : PaymentData) (this : Stats)
  : Completion Stats :=
  let amount := withDefault (amount paymentData) JsNull in
  let assetScale := withDefault (assetScale paymentData) JsNull in
  let assetCode := withDefault (assetCode paymentData) JsNull in
  if negb (isNaN amount) && negb (isNaN assetScale) && ToBoolean assetCode then
    let key := ToPropertyKey assetCode in
    let this1 :=
      if negb (truthyRead (readProperty (totalSentAssetsMap this) key)) then
        set_totalSentAssetsMap
          (<[key := new_WebMonetizationAsset assetCode]> (totalSentAssetsMap this)) this
      else this in
    match readProperty (totalSentAssetsMap this1) key with
    | Own _ =>
        Returns
          (set_totalSentAssetsMap
             (alter (addAmount amount assetScale) key (totalSentAssetsMap this1)) this1)
    | Inherited | NotFound => ThrowsTypeError this1
    end
  else Returns this.

(** *** Reconstruction from a stored object *)

Section FromObject.
(** What a plain object may hold under a currency code, and
    [WebMonetizationAsset.fromObject], which is not among the sources
    studied. *)
Context {StoredAsset : Type}.
Variable WebMonetizationAsset_fromObject : StoredAsset → WebMonetizationAsset.

(** [for (const key in o) body]: the body runs once per enumerable
    property; here no body reads what another wrote, so the order of
    enumeration does not show. *)
Definition forIn {K A S : Type} `{Countable K}
  (o : gmap K A) (body : K → A → S → S) (s : S) : S :=
  map_fold body s o.

Definition fromObject (akitaOriginStats : AkitaOriginStats StoredAsset) : Stats :=
  let newAkitaOriginStats : Stats := new_AkitaOriginStats in
  let newAkitaOriginStats :=
    set_totalTimeSpent (totalTimeSpent akitaOriginStats) newAkitaOriginStats in
  let newAkitaOriginStats :=
    set_totalMonetizedTimeSpent (totalMonetizedTimeSpent akitaOriginStats)
      newAkitaOriginStats in
  let newAkitaOriginStats :=
    set_totalVisits (totalVisits akitaOriginStats) newAkitaOriginStats in
  let newAkitaOriginStats :=
    set_totalMonetizedVisits (totalMonetizedVisits akitaOriginStats) newAkitaOriginStats in
  let newAkitaOriginStats :=
    forIn (topOriginsMap akitaOriginStats) (λ origin entry newAkitaOriginStats,
      match entry with
      | Obj o =>
          set_topOriginsMap
            (<[origin := Obj (AkitaOriginData_fromObject o)]>
               (topOriginsMap newAkitaOriginStats))
            newAkitaOriginStats
      | Undefined | Null => newAkitaOriginStats
      end) newAkitaOriginStats in
  let newAkitaOriginStats :=
    forIn (needsSomeLoveMap akitaOriginStats) (λ origin entry newAkitaOriginStats,
      match entry with
      | Obj o =>
          set_needsSomeLoveMap
            (<[origin := Obj (AkitaOriginData_fromObject o)]>
               (needsSomeLoveMap newAkitaOriginStats))
            newAkitaOriginStats
      | Undefined | Null => newAkitaOriginStats
      end) newAkitaOriginStats in
  forIn (totalSentAssetsMap akitaOriginStats) (λ assetCode entry newAkitaOriginStats,
    set_totalSentAssetsMap
      (<[assetCode := WebMonetizationAsset_fromObject entry]>
         (totalSentAssetsMap newAkitaOriginStats))
      newAkitaOriginStats) newAkitaOriginStats.
End FromObject.
End Akita.

(** ** Observations used to state the properties *)

(** [d.originVisitData.timeSpentAtOrigin] *)
Definition timeOf (d : AkitaOriginData) : Z := timeSpentAtOrigin (originVisitData d).

(** How many times [reorderTopOriginsMap] overwrote a ranking: each shift
    step logs its [currentOrigin] once. *)
Fixpoint shiftSteps (log : list LogEntry) : nat :=
  match log with
  | [] => 0
  | LogCurrent _ :: log' => S (shiftSteps log')
  | _ :: log' => shiftSteps log'
  end.

(** The [ranking] that [maybeUpdateTopOriginsMap] computes for a contender
    that spent [timeSpentAtContender]. *)
Definition placementRank {Asset : Type} (this : AkitaOriginStats Asset)
  (timeSpentAtContender : Z) : Z :=
  (contenderBattlesOriginAt this ORIGIN_RANKING_FIRST timeSpentAtContender).1.

(** A sequence of [maybeUpdateTopOriginsMap] calls, first contender first. *)
Definition considerAll {Asset : Type} (contenders : list AkitaOriginData)
  (this : AkitaOriginStats Asset) : AkitaOriginStats Asset :=
  foldl (λ s c, (maybeUpdateTopOriginsMap c s).1) this contenders.

(** The time spent does not increase as the ranking grows, over the
    rankings that hold an origin. *)
Definition rankOrdered {Asset : Type} (this : AkitaOriginStats Asset) : Prop :=
  ∀ i j d d', i < j → topOrigin this i = Obj d → topOrigin this j = Obj d' →
    timeOf d' ≤ timeOf d.

(** No origin identifier holds two rankings. *)
Definition originsUnique {Asset : Type} (this : AkitaOriginStats Asset) : Prop :=
  ∀ i j d d', topOrigin this i = Obj d → topOrigin this j = Obj d' →
    origin d = origin d' → i = j.

(** The rankings that hold an origin are [1 .. n] for some [n ≤ 5]. *)
Definition ranksFilledFromTop {Asset : Type} (this : AkitaOriginStats Asset) : Prop :=
  (∀ k d, topOrigin this k = Obj d → ORIGIN_RANKING_FIRST ≤ k ≤ ORIGIN_RANKING_LAST)
  ∧ (∀ i j d, ORIGIN_RANKING_FIRST ≤ i < j → topOrigin this j = Obj d →
       ∃ d', topOrigin this i = Obj d').

(** Whether the contender finds another origin at [ranking] and so starts a
    cascade there. *)
Definition displacesAt {Asset : Type} (this : AkitaOriginStats Asset)
  (contender : AkitaOriginData) (ranking : Z) : bool :=
  match topOrigin this ranking with
  | Obj holder => negb (bool_decide (origin contender = origin holder))
  | Undefined | Null => false
  end.

(** The origin a slot holds, if any. *)
Definition occupant (e : Entry AkitaOriginData) : option AkitaOriginData :=
  match e with
  | Obj d => Some d
  | Undefined | Null => None
  end.

(** What the guarded loops of [fromObject] store for a slot of an origin
    map: a copy of a truthy entry, nothing for a falsy one. *)
Definition keptOrigin (e : Entry AkitaOriginData) : option (Entry AkitaOriginData) :=
  match e with
  | Obj d => Some (Obj (AkitaOriginData_fromObject d))
  | Undefined | Null => None
  end.

(** Modelled from the spec: serialization is done by the storage layer,
    which is not among the sources studied.  A plain object [o] is structurally equivalent
    to the instance [s] when it has the same four totals, reading any
    property of its two origin maps gives what reading it in [s] gives
    (whether or not properties holding [undefined] were kept), and its asset
    map has, under the same currency codes, the stored form of the assets of
    [s]. *)
Definition structurallyEquivalent {StoredAsset Asset : Type}
  (storeAsset : Asset → StoredAsset)
  (o : AkitaOriginStats StoredAsset) (s : AkitaOriginStats Asset) : Prop :=
  totalTimeSpent o = totalTimeSpent s
  ∧ totalMonetizedTimeSpent o = totalMonetizedTimeSpent s
  ∧ totalVisits o = totalVisits s
  ∧ totalMonetizedVisits o = totalMonetizedVisits s
  ∧ (∀ ranking, prop (topOriginsMap o) ranking = prop (topOriginsMap s) ranking)
  ∧ (∀ key, prop (needsSomeLoveMap o) key = prop (needsSomeLoveMap s) key)
  ∧ totalSentAssetsMap o = storeAsset <$> totalSentAssetsMap s.

(** A monetized origin with [t] milliseconds spent. *)
Definition monetizedOrigin (o : string) (t : Z) : AkitaOriginData :=
  {| origin := o;
     isCurrentlyMonetized := true;
     originVisitData := {| timeSpentAtOrigin := t |} |}.

(** What the five rankings hold, first place first. *)
Definition boardRanks {Asset : Type} (this : AkitaOriginStats Asset)
  : list (Entry AkitaOriginData) :=
  topOrigin this <$> [1; 2; 3; 4; 5].

(** A new object whose top-origins map holds [slots] at rankings 1, 2, ... *)
Definition boardOf {Asset : Type} (slots : list (Entry AkitaOriginData))
  : AkitaOriginStats Asset :=
  set_topOriginsMap
    (list_to_map (zip (seqZ 1 (Z.of_nat (length slots))) slots)) new_AkitaOriginStats.

(** The lines a cascade is expected to log when it starts at [ranking] with
    [replacement] in hand and performs [n] shift steps over the slots
    [slots]: step [i] reads the slot at [ranking + i] and writes there what
    the step before it read. *)
Fixpoint shiftLog (slots : Z → Entry AkitaOriginData) (ranking : Z)
  (replacement : Entry AkitaOriginData) (n : nat) : list LogEntry :=
  match n with
  | O => []
  | S n' =>
      LogCurrent (slots ranking) :: LogReplacement replacement
        :: shiftLog slots (ranking + 1) (slots ranking) n'
  end.

(** ** Sample inputs

    Concrete objects at which the properties are instantiated.  The asset
    class is instantiated by a bare running total. *)

Definition sampleBoard : AkitaOriginStats Z :=
  considerAll [monetizedOrigin "https://a.example" 50; monetizedOrigin "https://b.example" 40]
    new_AkitaOriginStats.

Definition sampleState : AkitaOriginStats Z :=
  {| totalTimeSpent := 90;
     totalMonetizedTimeSpent := 60;
     totalVisits := 7;
     totalMonetizedVisits := 4;
     topOriginsMap :=
       <[1 := Obj (monetizedOrigin "https://b.example" 20)]>
         (<[2 := Obj (monetizedOrigin "https://a.example" 10)]>
            (<[3 := Undefined]> ∅));
     needsSomeLoveMap := ∅;
     totalSentAssetsMap := {[ "USD"%string := 1000 ]} |}.

(** [sampleState] as a store that drops properties holding [undefined]
    would hand it back. *)
Definition sampleStored : AkitaOriginStats Z :=
  {| totalTimeSpent := 90;
     totalMonetizedTimeSpent := 60;
     totalVisits := 7;
     totalMonetizedVisits := 4;
     topOriginsMap :=
       <[1 := Obj (monetizedOrigin "https://b.example" 20)]>
         (<[2 := Obj (monetizedOrigin "https://a.example" 10)]> ∅);
     needsSomeLoveMap := ∅;
     totalSentAssetsMap := {[ "USD"%string := 1000 ]} |}.

(** A stored object with a ranking and a currency holding [null]. *)
Definition sampleStoredWithNull : AkitaOriginStats (Entry Z) :=
  {| totalTimeSpent := 90;
     totalMonetizedTimeSpent := 60;
     totalVisits := 7;
     totalMonetizedVisits := 4;
     topOriginsMap :=
       <[1 := Obj (monetizedOrigin "https://b.example" 20)]> (<[2 := Null]> ∅);
     needsSomeLoveMap := ∅;
     totalSentAssetsMap := <["USD"%string := Obj 1000]> (<["CAD"%string := Null]> ∅) |}.

(** A reconstruction of stored totals that reads a falsy entry as zero. *)
Definition sampleAssetFromObject (stored : Entry Z) : Z :=
  match stored with
  | Obj total => total
  | Undefined | Null => 0
  end.

(** An origin that is not monetized, with more time than any on
    [sampleBoard]. *)
Definition sampleUnmonetized : AkitaOriginData :=
  {| origin := "https://c.example";
     isCurrentlyMonetized := false;
     originVisitData := {| timeSpentAtOrigin := 1000 |} |}.

(** ** Sequences of calls

    The four public operations of the class, as a user of it issues them
    one after the other on the same object. *)

Inductive Event : Type :=
| TimeSpent (recentTimeSpent : Z) (originData : AkitaOriginData)
| Visit (originisCurrentlyMonetized : bool)
| Payment (paymentData : PaymentData)
| NeedsSomeLove (newneedsSomeLoveMap : gmap string (Entry AkitaOriginData)).

Section Events.
Context {WebMonetizationAsset : Type}.
Variable new_WebMonetizationAsset : JsValue → WebMonetizationAsset.
Variable addAmount : JsValue → JsValue → WebMonetizationAsset → WebMonetizationAsset.
Variable StringToNumber : string → Number.
Variable NumberToString : Number → string.

(** The object after the call an event stands for; the console lines, and
    whether the call returned or threw, are dropped. *)
Definition handle (ev : Event) (this : AkitaOriginStats WebMonetizationAsset)
  : AkitaOriginStats WebMonetizationAsset :=
  match ev with
  | TimeSpent recentTimeSpent originData =>
      (updateTimeSpent recentTimeSpent originData this).1
  | Visit originisCurrentlyMonetized => incrementVisits originisCurrentlyMonetized this
  | Payment paymentData =>
      objectAfter
        (updateAssetsMapWithAsset new_WebMonetizationAsset addAmount StringToNumber
           NumberToString paymentData this)
  | NeedsSomeLove newneedsSomeLoveMap => maybeUpdateNeedsSomeLoveMap newneedsSomeLoveMap this
  end.

Definition handleAll (evs : list Event) (this : AkitaOriginStats WebMonetizationAsset)
  : AkitaOriginStats WebMonetizationAsset :=
  foldl (λ s ev, handle ev s) this evs.
End Events.

(** What an event contributes to each of the four totals. *)
Definition recentTimeOf (ev : Event) : Z :=
  match ev with
  | TimeSpent recentTimeSpent _ => recentTimeSpent
  | _ => 0
  end.

Definition monetizedTimeOf (ev : Event) : Z :=
  match ev with
  | TimeSpent recentTimeSpent originData =>
      if isCurrentlyMonetized originData then recentTimeSpent else 0
  | _ => 0
  end.

Definition visitOf (ev : Event) : Z :=
  match ev with
  | Visit _ => 1
  | _ => 0
  end.

Definition monetizedVisitOf (ev : Event) : Z :=
  match ev with
  | Visit true => 1
  | _ => 0
  end.

Definition sumOver (f : Event → Z) (evs : list Event) : Z :=
  foldr (λ ev acc, f ev + acc) 0 evs.

(** A contender the board considers: monetized, with positive time. *)
Definition qualifies (c : AkitaOriginData) : bool :=
  isCurrentlyMonetized c && bool_decide (0 < timeOf c).

(** The record [c] is at some ranking. *)
Definition onBoard {Asset : Type} (this : AkitaOriginStats Asset) (c : AkitaOriginData) : Prop :=
  ∃ k, topOrigin this k = Obj c.

(** All five rankings hold an origin with at least [t] of time spent. *)
Definition fullAbove {Asset : Type} (this : AkitaOriginStats Asset) (t : Z) : Prop :=
  ∀ k, 1 ≤ k ≤ 5 → ∃ d, topOrigin this k = Obj d ∧ t ≤ timeOf d.

(** How many of the contenders qualify. *)
Definition qualifyingCount (contenders : list AkitaOriginData) : Z :=
  Z.of_nat (length (List.filter qualifies contenders)).

(** Seven contenders with distinct origins, the sixth of which is not
    monetized. *)
Definition sampleContenders : list AkitaOriginData :=
  [ monetizedOrigin "https://one.example" 10;
    monetizedOrigin "https://two.example" 20;
    monetizedOrigin "https://three.example" 30;
    monetizedOrigin "https://four.example" 40;
    monetizedOrigin "https://five.example" 50;
    {| origin := "https://six.example";
       isCurrentlyMonetized := false;
       originVisitData := {| timeSpentAtOrigin := 60 |} |};
    monetizedOrigin "https://seven.example" 25 ].

(** Two calls that write different fields of the object: calls of
    different operations, or two visits. *)
Definition independent (ev1 ev2 : Event) : bool :=
  match ev1, ev2 with
  | TimeSpent _ _, TimeSpent _ _ => false
  | Payment _, Payment _ => false
  | NeedsSomeLove _, NeedsSomeLove _ => false
  | _, _ => true
  end.

(** * The content script

    The functions of the content script that compute on strings and lists.
    A JS string is the sequence of its UTF-16 code units; [null] is [None].
    The DOM and the network are inputs: the list of [link] elements with
    their attributes, the content of the monetization [meta] element, and
    the responses given to successive requests. *)

Definition JsStr : Type := list N.

(** A string literal of the source (all of them are ASCII). *)
Definition units (s : string) : JsStr :=
  Ascii.N_of_ascii <$> String.list_ascii_of_string s.
Arguments units : simpl never.

(** ECMAScript WhiteSpace and LineTerminator code points, the ones that
    [String.prototype.trim] strips. *)
Definition isWhiteSpace (u : N) : bool :=
  bool_decide (u ∈ [0x0009; 0x000A; 0x000B; 0x000C; 0x000D; 0x0020; 0x00A0; 0x1680;
                    0x2028; 0x2029; 0x202F; 0x205F; 0x3000; 0xFEFF]%N)
  || (bool_decide (0x2000 ≤ u)%N && bool_decide (u ≤ 0x200A)%N).

Fixpoint trimStart (s : JsStr) : JsStr :=
  match s with
  | u :: s' => if isWhiteSpace u then trimStart s' else s
  | [] => []
  end.

Definition trimEnd (s : JsStr) : JsStr := reverse (trimStart (reverse s)).

Definition trim (s : JsStr) : JsStr := trimEnd (trimStart s).

(** [s.charAt(i)]: the code unit at [i] as a string, or the empty string. *)
Definition charAt (s : JsStr) (i : nat) : JsStr :=
  match s !! i with
  | Some u => [u]
  | None => []
  end.

(** [s.substr(start)] for [0 ≤ start]. *)
Definition substr (s : JsStr) (start : nat) : JsStr := drop start s.

Definition startsWith (s searchString : JsStr) : bool :=
  bool_decide (take (length searchString) s = searchString).

(** [s.indexOf(searchString)]: the first position at which [searchString]
    occurs, counted from [i] on, or -1. *)
Fixpoint indexOfFrom (searchString s : JsStr) (i : Z) : Z :=
  if startsWith s searchString then i
  else
    match s with
    | [] => -1
    | _ :: s' => indexOfFrom searchString s' (i + 1)
    end.

Definition indexOf (s searchString : JsStr) : Z := indexOfFrom searchString s 0.

Definition concat (s t : JsStr) : JsStr := s ++ t.

(** A nullable string is truthy when it is a non-empty string. *)
Definition truthyStr (s : option JsStr) : bool :=
  match s with
  | Some (_ :: _) => true
  | Some [] | None => false
  end.

(** An expression statement: the value is computed and dropped. *)
Definition discard {A B : Type} (value : A) (next : B) : B := next.

(** ** [resolvePaymentPointer] *)

Definition resolvePaymentPointer (paymentPointer : option JsStr) : option JsStr :=
  let resolvedPaymentPointer : option JsStr := None in
  if truthyStr paymentPointer then
    let resolvedPaymentPointer := trim (default [] paymentPointer) in
    let httpsURL := units "https://" in
    if bool_decide (units "$" = charAt resolvedPaymentPointer 0) then
      let resolvedPaymentPointer := substr resolvedPaymentPointer 1 in
      let wellKnownPath := units ".well-known/pay" in
      let pathabemptyIndex := indexOf resolvedPaymentPointer (units "/") in
      discard
        (if bool_decide (-1 = pathabemptyIndex) then
           Some (concat resolvedPaymentPointer (concat (units "/") wellKnownPath))
         else if bool_decide (Z.of_nat (length resolvedPaymentPointer) - 1 = pathabemptyIndex)
         then Some (concat resolvedPaymentPointer wellKnownPath)
         else None)
        (Some (concat httpsURL resolvedPaymentPointer))
    else if startsWith resolvedPaymentPointer httpsURL then
      Some resolvedPaymentPointer
    else None
  else resolvedPaymentPointer.

(** ** [getFaviconPath] *)

(** A [link] element, as far as the function reads it: [getAttribute]
    gives the value of an attribute or [null]. *)
Record LinkElement : Type := {
  rel : option JsStr;
  href : option JsStr
}.

(** The [for] loop from index [i] on, [relIconFoundIndex] being what the
    earlier iterations left; it returns [faviconPath] and
    [relIconFoundIndex]. *)
Fixpoint scanLinks (links : list LinkElement) (i : Z) (relIconFoundIndex : Z)
  : option JsStr * Z :=
  match links with
  | [] => (None, relIconFoundIndex)
  | link :: links' =>
      let linkElementRel := rel link in
      if bool_decide (linkElementRel = Some (units "shortcut icon")) then
        (href link, relIconFoundIndex)
      else if bool_decide (linkElementRel = Some (units "icon")) then
        scanLinks links' (i + 1) i
      else scanLinks links' (i + 1) relIconFoundIndex
  end.

(** [linkElementsList[i].getAttribute("href")]; the index is that of an
    element of the list whenever the function gets here
    ([scanLinks_index]). *)
Definition hrefAt (linkElementsList : list LinkElement) (i : Z) : option JsStr :=
  match linkElementsList !! Z.to_nat i with
  | Some link => href link
  | None => None
  end.

Definition getFaviconPath (linkElementsList : list LinkElement) : option JsStr :=
  let '(faviconPath, relIconFoundIndex) := scanLinks linkElementsList 0 (-1) in
  if truthyStr faviconPath then faviconPath
  else if bool_decide (relIconFoundIndex ≠ -1) then hrefAt linkElementsList relIconFoundIndex
  else Some (units "favicon.ico").

(** The link's [rel] attribute is exactly [name]. *)
Definition relIs (name : string) (link : LinkElement) : Prop :=
  rel link = Some (units name).

(** A link that is neither a "shortcut icon" nor an "icon". *)
Definition plainLink (link : LinkElement) : Prop :=
  ¬ relIs "shortcut icon" link ∧ ¬ relIs "icon" link.

(** ** [isPaymentPointerValid] and [getAndValidatePaymentPointer] *)

(** What [fetch] gives: it rejects, or it resolves to a response with a
    status. *)
Inductive FetchResult : Type :=
| FetchRejects
| FetchStatus (status : Z).

Inductive Thrown : Type :=
| NetworkError
| ReferenceError.

(** How an [async] function settles. *)
Inductive Settled (A : Type) : Type :=
| Fulfilled (value : A)
| Rejected (reason : Thrown).
Arguments Fulfilled {A} value.
Arguments Rejected {A} reason.

Section Validation.
(** The response to the request made after [n] earlier ones. *)
Variable fetch : nat → JsStr → FetchResult.
(** [newlocation] is a free identifier of the script: [None] when no global
    of that name exists, so that reading it throws, and its value
    otherwise. *)
Variable newlocation : option (option JsStr).

(** [httpGet]: with a truthy endpoint, the response of [fetch]. *)
Definition httpGet (requests : nat) (endpoint : JsStr) : FetchResult :=
  fetch requests endpoint.

(** The [while] loop of [isPaymentPointerValid], run for at most [fuel]
    iterations after [requests] requests; [None] when it is still running
    after that many. *)
Fixpoint validationLoop (fuel : nat) (requests : nat) (redirectCounter : Z)
  (paymentPointerCandidate : option JsStr) : option (Settled bool) :=
  match fuel with
  | O => None
  | S fuel' =>
      if bool_decide (redirectCounter > 0) then
        let endpoint := resolvePaymentPointer paymentPointerCandidate in
        if truthyStr endpoint then
          match httpGet requests (default [] endpoint) with
          | FetchRejects => Some (Rejected NetworkError)
          | FetchStatus status =>
              if bool_decide (status = 200) then Some (Fulfilled true)
              else if bool_decide (300 ≤ status) && bool_decide (status < 400) then
                match newlocation with
                | None => Some (Rejected ReferenceError)
                | Some location =>
                    validationLoop fuel' (S requests) (redirectCounter - 1) location
                end
              else validationLoop fuel' (S requests) redirectCounter paymentPointerCandidate
          end
        else validationLoop fuel' requests redirectCounter paymentPointerCandidate
      else Some (Fulfilled false)
  end.

Definition isPaymentPointerValid (fuel : nat) (paymentPointer : option JsStr)
  : option (Settled bool) :=
  validationLoop fuel 0 5 paymentPointer.

(** [monetizationMeta] is the [content] of the monetization [meta] element,
    or [None] when the page has none. *)
Definition getAndValidatePaymentPointer (fuel : nat) (monetizationMeta : option JsStr)
  : option (Settled (bool * option JsStr)) :=
  let paymentPointer := monetizationMeta in
  match monetizationMeta with
  | None => Some (Fulfilled (false, paymentPointer))
  | Some _ =>
      match isPaymentPointerValid fuel paymentPointer with
      | None => None
      | Some (Rejected reason) => Some (Rejected reason)
      | Some (Fulfilled valid) => Some (Fulfilled (valid, paymentPointer))
      end
  end.
End Validation.

(** An answer that is neither success nor a redirect. *)
Definition errorStatus (r : FetchResult) : Prop :=
  ∃ status, r = FetchStatus status ∧ status ≠ 200 ∧ ¬ (300 ≤ status < 400).

(** * Sample inputs for the further properties *)

(** The asset class as a bare running total: a new asset holds 0 and
    [addAmount] adds a finite amount to it, whatever the scale. *)
Definition sampleNewAsset (assetCode : JsValue) : Z := 0.

Definition sampleAddAmount (amount assetScale : JsValue) (total : Z) : Z :=
  match amount with
  | JsNumber (Finite a) => total + a
  | _ => total
  end.

(** A reading of strings as numbers that knows the empty string only. *)
Definition sampleStringToNumber (s : string) : Number :=
  if bool_decide (s = ""%string) then Finite 0 else NaN.

Definition sampleNumberToString (n : Number) : string :=
  match n with
  | NaN => "NaN"
  | Finite _ => "0"
  end.

Definition sampleHandle : Event → AkitaOriginStats Z → AkitaOriginStats Z :=
  handle sampleNewAsset sampleAddAmount sampleStringToNumber sampleNumberToString.

Definition sampleHandleAll : list Event → AkitaOriginStats Z → AkitaOriginStats Z :=
  handleAll sampleNewAsset sampleAddAmount sampleStringToNumber sampleNumberToString.

Definition sampleUpdateAssets
  : PaymentData → AkitaOriginStats Z → Completion (AkitaOriginStats Z) :=
  updateAssetsMapWithAsset sampleNewAsset sampleAddAmount sampleStringToNumber
    sampleNumberToString.

(** Two visits and two reports of time spent, one of them at an origin
    that is not monetized. *)
Definition sampleEvents : list Event :=
  [ Visit true; Visit false;
    TimeSpent 5 (monetizedOrigin "https://a.example" 5);
    TimeSpent 7 sampleUnmonetized ].

(** A payment of 235 at scale 3 in the given currency. *)
Definition samplePayment (code : string) : PaymentData :=
  {| paymentPointer := JsString "$wallet.example";
     amount := JsNumber (Finite 235);
     assetScale := JsNumber (Finite 3);
     assetCode := JsString code |}.

(** The registration of a payment pointer, with no amount. *)
Definition samplePointerOnly : PaymentData :=
  {| paymentPointer := JsString "$wallet.example";
     amount := JsUndefined;
     assetScale := JsUndefined;
     assetCode := JsUndefined |}.

Definition sampleLink (linkRel : string) (linkHref : option string) : LinkElement :=
  {| rel := Some (units linkRel); href := units <$> linkHref |}.

(** A server that answers 503 twice and 200 from then on, and one that
    answers 404 to everything. *)
Definition sampleFetchRecovering (requests : nat) (endpoint : JsStr) : FetchResult :=
  if (requests <? 2)%nat then FetchStatus 503 else FetchStatus 200.

Definition sampleFetchNotFound (requests : nat) (endpoint : JsStr) : FetchResult :=
  FetchStatus 404.

(** * Properties *)

Section Properties.
Context {WebMonetizationAsset : Type}.
Implicit Types (this : AkitaOriginStats WebMonetizationAsset).
Implicit Types (ranking r t k : Z) (e : Entry AkitaOriginData).

(** ** Unfolding the two recursions *)

Lemma contenderBattlesOriginAt_eq this ranking t :
  contenderBattlesOriginAt this ranking t =
    if contenderStopsAt this ranking t then (ranking, [LogFirstPos ranking])
    else
      let r := contenderBattlesOriginAt this (ranking + 1) t in
      (r.1, LogFirstPos ranking :: r.2).
Proof.
  rewrite (contenderBattlesOriginAt_equation_1 this ranking t).
  assert (∀ b (H : contenderStopsAt this ranking t = b),
    contenderBattlesOriginAt_unfold_clause_1 this ranking t (exist _ b H) =
      if b then (ranking, [LogFirstPos ranking])
      else
        let r := contenderBattlesOriginAt this (ranking + 1) t in
        (r.1, LogFirstPos ranking :: r.2)) as Hgen.
  { intros [] H; reflexivity. }
  apply Hgen.
Qed.

Lemma reorderTopOriginsMap_eq this ranking e :
  reorderTopOriginsMap this ranking e =
    if bool_decide (ranking ≤ ORIGIN_RANKING_LAST) then
      let currentOrigin := topOrigin this ranking in
      let r := reorderTopOriginsMap (topOrigin_assign ranking e this) (ranking + 1)
                 currentOrigin in
      (r.1, LogCurrent currentOrigin :: LogReplacement e :: r.2)
    else (this, []).
Proof.
  rewrite (reorderTopOriginsMap_equation_1 this ranking e).
  assert (∀ b (H : bool_decide (ranking ≤ ORIGIN_RANKING_LAST) = b),
    reorderTopOriginsMap_unfold_clause_1 this ranking (exist _ b H) e =
      if b then
        let currentOrigin := topOrigin this ranking in
        let r := reorderTopOriginsMap (topOrigin_assign ranking e this) (ranking + 1)
                   currentOrigin in
        (r.1, LogCurrent currentOrigin :: LogReplacement e :: r.2)
      else (this, [])) as Hgen.
  { intros [] H; reflexivity. }
  apply Hgen.
Qed.

(** Induction over rankings, downwards from past the last one: the shape
    of both recursions. *)
Lemma ranking_ind (P : Z → Prop) :
  (∀ r, r > ORIGIN_RANKING_LAST → P r) →
  (∀ r, r ≤ ORIGIN_RANKING_LAST → P (r + 1) → P r) →
  ∀ r, P r.
Proof.
  intros Hbase Hstep r.
  remember (Z.to_nat (ORIGIN_RANKING_LAST + 1 - r)) as n eqn:Hn.
  revert r Hn. induction n as [|n IH]; intros r Hn.
  - apply Hbase. lia.
  - apply Hstep; [lia|]. apply IH. lia.
Qed.

(** ** What the test of the rank search means *)

Lemma contenderStopsAt_true this ranking t :
  contenderStopsAt this ranking t = true ↔
    ranking > ORIGIN_RANKING_LAST
    ∨ truthy (topOrigin this ranking) = false
    ∨ ∃ holder, topOrigin this ranking = Obj holder ∧ timeOf holder < t.
Proof.
  unfold contenderStopsAt, timeOf.
  destruct (topOrigin this ranking) as [| |holder]; simpl;
    repeat case_bool_decide; simpl; split; intros Hx; try done; try lia; eauto.
  - right; right. exists holder. split; [done|lia].
  - destruct Hx as [?|[?|(? & [= <-] & ?)]]; try done; lia.
Qed.

Lemma contenderStopsAt_false this ranking t :
  contenderStopsAt this ranking t = false ↔
    ranking ≤ ORIGIN_RANKING_LAST
    ∧ ∃ holder, topOrigin this ranking = Obj holder ∧ t ≤ timeOf holder.
Proof.
  unfold contenderStopsAt, timeOf. split.
  - intros Hx. destruct (topOrigin this ranking) as [| |holder]; simpl in Hx;
      repeat case_bool_decide; simpl in Hx; try done.
    split; [lia|]. exists holder. split; [done|lia].
  - intros (Hle & holder & -> & Ht). simpl.
    rewrite (bool_decide_eq_false_2 (ranking > ORIGIN_RANKING_LAST)) by lia.
    rewrite (bool_decide_eq_false_2 (t > _)) by lia.
    simpl. apply andb_false_r.
Qed.

(** ** The rank search *)

Lemma contenderBattlesOriginAt_spec this t r :
  let R := (contenderBattlesOriginAt this r t).1 in
  r ≤ R ≤ Z.max r (ORIGIN_RANKING_LAST + 1)
  ∧ contenderStopsAt this R t = true
  ∧ (∀ j, r ≤ j < R → contenderStopsAt this j t = false)
  ∧ (contenderBattlesOriginAt this r t).2 = LogFirstPos <$> seqZ r (R - r + 1).
Proof.
  induction r as [r Hr|r Hr IH] using ranking_ind;
    rewrite contenderBattlesOriginAt_eq.
  - assert (contenderStopsAt this r t = true) as ->.
    { apply contenderStopsAt_true. by left. }
    simpl. replace (r - r + 1) with 1 by lia.
    repeat split; try done; try lia.
    apply contenderStopsAt_true. by left.
  - destruct (contenderStopsAt this r t) eqn:Hstop; simpl.
    + replace (r - r + 1) with 1 by lia.
      repeat split; try done; lia.
    + destruct IH as (Hrange & Hstops & Hbefore & Hlog).
      set (R := (contenderBattlesOriginAt this (r + 1) t).1) in *.
      repeat split; try done; try lia.
      * intros j Hj. destruct (decide (j = r)) as [->|]; [done|].
        apply Hbefore. lia.
      * rewrite Hlog, (seqZ_cons r) by lia.
        rewrite fmap_cons. do 3 f_equal; lia.
Qed.

(** ** The cascade *)

Lemma topOrigin_assign_eq this ranking e :
  topOrigin (topOrigin_assign ranking e this) ranking = e.
Proof. unfold topOrigin, topOrigin_assign, prop; simpl. by rewrite lookup_insert_eq. Qed.

Lemma topOrigin_assign_ne this ranking e k :
  ranking ≠ k → topOrigin (topOrigin_assign ranking e this) k = topOrigin this k.
Proof.
  intros. unfold topOrigin, topOrigin_assign, prop; simpl. by rewrite lookup_insert_ne.
Qed.

Lemma reorderTopOriginsMap_topOrigin this r e k :
  topOrigin (reorderTopOriginsMap this r e).1 k =
    if bool_decide (r ≤ k ≤ ORIGIN_RANKING_LAST) then
      if bool_decide (k = r) then e else topOrigin this (k - 1)
    else topOrigin this k.
Proof.
  revert this e. induction r as [r Hr|r Hr IH] using ranking_ind; intros this e;
    rewrite reorderTopOriginsMap_eq.
  - rewrite bool_decide_eq_false_2 by lia. simpl.
    rewrite bool_decide_eq_false_2 by lia. done.
  - rewrite bool_decide_eq_true_2 by lia. simpl. rewrite IH.
    repeat case_bool_decide; subst; try lia.
    + by replace (r + 1 - 1) with r by lia.
    + by rewrite topOrigin_assign_ne by lia.
    + by rewrite topOrigin_assign_eq.
    + by rewrite topOrigin_assign_ne by lia.
Qed.

Lemma reorderTopOriginsMap_frame this r e :
  (reorderTopOriginsMap this r e).1 =
    set_topOriginsMap (topOriginsMap (reorderTopOriginsMap this r e).1) this.
Proof.
  revert this e. induction r as [r Hr|r Hr IH] using ranking_ind; intros this e;
    rewrite reorderTopOriginsMap_eq.
  - rewrite bool_decide_eq_false_2 by lia. by destruct this.
  - rewrite bool_decide_eq_true_2 by lia. simpl. rewrite IH at 1. done.
Qed.

Lemma reorderTopOriginsMap_steps this r e :
  shiftSteps (reorderTopOriginsMap this r e).2 = Z.to_nat (ORIGIN_RANKING_LAST + 1 - r).
Proof.
  revert this e. induction r as [r Hr|r Hr IH] using ranking_ind; intros this e;
    rewrite reorderTopOriginsMap_eq.
  - rewrite bool_decide_eq_false_2 by lia. simpl. lia.
  - rewrite bool_decide_eq_true_2 by lia. simpl. rewrite IH. lia.
Qed.

Lemma shiftLog_ext (f g : Z → Entry AkitaOriginData) r e n :
  (∀ k, r ≤ k → f k = g k) → shiftLog f r e n = shiftLog g r e n.
Proof.
  revert r e. induction n as [|n IH]; intros r e Hfg; simpl; [done|].
  rewrite (Hfg r) by lia. do 2 f_equal. apply IH. intros k Hk. apply Hfg. lia.
Qed.

Lemma shiftLog_steps (f : Z → Entry AkitaOriginData) r e n :
  shiftSteps (shiftLog f r e n) = n.
Proof. revert r e. induction n as [|n IH]; intros r e; simpl; [done|]. by rewrite IH. Qed.

Lemma reorderTopOriginsMap_log this r e :
  (reorderTopOriginsMap this r e).2 =
    shiftLog (topOrigin this) r e (Z.to_nat (ORIGIN_RANKING_LAST + 1 - r)).
Proof.
  revert this e. induction r as [r Hr|r Hr IH] using ranking_ind; intros this e;
    rewrite reorderTopOriginsMap_eq.
  - rewrite bool_decide_eq_false_2 by lia.
    by replace (Z.to_nat (ORIGIN_RANKING_LAST + 1 - r)) with 0%nat by lia.
  - rewrite bool_decide_eq_true_2 by lia. simpl.
    replace (Z.to_nat (ORIGIN_RANKING_LAST + 1 - r))
      with (S (Z.to_nat (ORIGIN_RANKING_LAST + 1 - (r + 1)))) by lia.
    simpl. do 2 f_equal. rewrite IH. apply shiftLog_ext.
    intros k Hk. apply topOrigin_assign_ne. lia.
Qed.

(** C8.  Both recursions are total functions, defined by well-founded
    recursion on the distance from the ranking to 6.  The class starts them
    at rankings between 1 and 6: the rank search at 1, the cascade at a
    placement rank up to 5, and each calls itself on the next ranking, up
    to 6.  Started at such a ranking [r], the rank search returns a ranking
    between [r] and 6; it is called on [r], [r + 1], ... up to the ranking
    it returns, one more at each call, and it calls itself again only from
    rankings up to 5.  Started at such a ranking [r], the cascade makes at
    most [6 - r] shift steps: one at each of the rankings [r], [r + 1],
    ..., 5, in that order, and none from 6 on. *)
Theorem C8_recursions_bounded this r :
  1 ≤ r ≤ 6 →
  (∀ t,
     let R := (contenderBattlesOriginAt this r t).1 in
     r ≤ R ≤ 6
     ∧ (contenderBattlesOriginAt this r t).2 = LogFirstPos <$> seqZ r (R - r + 1)
     ∧ (∀ j, r ≤ j < R → j ≤ ORIGIN_RANKING_LAST))
  ∧ (∀ e,
       Z.of_nat (shiftSteps (reorderTopOriginsMap this r e).2) ≤ 6 - r
       ∧ (reorderTopOriginsMap this r e).2
         = shiftLog (topOrigin this) r e (Z.to_nat (6 - r))).
Proof.
  intros Hr. split.
  - intros t R.
    destruct (contenderBattlesOriginAt_spec this t r) as (Hrange & _ & Hbefore & Hlog).
    fold R in Hrange, Hbefore, Hlog. unfold ORIGIN_RANKING_LAST in Hrange.
    split_and!; try done; try lia.
    intros j Hj. by apply (contenderStopsAt_false this j t), Hbefore.
  - intros e.
    pose proof (reorderTopOriginsMap_steps this r e) as Hsteps.
    unfold ORIGIN_RANKING_LAST in Hsteps. simpl in Hsteps.
    split; [lia|]. apply reorderTopOriginsMap_log.
Qed.

(** ** One call of [maybeUpdateTopOriginsMap] *)

Lemma maybeUpdateTopOriginsMap_skip (c : AkitaOriginData) this :
  isCurrentlyMonetized c = false ∨ timeOf c ≤ 0 →
  maybeUpdateTopOriginsMap c this = (this, []).
Proof.
  unfold maybeUpdateTopOriginsMap, timeOf. intros [Hm|Ht].
  - by rewrite Hm.
  - destruct (isCurrentlyMonetized c); [|done].
    by rewrite bool_decide_eq_false_2 by lia.
Qed.

Lemma maybeUpdateTopOriginsMap_result (c : AkitaOriginData) this :
  isCurrentlyMonetized c = true → 0 < timeOf c →
  (maybeUpdateTopOriginsMap c this).1 =
    let R := placementRank this (timeOf c) in
    if bool_decide (R > ORIGIN_RANKING_LAST) then this
    else
      match topOrigin this R with
      | Obj holder =>
          if bool_decide (origin c = origin holder)
          then topOrigin_assign R (Obj c) this
          else (reorderTopOriginsMap this R (Obj c)).1
      | Undefined | Null => topOrigin_assign R (Obj c) this
      end.
Proof.
  unfold maybeUpdateTopOriginsMap, placementRank, timeOf. intros -> Ht.
  rewrite bool_decide_eq_true_2 by lia. unfold bind. simpl.
  case_bool_decide; [done|].
  destruct (topOrigin this _) as [| |holder]; try done.
  by case_bool_decide.
Qed.

Lemma placementRank_spec this t :
  let R := placementRank this t in
  ORIGIN_RANKING_FIRST ≤ R ≤ ORIGIN_RANKING_LAST + 1
  ∧ (R ≤ ORIGIN_RANKING_LAST →
       truthy (topOrigin this R) = false
       ∨ ∃ holder, topOrigin this R = Obj holder ∧ timeOf holder < t)
  ∧ (∀ j, ORIGIN_RANKING_FIRST ≤ j < R →
       j ≤ ORIGIN_RANKING_LAST
       ∧ ∃ holder, topOrigin this j = Obj holder ∧ t ≤ timeOf holder).
Proof.
  intros R.
  destruct (contenderBattlesOriginAt_spec this t ORIGIN_RANKING_FIRST)
    as (Hrange & Hstop & Hbefore & _).
  fold (placementRank this t) in Hrange, Hstop, Hbefore. fold R in Hrange, Hstop, Hbefore.
  unfold ORIGIN_RANKING_FIRST, ORIGIN_RANKING_LAST in *.
  split; [lia|]. split.
  - intros HR. apply contenderStopsAt_true in Hstop.
    unfold ORIGIN_RANKING_LAST in Hstop. destruct Hstop as [?|?]; [lia|done].
  - intros j Hj. by apply (contenderStopsAt_false this j t), Hbefore.
Qed.

Lemma maybeUpdateTopOriginsMap_topOrigin (c : AkitaOriginData) this k :
  isCurrentlyMonetized c = true → 0 < timeOf c →
  let R := placementRank this (timeOf c) in
  topOrigin (maybeUpdateTopOriginsMap c this).1 k =
    if bool_decide (R > ORIGIN_RANKING_LAST) then topOrigin this k
    else if bool_decide (k = R) then Obj c
    else if displacesAt this c R && bool_decide (R < k ≤ ORIGIN_RANKING_LAST)
    then topOrigin this (k - 1)
    else topOrigin this k.
Proof.
  intros Hm Ht R. rewrite maybeUpdateTopOriginsMap_result by done. fold R.
  unfold displacesAt. simpl.
  case_bool_decide as HR; [done|].
  destruct (topOrigin this R) as [| |holder] eqn:Hholder; simpl.
  - case_bool_decide as Hk; subst.
    + apply topOrigin_assign_eq.
    + by apply topOrigin_assign_ne.
  - case_bool_decide as Hk; subst.
    + apply topOrigin_assign_eq.
    + by apply topOrigin_assign_ne.
  - case_bool_decide as Ho; simpl.
    + case_bool_decide as Hk; subst.
      * apply topOrigin_assign_eq.
      * by apply topOrigin_assign_ne.
    + rewrite reorderTopOriginsMap_topOrigin.
      repeat case_bool_decide; try done; lia.
Qed.

Lemma maybeUpdateTopOriginsMap_frame (c : AkitaOriginData) this :
  (maybeUpdateTopOriginsMap c this).1 =
    set_topOriginsMap (topOriginsMap (maybeUpdateTopOriginsMap c this).1) this.
Proof.
  destruct (isCurrentlyMonetized c) eqn:Hm;
    [destruct (decide (0 < timeOf c)) as [Ht|Ht]|].
  - rewrite maybeUpdateTopOriginsMap_result by done. simpl.
    case_bool_decide; [by destruct this|].
    destruct (topOrigin this _); try done.
    case_bool_decide; [done|]. apply reorderTopOriginsMap_frame.
  - rewrite maybeUpdateTopOriginsMap_skip by (right; lia). by destruct this.
  - rewrite maybeUpdateTopOriginsMap_skip by (by left). by destruct this.
Qed.

Lemma displacesAt_true this (c : AkitaOriginData) ranking :
  displacesAt this c ranking = true ↔
    ∃ holder, topOrigin this ranking = Obj holder ∧ origin c ≠ origin holder.
Proof.
  unfold displacesAt. destruct (topOrigin this ranking) as [| |holder].
  - split; [done|]. by intros (? & ? & ?).
  - split; [done|]. by intros (? & ? & ?).
  - case_bool_decide as Ho; simpl; split; try done.
    + intros (? & [= <-] & ?). done.
    + intros _. by exists holder.
Qed.

(** Where an origin found on the board after a placement came from: it
    is the contender, or it moved down one ranking, or it stayed. *)
Lemma maybeUpdateTopOriginsMap_view (c : AkitaOriginData) this k d :
  isCurrentlyMonetized c = true → 0 < timeOf c →
  let R := placementRank this (timeOf c) in
  R ≤ ORIGIN_RANKING_LAST →
  topOrigin (maybeUpdateTopOriginsMap c this).1 k = Obj d →
  (k = R ∧ d = c)
  ∨ (displacesAt this c R = true ∧ R < k ≤ ORIGIN_RANKING_LAST
     ∧ topOrigin this (k - 1) = Obj d)
  ∨ (k ≠ R ∧ (displacesAt this c R = false ∨ k < R ∨ k > ORIGIN_RANKING_LAST)
     ∧ topOrigin this k = Obj d).
Proof.
  intros Hm Ht R HR. rewrite maybeUpdateTopOriginsMap_topOrigin by done. fold R.
  rewrite bool_decide_eq_false_2 by lia.
  case_bool_decide as Hk; [intros [= <-]; by left|].
  destruct (displacesAt this c R) eqn:Hd; simpl.
  - case_bool_decide as Hs; intros Hk'.
    + right; left. done.
    + right; right. split; [done|]. split; [|done]. right. lia.
  - intros Hk'. right; right. split; [done|]. split; [by left|done].
Qed.

(** ** Boards reached from the empty one stay ordered *)

Lemma maybeUpdateTopOriginsMap_ordered (c : AkitaOriginData) this :
  ranksFilledFromTop this → rankOrdered this →
  ranksFilledFromTop (maybeUpdateTopOriginsMap c this).1
  ∧ rankOrdered (maybeUpdateTopOriginsMap c this).1.
Proof.
  intros [Hwithin Hprefix] Hord.
  destruct (isCurrentlyMonetized c) eqn:Hm; cycle 1.
  { by rewrite maybeUpdateTopOriginsMap_skip by (by left). }
  destruct (decide (0 < timeOf c)) as [Ht|Ht]; cycle 1.
  { by rewrite maybeUpdateTopOriginsMap_skip by (right; lia). }
  pose proof (placementRank_spec this (timeOf c)) as (HR & Hstop & Hbefore).
  pose proof (maybeUpdateTopOriginsMap_view c this) as Hview.
  pose proof (maybeUpdateTopOriginsMap_topOrigin c this) as Hlook.
  specialize (λ k d, Hview k d Hm Ht). specialize (λ k, Hlook k Hm Ht).
  simpl in *.
  set (R := placementRank this (timeOf c)) in *.
  set (this' := (maybeUpdateTopOriginsMap c this).1) in *.
  destruct (decide (R ≤ ORIGIN_RANKING_LAST)) as [HRle|HRgt]; cycle 1.
  { assert (this' = this) as ->; [|done].
    unfold this'. rewrite maybeUpdateTopOriginsMap_result by done. fold R.
    simpl. by rewrite bool_decide_eq_true_2 by lia. }
  specialize (λ k d, Hview k d HRle). specialize (Hstop HRle).
  assert (displacesAt this c R = true →
          ∃ h, topOrigin this R = Obj h ∧ timeOf h < timeOf c) as Hdisp.
  { intros (h & Hh & _)%displacesAt_true.
    destruct Hstop as [Hs|(h' & Hh' & ?)]; [by rewrite Hh in Hs|].
    exists h'. done. }
  unfold ranksFilledFromTop, ORIGIN_RANKING_FIRST, ORIGIN_RANKING_LAST in *.
  split; [split|].
  - (* rankings in range *)
    intros k d [[-> _]|[(_ & ? & _)|(_ & _ & Hk)]]%Hview; [lia|lia|by eapply Hwithin].
  - (* filled from the top *)
    intros i j d Hij Hj. rewrite Hlook. clear Hlook.
    rewrite (bool_decide_eq_false_2 (R > 5)) by lia.
    destruct (decide (i = R)) as [->|HiR].
    { rewrite bool_decide_eq_true_2 by done. by eexists. }
    rewrite (bool_decide_eq_false_2 (i = R)) by done.
    apply Hview in Hj as [[-> _]|[(Hd & HjR & Hj)|(HjR & Hcase & Hj)]].
    + (* j is the placement rank *)
      rewrite (bool_decide_eq_false_2 (R < i ≤ 5)) by lia. rewrite andb_false_r.
      destruct (Hbefore i) as (_ & h & -> & _); [lia|by eexists].
    + (* j was shifted *)
      rewrite Hd. simpl. case_bool_decide as Hi.
      * apply (Hprefix (i - 1) (j - 1) d); [lia|done].
      * destruct (Hbefore i) as (_ & h & -> & _); [lia|by eexists].
    + (* j stayed *)
      assert (1 ≤ j ≤ 5) by (by eapply Hwithin).
      assert (displacesAt this c R && bool_decide (R < i ≤ 5) = false) as ->.
      { destruct Hcase as [->|?]; [done|].
        rewrite (bool_decide_eq_false_2 (R < i ≤ 5)) by lia. apply andb_false_r. }
      apply (Hprefix i j d); [lia|done].
  - (* ordered *)
    intros i j d d' Hij Hi Hj.
    apply Hview in Hi as [[-> ->]|[(Hdi & HiR & Hi)|(HiR & Hcasei & Hi)]];
    apply Hview in Hj as [[-> ->]|[(Hdj & HjR & Hj)|(HjR & Hcasej & Hj)]];
      try lia.
    + (* contender above a shifted origin *)
      destruct (Hdisp Hdj) as (h & Hh & Hlt).
      destruct (decide (j - 1 = R)) as [Heq|Hne].
      * rewrite Heq, Hh in Hj. injection Hj as <-. lia.
      * pose proof (Hord R (j - 1) h d' ltac:(lia) Hh Hj). lia.
    + (* contender above an origin that stayed *)
      destruct Hstop as [Hs|(h & Hh & Hlt)].
      * destruct (Hprefix R j d' ltac:(lia) Hj) as (h & Hh). by rewrite Hh in Hs.
      * pose proof (Hord R j h d' ltac:(lia) Hh Hj). lia.
    + (* both shifted *)
      apply (Hord (i - 1) (j - 1)); [lia|done..].
    + (* shifted above one that stayed *)
      assert (1 ≤ j ≤ 5) by (by eapply Hwithin).
      rewrite Hdi in Hcasej. destruct Hcasej as [?|?]; [done|lia].
    + (* stayed above the contender *)
      assert (1 ≤ i ≤ 5) by (by eapply Hwithin).
      destruct (Hbefore i) as (_ & h & Hh & Hle); [lia|].
      rewrite Hh in Hi. injection Hi as <-. done.
    + (* stayed above a shifted origin *)
      assert (1 ≤ i ≤ 5) by (by eapply Hwithin).
      rewrite Hdj in Hcasei. destruct Hcasei as [?|?]; [done|].
      apply (Hord i (j - 1)); [lia|done..].
    + (* both stayed *)
      by apply (Hord i j).
Qed.

Lemma new_AkitaOriginStats_topOrigin k :
  topOrigin (new_AkitaOriginStats : AkitaOriginStats WebMonetizationAsset) k = Undefined.
Proof. unfold topOrigin, prop. simpl. by rewrite lookup_empty. Qed.

Lemma considerAll_ordered_from contenders this :
  ranksFilledFromTop this → rankOrdered this →
  ranksFilledFromTop (considerAll contenders this)
  ∧ rankOrdered (considerAll contenders this).
Proof.
  revert this. induction contenders as [|c contenders IH]; intros this Hfill Hord.
  - done.
  - simpl. destruct (maybeUpdateTopOriginsMap_ordered c this Hfill Hord).
    by apply IH.
Qed.

(** Whatever contenders are considered, starting from a new object, the
    rankings that hold an origin are [1 .. n] and the time spent does not
    increase along them. *)
Lemma considerAll_ordered contenders :
  rankOrdered (considerAll contenders
                 (new_AkitaOriginStats : AkitaOriginStats WebMonetizationAsset)).
Proof.
  apply considerAll_ordered_from.
  - split; intros *; rewrite !new_AkitaOriginStats_topOrigin; [done|].
    intros _. done.
  - intros i j d d' _. by rewrite new_AkitaOriginStats_topOrigin.
Qed.

(** C4.  For a monetized contender with positive time spent, the ranking
    [R] computed by [maybeUpdateTopOriginsMap] is the first of 1..5 that
    holds no origin or an origin with strictly less time spent, and 6 when
    there is none: every ranking before [R] holds an origin with at least
    the contender's time.  A contender with [R ≤ 5] is stored at [R]; when
    no ranking of 1..5 qualifies the object is left as it was.  A holder
    whose time equals the contender's is never the placement rank, and on
    a board ordered by rank it still holds its ranking afterwards. *)
Theorem C4_placement_rank (c : AkitaOriginData) this :
  isCurrentlyMonetized c = true → 0 < timeOf c →
  let R := placementRank this (timeOf c) in
  let this' := (maybeUpdateTopOriginsMap c this).1 in
  1 ≤ R ≤ 6
  ∧ (R ≤ 5 →
       truthy (topOrigin this R) = false
       ∨ ∃ holder, topOrigin this R = Obj holder ∧ timeOf holder < timeOf c)
  ∧ (∀ j, 1 ≤ j < R →
       j ≤ 5 ∧ ∃ holder, topOrigin this j = Obj holder ∧ timeOf c ≤ timeOf holder)
  ∧ (R ≤ 5 → topOrigin this' R = Obj c)
  ∧ ((∀ j, 1 ≤ j ≤ 5 →
        ∃ holder, topOrigin this j = Obj holder ∧ timeOf c ≤ timeOf holder) →
     R = 6 ∧ this' = this)
  ∧ (R > 5 → this' = this)
  ∧ (∀ k holder, 1 ≤ k ≤ 5 → topOrigin this k = Obj holder →
       timeOf holder = timeOf c →
       R ≠ k ∧ (rankOrdered this → topOrigin this' k = Obj holder)).
Proof.
  intros Hm Ht R this'.
  pose proof (placementRank_spec this (timeOf c)) as (HR & Hstop & Hbefore).
  fold R in HR, Hstop, Hbefore.
  unfold ORIGIN_RANKING_FIRST, ORIGIN_RANKING_LAST in HR, Hstop, Hbefore.
  assert (R > 5 → this' = this) as Hdiscard.
  { intros HRgt. unfold this'. rewrite maybeUpdateTopOriginsMap_result by done.
    fold R. simpl. unfold ORIGIN_RANKING_LAST. by rewrite bool_decide_eq_true_2 by lia. }
  assert (∀ k holder, topOrigin this k = Obj holder → timeOf c ≤ timeOf holder →
          R ≤ 5 → R ≠ k) as Hnot.
  { intros k holder Hk Hle HRle ->.
    destruct (Hstop HRle) as [Hs|(h & Hh & Hlt)].
    - by rewrite Hk in Hs.
    - rewrite Hk in Hh. injection Hh as <-. lia. }
  split; [lia|]. split; [done|]. split; [done|]. split; [|split; [|split]].
  - intros HRle. unfold this'. rewrite maybeUpdateTopOriginsMap_topOrigin by done.
    fold R. unfold ORIGIN_RANKING_LAST.
    rewrite bool_decide_eq_false_2 by lia. by rewrite bool_decide_eq_true_2.
  - intros Hall.
    assert (R = 6) as HR6; [|split; [done|apply Hdiscard; lia]].
    destruct (decide (R ≤ 5)) as [HRle|?]; [|lia].
    destruct (Hall R ltac:(lia)) as (h & Hh & Hle).
    by destruct (Hnot R h Hh Hle HRle).
  - done.
  - intros k holder Hk Hhold Htie.
    assert (R ≠ k) as HRk.
    { destruct (decide (R ≤ 5)); [|lia]. apply (Hnot k holder); [done|lia|done]. }
    split; [done|]. intros Hord.
    unfold this'. rewrite maybeUpdateTopOriginsMap_topOrigin by done.
    fold R. unfold ORIGIN_RANKING_LAST.
    case_bool_decide as HRgt; [done|].
    rewrite bool_decide_eq_false_2 by done.
    destruct (displacesAt this c R) eqn:Hd; simpl; [|done].
    case_bool_decide as Hshift; [|done].
    apply displacesAt_true in Hd as (h & Hh & _).
    destruct (Hstop ltac:(lia)) as [Hs|(h' & Hh' & Hlt)]; [by rewrite Hh in Hs|].
    pose proof (Hord R k h' holder ltac:(lia) Hh' Hhold). lia.
Qed.

(** ** Running the board on given contenders *)

(** One call on an explicit board: unfold the call, evaluate the rank
    search and the slot it lands on, settle the comparison of origins
    from the hypotheses, and evaluate the writes. *)
Ltac consider_step :=
  rewrite maybeUpdateTopOriginsMap_result by (vm_compute; done);
  match goal with
  | |- context [placementRank ?s ?t] =>
      let v := eval vm_compute in (placementRank s t) in
      replace (placementRank s t) with v by (vm_compute; reflexivity)
  end;
  simpl bool_decide; cbv iota beta zeta;
  match goal with
  | |- context [topOrigin ?s ?k] =>
      let v := eval vm_compute in (topOrigin s k) in
      replace (topOrigin s k) with v by (vm_compute; reflexivity)
  end;
  cbv iota beta; simpl origin;
  try rewrite bool_decide_eq_false_2 by congruence;
  vm_compute; reflexivity.

Lemma boardOf_topOrigin (slots : list (Entry AkitaOriginData)) k d :
  topOrigin (boardOf slots : AkitaOriginStats WebMonetizationAsset) k = Obj d →
  Obj d ∈ slots.
Proof.
  unfold topOrigin, boardOf, prop. simpl.
  destruct (list_to_map _ !! k) as [e|] eqn:Hk; simpl; [|done].
  intros ->. apply elem_of_list_to_map_2 in Hk. by apply elem_of_zip_r in Hk.
Qed.

Section Scenario.
Variables o1 o2 o3 o4 o5 o6 : string.
Hypothesis Hdistinct : NoDup [o1; o2; o3; o4; o5; o6].

Let c1 := monetizedOrigin o1 10.
Let c2 := monetizedOrigin o2 20.
Let c3 := monetizedOrigin o3 30.
Let c4 := monetizedOrigin o4 40.
Let c5 := monetizedOrigin o5 50.
Let c6 := monetizedOrigin o6 25.

Lemma scenario_distinct :
  o2 ≠ o1 ∧ o3 ≠ o2 ∧ o4 ≠ o3 ∧ o5 ≠ o4 ∧ o6 ≠ o2
  ∧ o5 ≠ o1 ∧ o4 ≠ o1 ∧ o3 ≠ o1 ∧ o6 ≠ o1.
Proof using Hdistinct.
  clear c1 c2 c3 c4 c5 c6.
  repeat match goal with
         | H : NoDup (_ :: _) |- _ => apply NoDup_cons in H as [? H]
         end.
  set_solver.
Qed.

Lemma scenario_five :
  considerAll [c1; c2; c3; c4; c5]
    (new_AkitaOriginStats : AkitaOriginStats WebMonetizationAsset)
  = boardOf [Obj c5; Obj c4; Obj c3; Obj c2; Obj c1].
Proof using Hdistinct.
  destruct scenario_distinct as (? & ? & ? & ? & ? & _).
  unfold considerAll. cbn [foldl].
  assert ((maybeUpdateTopOriginsMap c1
             (new_AkitaOriginStats : AkitaOriginStats WebMonetizationAsset)).1
          = boardOf [Obj c1]) as ->
    by (subst c1; consider_step).
  assert ((maybeUpdateTopOriginsMap c2
             (boardOf [Obj c1] : AkitaOriginStats WebMonetizationAsset)).1
          = boardOf [Obj c2; Obj c1; Undefined; Undefined; Undefined]) as ->
    by (subst c1 c2; consider_step).
  assert ((maybeUpdateTopOriginsMap c3
             (boardOf [Obj c2; Obj c1; Undefined; Undefined; Undefined]
                : AkitaOriginStats WebMonetizationAsset)).1
          = boardOf [Obj c3; Obj c2; Obj c1; Undefined; Undefined]) as ->
    by (subst c1 c2 c3; consider_step).
  assert ((maybeUpdateTopOriginsMap c4
             (boardOf [Obj c3; Obj c2; Obj c1; Undefined; Undefined]
                : AkitaOriginStats WebMonetizationAsset)).1
          = boardOf [Obj c4; Obj c3; Obj c2; Obj c1; Undefined]) as ->
    by (subst c1 c2 c3 c4; consider_step).
  subst c1 c2 c3 c4 c5; consider_step.
Qed.

Lemma scenario_sixth :
  (maybeUpdateTopOriginsMap c6
     (boardOf [Obj c5; Obj c4; Obj c3; Obj c2; Obj c1]
        : AkitaOriginStats WebMonetizationAsset)).1
  = boardOf [Obj c5; Obj c4; Obj c3; Obj c6; Obj c2].
Proof using Hdistinct.
  destruct scenario_distinct as (? & ? & ? & ? & ? & _).
  subst c1 c2 c3 c4 c5 c6; consider_step.
Qed.
End Scenario.

(** C5.  When the placement rank [R] of a monetized contender holds a
    different origin, the contender is stored at [R], whatever was at a
    ranking [k] from [R] to 4 is found at [k + 1], and nothing else
    changes: the rankings before [R] and past 5 are as they were, so what
    was at ranking 5 is not kept anywhere, and the other fields of the
    object are untouched.  In particular, considering five monetized
    origins with distinct identifiers and times 10, 20, 30, 40, 50 in that
    order from a new object leaves them ranked 50, 40, 30, 20, 10, and a
    sixth distinct origin with time 25 then gives 50, 40, 30, 25, 20: the
    origin that had 10 is no longer at any ranking. *)
Theorem C5_cascade :
  (∀ this (c holder : AkitaOriginData),
     isCurrentlyMonetized c = true → 0 < timeOf c →
     let R := placementRank this (timeOf c) in
     let this' := (maybeUpdateTopOriginsMap c this).1 in
     R ≤ 5 → topOrigin this R = Obj holder → origin c ≠ origin holder →
     topOrigin this' R = Obj c
     ∧ (∀ k, R ≤ k < 5 → topOrigin this' (k + 1) = topOrigin this k)
     ∧ (∀ k, k < R ∨ 5 < k → topOrigin this' k = topOrigin this k)
     ∧ this' = set_topOriginsMap (topOriginsMap this') this)
  ∧ (∀ o1 o2 o3 o4 o5 o6 : string,
       NoDup [o1; o2; o3; o4; o5; o6] →
       let s5 : AkitaOriginStats WebMonetizationAsset :=
         considerAll [monetizedOrigin o1 10; monetizedOrigin o2 20; monetizedOrigin o3 30;
                      monetizedOrigin o4 40; monetizedOrigin o5 50] new_AkitaOriginStats in
       let s6 := (maybeUpdateTopOriginsMap (monetizedOrigin o6 25) s5).1 in
       boardRanks s5 =
         [Obj (monetizedOrigin o5 50); Obj (monetizedOrigin o4 40);
          Obj (monetizedOrigin o3 30); Obj (monetizedOrigin o2 20);
          Obj (monetizedOrigin o1 10)]
       ∧ boardRanks s6 =
           [Obj (monetizedOrigin o5 50); Obj (monetizedOrigin o4 40);
            Obj (monetizedOrigin o3 30); Obj (monetizedOrigin o6 25);
            Obj (monetizedOrigin o2 20)]
       ∧ ∀ k d, topOrigin s6 k = Obj d → origin d ≠ o1).
Proof.
  split.
  - intros this c holder Hm Ht R this' HR Hholder Hne.
    assert (displacesAt this c R = true) as Hd.
    { apply displacesAt_true. by exists holder. }
    assert (∀ k, topOrigin this' k =
              if bool_decide (k = R) then Obj c
              else if bool_decide (R < k ≤ 5) then topOrigin this (k - 1)
              else topOrigin this k) as Hlook.
    { intros k. unfold this'. rewrite maybeUpdateTopOriginsMap_topOrigin by done.
      fold R. rewrite Hd. unfold ORIGIN_RANKING_LAST.
      by rewrite (bool_decide_eq_false_2 (R > 5)) by lia. }
    split; [|split; [|split]].
    + rewrite Hlook. by rewrite bool_decide_eq_true_2.
    + intros k Hk. rewrite Hlook.
      rewrite bool_decide_eq_false_2 by lia. rewrite bool_decide_eq_true_2 by lia.
      f_equal. lia.
    + intros k Hk. rewrite Hlook.
      rewrite bool_decide_eq_false_2 by lia. by rewrite bool_decide_eq_false_2 by lia.
    + apply maybeUpdateTopOriginsMap_frame.
  - intros o1 o2 o3 o4 o5 o6 Hdistinct s5 s6.
    pose proof (scenario_distinct o1 o2 o3 o4 o5 o6 Hdistinct)
      as (? & _ & _ & _ & _ & ? & ? & ? & ?).
    assert (s5 = boardOf [Obj (monetizedOrigin o5 50); Obj (monetizedOrigin o4 40);
                          Obj (monetizedOrigin o3 30); Obj (monetizedOrigin o2 20);
                          Obj (monetizedOrigin o1 10)]) as Hs5
      by (by apply (scenario_five o1 o2 o3 o4 o5 o6)).
    assert (s6 = boardOf [Obj (monetizedOrigin o5 50); Obj (monetizedOrigin o4 40);
                          Obj (monetizedOrigin o3 30); Obj (monetizedOrigin o6 25);
                          Obj (monetizedOrigin o2 20)]) as Hs6.
    { unfold s6. rewrite Hs5. by apply (scenario_sixth o1 o2 o3 o4 o5 o6). }
    rewrite Hs5, Hs6. split; [reflexivity|]. split; [reflexivity|].
    intros k d Hk%boardOf_topOrigin.
    repeat (apply elem_of_cons in Hk as [[= ->]|Hk]; [done|]).
    by apply elem_of_nil in Hk.
Qed.

(** C1.  An origin that gains time and overtakes the origin ranked above
    it is listed twice.  Considering a.example with 10, b.example with 20
    and a.example again with 30 from a new object leaves a.example at
    rankings 1 and 3: the board is ordered by time spent, but an origin
    identifier holds two rankings. *)
Theorem C1_overtaking_origin_listed_twice :
  let a10 := monetizedOrigin "https://a.example" 10 in
  let b20 := monetizedOrigin "https://b.example" 20 in
  let a30 := monetizedOrigin "https://a.example" 30 in
  let s : AkitaOriginStats WebMonetizationAsset :=
    considerAll [a10; b20; a30] new_AkitaOriginStats in
  boardRanks s = [Obj a30; Obj b20; Obj a10; Undefined; Undefined]
  ∧ rankOrdered s
  ∧ ¬ originsUnique s.
Proof.
  intros a10 b20 a30 s.
  assert (boardRanks s = [Obj a30; Obj b20; Obj a10; Undefined; Undefined]) as Hranks
    by (vm_compute; reflexivity).
  split; [done|]. split; [apply considerAll_ordered|].
  intros Huniq.
  assert (topOrigin s 1 = Obj a30) as H1 by (vm_compute; reflexivity).
  assert (topOrigin s 3 = Obj a10) as H3 by (vm_compute; reflexivity).
  by pose proof (Huniq 1 3 a30 a10 H1 H3 eq_refl).
Qed.

(** C2.  Submitting again, with the same time spent, an origin that is
    already ranked does not overwrite its entry in place: the rank search
    passes it (the comparison is strict) and the origin is stored a second
    time at the next ranking that is free or holds less.  With a.example
    at ranking 1 with time 10, submitting a.example with time 10 again
    puts it at ranking 2 as well. *)
Theorem C2_resubmission_stored_twice :
  let a10 := monetizedOrigin "https://a.example" 10 in
  let s : AkitaOriginStats WebMonetizationAsset :=
    considerAll [a10] new_AkitaOriginStats in
  let s' := (maybeUpdateTopOriginsMap a10 s).1 in
  boardRanks s = [Obj a10; Undefined; Undefined; Undefined; Undefined]
  ∧ placementRank s (timeOf a10) = 2
  ∧ boardRanks s' = [Obj a10; Obj a10; Undefined; Undefined; Undefined]
  ∧ boardRanks s' ≠ boardRanks s.
Proof.
  intros a10 s s'.
  assert (boardRanks s = [Obj a10; Undefined; Undefined; Undefined; Undefined]) as ->
    by (vm_compute; reflexivity).
  assert (boardRanks s' = [Obj a10; Obj a10; Undefined; Undefined; Undefined]) as ->
    by (vm_compute; reflexivity).
  split; [done|]. split; [vm_compute; reflexivity|]. split; [done|].
  intros [=].
Qed.

(** ** Totals *)

(** C6.  [updateTimeSpent] adds the recent time to the total time spent
    whatever the origin, adds it to the monetized total exactly when the
    origin is currently monetized, and always hands the origin to
    [maybeUpdateTopOriginsMap]: the top-origins map and the console lines
    are those of that call on the object as it was, also for an origin
    that is not monetized, which the board leaves out.  The visit counters
    and the other two maps are untouched.  (This holds for every recent
    time, non-negative or not.) *)
Theorem C6_updateTimeSpent this (recentTimeSpent : Z) (originData : AkitaOriginData) :
  let this' := (updateTimeSpent recentTimeSpent originData this).1 in
  totalTimeSpent this' = totalTimeSpent this + recentTimeSpent
  ∧ totalMonetizedTimeSpent this' =
      (if isCurrentlyMonetized originData
       then totalMonetizedTimeSpent this + recentTimeSpent
       else totalMonetizedTimeSpent this)
  ∧ topOriginsMap this' = topOriginsMap (maybeUpdateTopOriginsMap originData this).1
  ∧ (updateTimeSpent recentTimeSpent originData this).2 =
      (maybeUpdateTopOriginsMap originData this).2
  ∧ (isCurrentlyMonetized originData = false →
       topOriginsMap this' = topOriginsMap this)
  ∧ totalVisits this' = totalVisits this
  ∧ totalMonetizedVisits this' = totalMonetizedVisits this
  ∧ needsSomeLoveMap this' = needsSomeLoveMap this
  ∧ totalSentAssetsMap this' = totalSentAssetsMap this.
Proof.
  intros this'.
  pose proof (maybeUpdateTopOriginsMap_frame originData this) as Hframe.
  assert (isCurrentlyMonetized originData = false →
          (maybeUpdateTopOriginsMap originData this).1 = this) as Hskip.
  { intros Hm. by rewrite maybeUpdateTopOriginsMap_skip by (by left). }
  unfold this', updateTimeSpent, bind.
  destruct (isCurrentlyMonetized originData) eqn:Hm; simpl;
    rewrite ?app_nil_r; rewrite Hframe; simpl;
    repeat split; try done.
  intros _. by rewrite Hskip.
Qed.

(** C9.  [incrementVisits] adds one to the total visits, adds one to the
    monetized visits exactly when the flag is true, and leaves the two
    time totals and the three maps as they were. *)
Theorem C9_incrementVisits this (originisCurrentlyMonetized : bool) :
  let this' := incrementVisits originisCurrentlyMonetized this in
  totalVisits this' = totalVisits this + 1
  ∧ totalMonetizedVisits this' =
      (if originisCurrentlyMonetized
       then totalMonetizedVisits this + 1
       else totalMonetizedVisits this)
  ∧ totalTimeSpent this' = totalTimeSpent this
  ∧ totalMonetizedTimeSpent this' = totalMonetizedTimeSpent this
  ∧ topOriginsMap this' = topOriginsMap this
  ∧ needsSomeLoveMap this' = needsSomeLoveMap this
  ∧ totalSentAssetsMap this' = totalSentAssetsMap this.
Proof. by destruct originisCurrentlyMonetized. Qed.

(** ** Sent assets *)

Section Ledger.
Variable new_WebMonetizationAsset : JsValue → WebMonetizationAsset.
Variable addAmount : JsValue → JsValue → WebMonetizationAsset → WebMonetizationAsset.
Variable StringToNumber : string → Number.
Variable NumberToString : Number → string.

Local Abbreviation update :=
  (updateAssetsMapWithAsset new_WebMonetizationAsset addAmount
     StringToNumber NumberToString).

(** The call by cases on the guard and on what the object holds under the
    asset code: an own entry is credited; without one, a code that names
    an inherited property makes the call throw before anything is written,
    and any other code gets a new asset, which is credited. *)
Lemma updateAssetsMapWithAsset_eq (paymentData : PaymentData) this :
  let amount' := withDefault (amount paymentData) JsNull in
  let assetScale' := withDefault (assetScale paymentData) JsNull in
  let assetCode' := withDefault (assetCode paymentData) JsNull in
  let key := ToPropertyKey NumberToString assetCode' in
  update paymentData this =
    if negb (isNaN StringToNumber amount') && negb (isNaN StringToNumber assetScale')
       && ToBoolean assetCode'
    then
      match totalSentAssetsMap this !! key with
      | Some a =>
          Returns
            (set_totalSentAssetsMap
               (<[key := addAmount amount' assetScale' a]> (totalSentAssetsMap this)) this)
      | None =>
          if bool_decide (key ∈ Object_prototype_names) then ThrowsTypeError this
          else
            Returns
              (set_totalSentAssetsMap
                 (<[key := addAmount amount' assetScale' (new_WebMonetizationAsset assetCode')]>
                    (totalSentAssetsMap this)) this)
      end
    else Returns this.
Proof.
  intros amount' assetScale' assetCode' key.
  unfold updateAssetsMapWithAsset. fold amount' assetScale' assetCode' key.
  destruct (_ && _); [|done].
  unfold readProperty.
  destruct (totalSentAssetsMap this !! key) as [a|] eqn:Hkey; simpl.
  - rewrite Hkey. do 2 f_equal.
    apply map_eq. intros key'. rewrite lookup_alter.
    destruct (decide (key = key')) as [<-|Hne].
    + by rewrite lookup_insert_eq, Hkey.
    + by rewrite lookup_insert_ne.
  - destruct (bool_decide (key ∈ Object_prototype_names)) eqn:Hin; simpl.
    + by rewrite Hkey.
    + rewrite lookup_insert_eq.
      unfold set_totalSentAssetsMap. simpl. by rewrite alter_insert_eq.
Qed.

(** The part of the guard that works: a call whose amount or scale
    coerces to NaN, or whose asset code is falsy, returns without having
    changed anything. *)
Lemma updateAssetsMapWithAsset_guarded (paymentData : PaymentData) this :
  isNaN StringToNumber (withDefault (amount paymentData) JsNull) = true
  ∨ isNaN StringToNumber (withDefault (assetScale paymentData) JsNull) = true
  ∨ ToBoolean (withDefault (assetCode paymentData) JsNull) = false →
  update paymentData this = Returns this.
Proof.
  unfold updateAssetsMapWithAsset. intros [-> | [-> | ->]]; simpl; try done.
  - by rewrite andb_false_r.
  - by rewrite andb_false_r.
Qed.

(** A payment pointer alone, or an empty asset code, records nothing. *)
Lemma updateAssetsMapWithAsset_no_code (paymentData : PaymentData) this :
  assetCode paymentData = JsUndefined ∨ assetCode paymentData = JsNull
  ∨ assetCode paymentData = JsString "" →
  update paymentData this = Returns this.
Proof.
  intros Hcode. apply updateAssetsMapWithAsset_guarded. right; right.
  by destruct Hcode as [-> | [-> | ->]].
Qed.

(** A missing amount does not coerce to NaN: it defaults to [null],
    and [isNaN(null)] is false. *)
Lemma isNaN_missing : isNaN StringToNumber (withDefault JsUndefined JsNull) = false.
Proof. reflexivity. Qed.

(** C3.  A call that carries an asset code but neither amount nor scale
    is not a no-op: on a new object it returns having created the entry
    for the code and called [addAmount(null, null)] on it. *)
Theorem C3_missing_amount_creates_entry :
  let paymentData :=
    {| paymentPointer := JsString "$wallet.example/alice";
       amount := JsUndefined;
       assetScale := JsUndefined;
       assetCode := JsString "USD" |} in
  let this' := objectAfter (update paymentData new_AkitaOriginStats) in
  update paymentData new_AkitaOriginStats = Returns this'
  ∧ totalSentAssetsMap this' =
      {[ "USD"%string :=
           addAmount JsNull JsNull (new_WebMonetizationAsset (JsString "USD")) ]}
  ∧ totalSentAssetsMap this' !! "USD"%string ≠ None
  ∧ this' ≠ new_AkitaOriginStats.
Proof.
  intros paymentData this'.
  assert (update paymentData new_AkitaOriginStats = Returns this') as Hreturns.
  { unfold this'. rewrite updateAssetsMapWithAsset_eq. simpl.
    by rewrite lookup_empty. }
  assert (totalSentAssetsMap this' =
            {[ "USD"%string :=
                 addAmount JsNull JsNull (new_WebMonetizationAsset (JsString "USD")) ]})
    as Hmap.
  { unfold this'. rewrite updateAssetsMapWithAsset_eq. simpl.
    rewrite lookup_empty. simpl. by rewrite insert_empty. }
  split; [done|]. split; [done|]. split.
  - rewrite Hmap. by rewrite lookup_singleton_eq.
  - intros Heq. rewrite Heq in Hmap. simpl in Hmap.
    apply (f_equal (λ m, m !! "USD"%string)) in Hmap.
    by rewrite lookup_empty, lookup_singleton_eq in Hmap.
Qed.
End Ledger.

(** ** Reconstruction *)

Lemma forIn_lookup {K A B S : Type} `{Countable K}
  (o : gmap K A) (field : S → gmap K B) (f : A → option B)
  (body : K → A → S → S) (s : S) :
  (∀ key a s', field (body key a s') =
     match f a with
     | Some b => <[key := b]> (field s')
     | None => field s'
     end) →
  ∀ key, field (forIn o body s) !! key =
           match o !! key ≫= f with
           | Some b => Some b
           | None => field s !! key
           end.
Proof.
  intros Hbody. unfold forIn.
  apply (map_fold_weak_ind
           (λ acc m, ∀ key, field acc !! key =
              match m !! key ≫= f with
              | Some b => Some b
              | None => field s !! key
              end)).
  - intros key. by rewrite lookup_empty.
  - intros i x m acc Hi IH key. rewrite Hbody.
    destruct (decide (i = key)) as [->|Hne].
    + rewrite lookup_insert_eq. simpl. destruct (f x) eqn:Hf.
      * by rewrite lookup_insert_eq.
      * rewrite IH, Hi. done.
    + rewrite (lookup_insert_ne m) by done. destruct (f x).
      * rewrite lookup_insert_ne by done. apply IH.
      * apply IH.
Qed.

Lemma forIn_frame {K A S T : Type} `{Countable K}
  (o : gmap K A) (field : S → T) (body : K → A → S → S) (s : S) :
  (∀ key a s', field (body key a s') = field s') →
  field (forIn o body s) = field s.
Proof.
  intros Hbody. unfold forIn.
  apply (map_fold_weak_ind (λ acc _, field acc = field s)); [done|].
  intros i x m acc _ IH. by rewrite Hbody.
Qed.

Section Reconstruction.
Context {StoredAsset : Type}.
Variable WebMonetizationAsset_fromObject : StoredAsset → WebMonetizationAsset.
Implicit Types (o : AkitaOriginStats StoredAsset).

Local Abbreviation rebuild := (fromObject WebMonetizationAsset_fromObject).

Lemma fromObject_totals o :
  totalTimeSpent (rebuild o) = totalTimeSpent o
  ∧ totalMonetizedTimeSpent (rebuild o) = totalMonetizedTimeSpent o
  ∧ totalVisits (rebuild o) = totalVisits o
  ∧ totalMonetizedVisits (rebuild o) = totalMonetizedVisits o.
Proof.
  unfold fromObject; repeat split;
    repeat (rewrite forIn_frame; [|by intros ? [] ? || by intros]); done.
Qed.

Lemma fromObject_topOriginsMap o ranking :
  topOriginsMap (rebuild o) !! ranking = topOriginsMap o !! ranking ≫= keptOrigin.
Proof.
  unfold fromObject.
  do 2 (rewrite forIn_frame; [|by intros ? [] ? || by intros]).
  rewrite (forIn_lookup _ topOriginsMap keptOrigin); [|by intros ? [] ?].
  simpl. rewrite lookup_empty. by destruct (_ ≫= _).
Qed.

Lemma fromObject_needsSomeLoveMap o key :
  needsSomeLoveMap (rebuild o) !! key = needsSomeLoveMap o !! key ≫= keptOrigin.
Proof.
  unfold fromObject.
  rewrite forIn_frame; [|by intros].
  rewrite (forIn_lookup _ needsSomeLoveMap keptOrigin); [|by intros ? [] ?].
  rewrite forIn_frame; [|by intros ? [] ?].
  simpl. rewrite lookup_empty. by destruct (_ ≫= _).
Qed.

Lemma fromObject_totalSentAssetsMap o :
  totalSentAssetsMap (rebuild o) = WebMonetizationAsset_fromObject <$> totalSentAssetsMap o.
Proof.
  apply map_eq. intros assetCode. unfold fromObject.
  rewrite (forIn_lookup _ totalSentAssetsMap (λ a, Some (WebMonetizationAsset_fromObject a)));
    [|by intros].
  do 2 (rewrite forIn_frame; [|by intros ? [] ? || by intros]).
  simpl. rewrite lookup_empty, lookup_fmap.
  by destruct (totalSentAssetsMap o !! assetCode).
Qed.
End Reconstruction.

Lemma AkitaOriginData_fromObject_copy (d : AkitaOriginData) :
  AkitaOriginData_fromObject d = d.
Proof. by destruct d as [? ? []]. Qed.

Lemma fromObject_occupant {K : Type} `{Countable K}
  (m m' mo : gmap K (Entry AkitaOriginData)) :
  (∀ key, m' !! key = mo !! key ≫= keptOrigin) →
  (∀ key, prop mo key = prop m key) →
  ∀ key, occupant (prop m' key) = occupant (prop m key).
Proof.
  intros Hkept Hsame key. rewrite <- Hsame. unfold prop. rewrite Hkept.
  destruct (mo !! key) as [[| |d]|]; simpl; try done.
  by rewrite AkitaOriginData_fromObject_copy.
Qed.

(** C7.  Let [o] be a plain object structurally equivalent to the state
    [s], and let the asset reconstruction give back the asset that was
    stored.  Then [fromObject o] has the four totals of [s]; at every
    ranking it holds the origin that [s] holds there (the same record, so
    the same identifier and time spent), and none where [s] holds none;
    the same goes for the needs-some-love map; and its asset map is that
    of [s], currency by currency. *)
Theorem C7_round_trip {StoredAsset : Type}
  (storeAsset : WebMonetizationAsset → StoredAsset)
  (WebMonetizationAsset_fromObject : StoredAsset → WebMonetizationAsset)
  (o : AkitaOriginStats StoredAsset) this :
  (∀ a, WebMonetizationAsset_fromObject (storeAsset a) = a) →
  structurallyEquivalent storeAsset o this →
  let this' := fromObject WebMonetizationAsset_fromObject o in
  totalTimeSpent this' = totalTimeSpent this
  ∧ totalMonetizedTimeSpent this' = totalMonetizedTimeSpent this
  ∧ totalVisits this' = totalVisits this
  ∧ totalMonetizedVisits this' = totalMonetizedVisits this
  ∧ (∀ ranking, occupant (topOrigin this' ranking) = occupant (topOrigin this ranking))
  ∧ (∀ key, occupant (prop (needsSomeLoveMap this') key)
            = occupant (prop (needsSomeLoveMap this) key))
  ∧ totalSentAssetsMap this' = totalSentAssetsMap this.
Proof.
  intros Hcopy (Ht & Hmt & Hv & Hmv & Htop & Hlove & Hassets) this'. subst this'.
  destruct (fromObject_totals WebMonetizationAsset_fromObject o) as (-> & -> & -> & ->).
  repeat split; try done.
  - apply (fromObject_occupant _ _ (topOriginsMap o)); [|done].
    apply fromObject_topOriginsMap.
  - apply (fromObject_occupant _ _ (needsSomeLoveMap o)); [|done].
    apply fromObject_needsSomeLoveMap.
  - rewrite fromObject_totalSentAssetsMap, Hassets.
    apply map_eq. intros assetCode. rewrite !lookup_fmap.
    destruct (totalSentAssetsMap this !! assetCode); simpl; [|done].
    by rewrite Hcopy.
Qed.

(** C10.  [fromObject] copies an entry of the input's top-origins map or
    needs-some-love map only when it is truthy: a property holding
    [undefined] or [null] is absent from the reconstructed map, so a
    ranking holding [null] does not come back.  Every entry of the input's
    asset map, falsy ones included, is handed to the asset reconstruction
    and its result stored under the same code. *)
Theorem C10_fromObject_guards {X : Type}
  (WebMonetizationAsset_fromObject : Entry X → WebMonetizationAsset)
  (o : AkitaOriginStats (Entry X)) :
  let this' := fromObject WebMonetizationAsset_fromObject o in
  (∀ ranking e, topOriginsMap o !! ranking = Some e → truthy e = false →
     topOriginsMap this' !! ranking = None)
  ∧ (∀ key e, needsSomeLoveMap o !! key = Some e → truthy e = false →
       needsSomeLoveMap this' !! key = None)
  ∧ (∀ ranking d, topOriginsMap o !! ranking = Some (Obj d) →
       topOriginsMap this' !! ranking = Some (Obj (AkitaOriginData_fromObject d)))
  ∧ (∀ key d, needsSomeLoveMap o !! key = Some (Obj d) →
       needsSomeLoveMap this' !! key = Some (Obj (AkitaOriginData_fromObject d)))
  ∧ (∀ assetCode (stored : Entry X), totalSentAssetsMap o !! assetCode = Some stored →
       totalSentAssetsMap this' !! assetCode
       = Some (WebMonetizationAsset_fromObject stored))
  ∧ (∀ assetCode, totalSentAssetsMap o !! assetCode = None →
       totalSentAssetsMap this' !! assetCode = None)
  ∧ (∀ ranking, topOriginsMap o !! ranking = Some Null →
       topOrigin this' ranking = Undefined ∧ topOriginsMap this' !! ranking = None).
Proof.
  intros this'. unfold this', topOrigin, prop.
  split_and!.
  - intros ranking e He Hfalsy. rewrite fromObject_topOriginsMap, He. by destruct e.
  - intros key e He Hfalsy. rewrite fromObject_needsSomeLoveMap, He. by destruct e.
  - intros ranking d Hd. by rewrite fromObject_topOriginsMap, Hd.
  - intros key d Hd. by rewrite fromObject_needsSomeLoveMap, Hd.
  - intros assetCode stored He.
    by rewrite fromObject_totalSentAssetsMap, lookup_fmap, He.
  - intros assetCode He. by rewrite fromObject_totalSentAssetsMap, lookup_fmap, He.
  - intros ranking Hnull. by rewrite fromObject_topOriginsMap, Hnull.
Qed.
End Properties.

(** * Instances

    The statements above at the sample inputs. *)

(** A contender that ties with the origin at ranking 2 lands at ranking 3
    and leaves that origin where it is. *)
Lemma C4_tie_witness :
  let c := monetizedOrigin "https://c.example" 40 in
  isCurrentlyMonetized c = true
  ∧ 0 < timeOf c
  ∧ placementRank sampleBoard (timeOf c) ≠ 2
  ∧ topOrigin (maybeUpdateTopOriginsMap c sampleBoard).1 2
    = Obj (monetizedOrigin "https://b.example" 40).
Proof.
  intros c.
  assert (isCurrentlyMonetized c = true) as Hm by reflexivity.
  assert (0 < timeOf c) as Ht by reflexivity.
  pose proof (C4_placement_rank c sampleBoard Hm Ht) as (_ & _ & _ & _ & _ & _ & Htie).
  destruct (Htie 2 (monetizedOrigin "https://b.example" 40))
    as [Hne Hkeep]; [lia|vm_compute; reflexivity|reflexivity|].
  split; [exact Hm|]. split; [exact Ht|]. split; [exact Hne|].
  apply Hkeep. apply considerAll_ordered.
Defined.

(** A contender that beats the origin at ranking 2 takes its place and
    pushes it to ranking 3; and the scenario with six named origins. *)
Lemma C5_cascade_witness :
  let c := monetizedOrigin "https://c.example" 45 in
  let b := monetizedOrigin "https://b.example" 40 in
  (isCurrentlyMonetized c = true ∧ 0 < timeOf c
   ∧ placementRank sampleBoard (timeOf c) ≤ 5
   ∧ topOrigin sampleBoard (placementRank sampleBoard (timeOf c)) = Obj b
   ∧ origin c ≠ origin b)
  ∧ topOrigin (maybeUpdateTopOriginsMap c sampleBoard).1
      (placementRank sampleBoard (timeOf c)) = Obj c
  ∧ NoDup ["o1"; "o2"; "o3"; "o4"; "o5"; "o6"]%string
  ∧ boardRanks
      (maybeUpdateTopOriginsMap (monetizedOrigin "o6" 25)
         (considerAll
            [monetizedOrigin "o1" 10; monetizedOrigin "o2" 20; monetizedOrigin "o3" 30;
             monetizedOrigin "o4" 40; monetizedOrigin "o5" 50]
            (new_AkitaOriginStats : AkitaOriginStats Z))).1
    = [Obj (monetizedOrigin "o5" 50); Obj (monetizedOrigin "o4" 40);
       Obj (monetizedOrigin "o3" 30); Obj (monetizedOrigin "o6" 25);
       Obj (monetizedOrigin "o2" 20)].
Proof.
  intros c b.
  assert (isCurrentlyMonetized c = true) as Hm by reflexivity.
  assert (0 < timeOf c) as Ht by reflexivity.
  assert (placementRank sampleBoard (timeOf c) ≤ 5) as HR by (vm_compute; discriminate).
  assert (topOrigin sampleBoard (placementRank sampleBoard (timeOf c)) = Obj b) as Hb
    by (vm_compute; reflexivity).
  assert (origin c ≠ origin b) as Hne by (vm_compute; discriminate).
  assert (NoDup ["o1"; "o2"; "o3"; "o4"; "o5"; "o6"]%string) as Hnames
    by (apply (bool_decide_unpack _); vm_compute; reflexivity).
  destruct (@C5_cascade Z) as [Hgeneral Hscenario].
  destruct (Hgeneral sampleBoard c b Hm Ht HR Hb Hne) as (Hplaced & _).
  destruct (Hscenario "o1" "o2" "o3" "o4" "o5" "o6" Hnames)%string as (_ & Hsix & _).
  split; [by repeat split|]. split; [exact Hplaced|]. split; [exact Hnames|exact Hsix].
Defined.

(** Reconstruction of [sampleState] from [sampleStored], assets stored as
    they are. *)
Lemma C7_round_trip_witness :
  (∀ a : Z, id (id a) = a)
  ∧ structurallyEquivalent id sampleStored sampleState
  ∧ totalVisits (fromObject id sampleStored) = 7
  ∧ occupant (topOrigin (fromObject id sampleStored) 2)
    = Some (monetizedOrigin "https://a.example" 10)
  ∧ totalSentAssetsMap (fromObject id sampleStored) = {[ "USD"%string := 1000 ]}.
Proof.
  assert (∀ a : Z, id (id a) = a) as Hcopy by reflexivity.
  assert (structurallyEquivalent id sampleStored sampleState) as Hequiv.
  { unfold structurallyEquivalent, sampleStored, sampleState, prop. simpl.
    split_and!; try reflexivity.
    intros ranking.
    destruct (decide (ranking = 1)) as [->|]; [reflexivity|].
    destruct (decide (ranking = 2)) as [->|]; [reflexivity|].
    destruct (decide (ranking = 3)) as [->|]; [reflexivity|].
    by rewrite !lookup_insert_ne by done. }
  pose proof (C7_round_trip id id sampleStored sampleState Hcopy Hequiv)
    as (_ & _ & Hvisits & _ & Hboard & _ & Hassets).
  split; [exact Hcopy|]. split; [exact Hequiv|].
  split; [exact Hvisits|]. split; [|exact Hassets].
  rewrite Hboard. reflexivity.
Defined.

(** Time spent at an origin that is not monetized: the overall total
    grows, the monetized total and the board do not change. *)
Lemma C6_unmonetized_witness :
  isCurrentlyMonetized sampleUnmonetized = false
  ∧ totalTimeSpent (updateTimeSpent 5 sampleUnmonetized sampleBoard).1 = 5
  ∧ totalMonetizedTimeSpent (updateTimeSpent 5 sampleUnmonetized sampleBoard).1 = 0
  ∧ topOriginsMap (updateTimeSpent 5 sampleUnmonetized sampleBoard).1
    = topOriginsMap sampleBoard.
Proof.
  assert (isCurrentlyMonetized sampleUnmonetized = false) as Hm by reflexivity.
  destruct (C6_updateTimeSpent sampleBoard 5 sampleUnmonetized)
    as (Htotal & Hmonetized & _ & _ & Hboard & _).
  split; [exact Hm|]. split; [exact Htotal|]. split; [exact Hmonetized|].
  exact (Hboard Hm).
Defined.

(** A ranking and a currency holding [null] in the stored object: the
    ranking is gone after reconstruction, the currency is reconstructed. *)
Lemma C10_null_entries_witness :
  topOriginsMap sampleStoredWithNull !! 2 = Some Null
  ∧ totalSentAssetsMap sampleStoredWithNull !! "CAD"%string = Some Null
  ∧ topOriginsMap (fromObject sampleAssetFromObject sampleStoredWithNull) !! 2 = None
  ∧ totalSentAssetsMap (fromObject sampleAssetFromObject sampleStoredWithNull)
      !! "CAD"%string = Some (sampleAssetFromObject Null).
Proof.
  assert (topOriginsMap sampleStoredWithNull !! 2 = Some Null) as Hslot by reflexivity.
  assert (totalSentAssetsMap sampleStoredWithNull !! "CAD"%string = Some Null) as Hcad
    by reflexivity.
  destruct (C10_fromObject_guards sampleAssetFromObject sampleStoredWithNull)
    as (_ & _ & _ & _ & Hassets & _ & Hnull).
  split; [exact Hslot|]. split; [exact Hcad|].
  split; [exact (proj2 (Hnull 2 Hslot))|exact (Hassets "CAD"%string Null Hcad)].
Defined.

(** Both recursions started at the first ranking of [sampleBoard]. *)
Lemma C8_first_ranking_witness :
  1 ≤ 1 ≤ 6
  ∧ 1 ≤ (contenderBattlesOriginAt sampleBoard 1 45).1 ≤ 6
  ∧ Z.of_nat (shiftSteps (reorderTopOriginsMap sampleBoard 1 Undefined).2) ≤ 6 - 1.
Proof.
  assert (1 ≤ 1 ≤ 6) as Hr by lia.
  destruct (C8_recursions_bounded sampleBoard 1 Hr) as [Hsearch Hcascade].
  destruct (Hsearch 45) as (Hrange & _).
  destruct (Hcascade Undefined) as (Hsteps & _).
  split; [exact Hr|]. split; [exact Hrange|exact Hsteps].
Defined.

(** * Further properties of the class *)

Section Sequences.
Context {WebMonetizationAsset : Type}.
Variable new_WebMonetizationAsset : JsValue → WebMonetizationAsset.
Variable addAmount : JsValue → JsValue → WebMonetizationAsset → WebMonetizationAsset.
Variable StringToNumber : string → Number.
Variable NumberToString : Number → string.
Implicit Types (this : AkitaOriginStats WebMonetizationAsset).

Local Abbreviation handle' :=
  (handle new_WebMonetizationAsset addAmount StringToNumber NumberToString).
Local Abbreviation handleAll' :=
  (handleAll new_WebMonetizationAsset addAmount StringToNumber NumberToString).

(** ** What one event does to the totals and to the board *)

Lemma updateAssetsMapWithAsset_fields (paymentData : PaymentData) this :
  let this' :=
    objectAfter
      (updateAssetsMapWithAsset new_WebMonetizationAsset addAmount StringToNumber
         NumberToString paymentData this) in
  totalTimeSpent this' = totalTimeSpent this
  ∧ totalMonetizedTimeSpent this' = totalMonetizedTimeSpent this
  ∧ totalVisits this' = totalVisits this
  ∧ totalMonetizedVisits this' = totalMonetizedVisits this
  ∧ topOriginsMap this' = topOriginsMap this
  ∧ needsSomeLoveMap this' = needsSomeLoveMap this.
Proof.
  rewrite updateAssetsMapWithAsset_eq. simpl.
  destruct (_ && _); [|done].
  destruct (totalSentAssetsMap this !! _); [done|].
  by destruct (bool_decide _).
Qed.

Lemma updateTimeSpent_fields (recentTimeSpent : Z) (originData : AkitaOriginData) this :
  let this' := (updateTimeSpent recentTimeSpent originData this).1 in
  totalTimeSpent this' = totalTimeSpent this + recentTimeSpent
  ∧ totalMonetizedTimeSpent this' =
      totalMonetizedTimeSpent this
      + (if isCurrentlyMonetized originData then recentTimeSpent else 0)
  ∧ totalVisits this' = totalVisits this
  ∧ totalMonetizedVisits this' = totalMonetizedVisits this
  ∧ topOriginsMap this' = topOriginsMap (maybeUpdateTopOriginsMap originData this).1
  ∧ needsSomeLoveMap this' = needsSomeLoveMap this
  ∧ totalSentAssetsMap this' = totalSentAssetsMap this.
Proof.
  pose proof (maybeUpdateTopOriginsMap_frame originData this) as Hframe.
  unfold updateTimeSpent, bind.
  destruct (isCurrentlyMonetized originData); simpl; rewrite Hframe; simpl;
    split_and!; try done; lia.
Qed.

Lemma handle_totals (ev : Event) this :
  totalTimeSpent (handle' ev this) = totalTimeSpent this + recentTimeOf ev
  ∧ totalMonetizedTimeSpent (handle' ev this)
    = totalMonetizedTimeSpent this + monetizedTimeOf ev
  ∧ totalVisits (handle' ev this) = totalVisits this + visitOf ev
  ∧ totalMonetizedVisits (handle' ev this)
    = totalMonetizedVisits this + monetizedVisitOf ev.
Proof.
  destruct ev as [recent d|b|pd|m]; unfold handle.
  - destruct (updateTimeSpent_fields recent d this) as (-> & -> & -> & -> & _).
    simpl. split_and!; lia.
  - destruct b; simpl; split_and!; lia.
  - destruct (updateAssetsMapWithAsset_fields pd this) as (-> & -> & -> & -> & _).
    simpl. split_and!; lia.
  - simpl. split_and!; lia.
Qed.

Lemma handleAll_totals (evs : list Event) this :
  totalTimeSpent (handleAll' evs this) = totalTimeSpent this + sumOver recentTimeOf evs
  ∧ totalMonetizedTimeSpent (handleAll' evs this)
    = totalMonetizedTimeSpent this + sumOver monetizedTimeOf evs
  ∧ totalVisits (handleAll' evs this) = totalVisits this + sumOver visitOf evs
  ∧ totalMonetizedVisits (handleAll' evs this)
    = totalMonetizedVisits this + sumOver monetizedVisitOf evs.
Proof.
  revert this. induction evs as [|ev evs IH]; intros this; simpl.
  - split_and!; lia.
  - destruct (IH (handle' ev this)) as (-> & -> & -> & ->).
    destruct (handle_totals ev this) as (-> & -> & -> & ->).
    split_and!; lia.
Qed.

Lemma handle_board (ev : Event) this :
  ranksFilledFromTop this → rankOrdered this →
  ranksFilledFromTop (handle' ev this) ∧ rankOrdered (handle' ev this).
Proof.
  intros Hfill Hord.
  assert (∀ this', topOriginsMap this' = topOriginsMap this →
            ranksFilledFromTop this' ∧ rankOrdered this') as Hsame.
  { intros this' Heq. unfold ranksFilledFromTop, rankOrdered, topOrigin in *.
    by rewrite Heq. }
  destruct ev as [recent d|b|pd|m]; unfold handle.
  - destruct (maybeUpdateTopOriginsMap_ordered d this Hfill Hord) as [Hfill' Hord'].
    destruct (updateTimeSpent_fields recent d this) as (_ & _ & _ & _ & Heq & _).
    unfold ranksFilledFromTop, rankOrdered, topOrigin in *. by rewrite Heq.
  - apply Hsame. by destruct b.
  - apply Hsame. by destruct (updateAssetsMapWithAsset_fields pd this) as (_ & _ & _ & _ & -> & _).
  - by apply Hsame.
Qed.

Lemma handleAll_board (evs : list Event) this :
  ranksFilledFromTop this → rankOrdered this →
  ranksFilledFromTop (handleAll' evs this) ∧ rankOrdered (handleAll' evs this).
Proof.
  revert this. induction evs as [|ev evs IH]; intros this Hfill Hord; [done|].
  simpl. destruct (handle_board ev this Hfill Hord). by apply IH.
Qed.

Lemma new_AkitaOriginStats_board :
  ranksFilledFromTop (new_AkitaOriginStats : AkitaOriginStats WebMonetizationAsset)
  ∧ rankOrdered (new_AkitaOriginStats : AkitaOriginStats WebMonetizationAsset).
Proof.
  split; [split|]; intros *; rewrite ?new_AkitaOriginStats_topOrigin; done.
Qed.

(** X1.  Whatever calls are made on a new object, in whatever order, the
    time spent never increases from one ranking of the top-origins map to a
    later one. *)
Theorem X1_board_ordered_after_any_calls (evs : list Event) :
  rankOrdered (handleAll' evs new_AkitaOriginStats).
Proof.
  destruct new_AkitaOriginStats_board as [Hfill Hord].
  by destruct (handleAll_board evs _ Hfill Hord).
Qed.

(** X2.  Whatever calls are made on a new object, the rankings that hold an
    origin are 1, 2, ..., n for some n up to 5: nothing is stored outside
    1..5 and no ranking is skipped. *)
Theorem X2_board_filled_from_top (evs : list Event) :
  let this := handleAll' evs new_AkitaOriginStats in
  (∀ k d, topOrigin this k = Obj d → 1 ≤ k ≤ 5)
  ∧ (∀ i j d, 1 ≤ i < j → topOrigin this j = Obj d → ∃ d', topOrigin this i = Obj d').
Proof.
  destruct new_AkitaOriginStats_board as [Hfill Hord].
  by destruct (handleAll_board evs _ Hfill Hord) as [Hfill' _].
Qed.

(** X3.  After any sequence of calls on a new object each total is the sum
    of what the calls contributed: the time total adds every recent time,
    the monetized time total those of origins monetized at the time of the
    call, the visit total counts the visits and the monetized visit total
    those flagged monetized. *)
Theorem X3_totals_are_sums (evs : list Event) :
  let this := handleAll' evs new_AkitaOriginStats in
  totalTimeSpent this = sumOver recentTimeOf evs
  ∧ totalMonetizedTimeSpent this = sumOver monetizedTimeOf evs
  ∧ totalVisits this = sumOver visitOf evs
  ∧ totalMonetizedVisits this = sumOver monetizedVisitOf evs.
Proof.
  intros this. unfold this.
  by destruct (handleAll_totals evs new_AkitaOriginStats) as (-> & -> & -> & ->).
Qed.

Lemma sumOver_le (f g : Event → Z) (evs : list Event) :
  Forall (λ ev, f ev ≤ g ev) evs → sumOver f evs ≤ sumOver g evs.
Proof. induction 1; simpl; lia. Qed.

(** X4.  As long as no call reports a negative recent time, the monetized
    totals never exceed the overall ones: after any sequence of calls on a
    new object, 0 ≤ monetized visits ≤ visits and 0 ≤ monetized time ≤
    time. *)
Theorem X4_monetized_totals_bounded (evs : list Event) :
  Forall (λ ev, 0 ≤ recentTimeOf ev) evs →
  let this := handleAll' evs new_AkitaOriginStats in
  0 ≤ totalMonetizedVisits this ≤ totalVisits this
  ∧ 0 ≤ totalMonetizedTimeSpent this ≤ totalTimeSpent this.
Proof.
  intros Hnonneg this. unfold this.
  destruct (handleAll_totals evs new_AkitaOriginStats) as (-> & -> & -> & ->). simpl.
  pose proof (sumOver_le (λ _, 0) monetizedVisitOf evs) as Hv0.
  pose proof (sumOver_le monetizedVisitOf visitOf evs) as Hv.
  pose proof (sumOver_le (λ _, 0) monetizedTimeOf evs) as Ht0.
  pose proof (sumOver_le monetizedTimeOf recentTimeOf evs) as Ht.
  assert (sumOver (λ _, 0) evs = 0) as Hzero.
  { clear. induction evs; simpl; lia. }
  rewrite Hzero in Hv0, Ht0.
  split; split.
  - apply Hv0. apply Forall_forall. by intros [? ?|[]|?|?] _.
  - apply Hv. apply Forall_forall. by intros [? ?|[]|?|?] _.
  - apply Ht0. eapply Forall_impl; [exact Hnonneg|].
    intros [r d|?|?|?] Hr; simpl in *; try done. by destruct (isCurrentlyMonetized d).
  - apply Ht. eapply Forall_impl; [exact Hnonneg|].
    intros [r d|?|?|?] Hr; simpl in *; try done. by destruct (isCurrentlyMonetized d).
Qed.
End Sequences.

Section Leaderboard.
Context {WebMonetizationAsset : Type}.
Implicit Types (this : AkitaOriginStats WebMonetizationAsset).
Implicit Types (c d : AkitaOriginData) (k : Z).

(** ** One call, by cases *)

(** Either the call leaves the object as it is (the contender does not
    qualify, or no ranking is left for it), or the contender lands at its
    placement rank and the other rankings are read off the old board. *)
Lemma maybeUpdateTopOriginsMap_cases c this :
  let R := placementRank this (timeOf c) in
  let this' := (maybeUpdateTopOriginsMap c this).1 in
  (this' = this ∧ (qualifies c = false ∨ R > 5))
  ∨ (qualifies c = true ∧ 1 ≤ R ≤ 5
     ∧ (truthy (topOrigin this R) = false
        ∨ ∃ h, topOrigin this R = Obj h ∧ timeOf h < timeOf c)
     ∧ (∀ j, 1 ≤ j < R → ∃ h, topOrigin this j = Obj h ∧ timeOf c ≤ timeOf h)
     ∧ ∀ k, topOrigin this' k =
          if bool_decide (k = R) then Obj c
          else if displacesAt this c R && bool_decide (R < k ≤ 5)
          then topOrigin this (k - 1)
          else topOrigin this k).
Proof.
  intros R this'. unfold qualifies.
  destruct (isCurrentlyMonetized c) eqn:Hm; cycle 1.
  { left. split; [|by left]. unfold this'.
    by rewrite maybeUpdateTopOriginsMap_skip by (by left). }
  case_bool_decide as Ht; cycle 1.
  { left. split; [|by left]. unfold this'.
    by rewrite maybeUpdateTopOriginsMap_skip by (right; lia). }
  pose proof (placementRank_spec this (timeOf c)) as (HR & Hstop & Hbefore).
  fold R in HR, Hstop, Hbefore.
  unfold ORIGIN_RANKING_FIRST, ORIGIN_RANKING_LAST in HR, Hstop, Hbefore.
  destruct (decide (R ≤ 5)) as [HRle|HRgt]; cycle 1.
  { left. split; [|right; lia]. unfold this'.
    rewrite maybeUpdateTopOriginsMap_result by done. fold R. simpl.
    unfold ORIGIN_RANKING_LAST. by rewrite bool_decide_eq_true_2 by lia. }
  right. split; [done|]. split; [lia|]. split; [by apply Hstop|]. split.
  - intros j Hj. by destruct (Hbefore j Hj).
  - intros k. unfold this'. rewrite maybeUpdateTopOriginsMap_topOrigin by done.
    fold R. unfold ORIGIN_RANKING_LAST.
    by rewrite (bool_decide_eq_false_2 (R > 5)) by lia.
Qed.

(** ** What a call keeps *)

Lemma maybeUpdateTopOriginsMap_keeps_occupied c this k d :
  ranksFilledFromTop this →
  topOrigin this k = Obj d →
  ∃ d', topOrigin (maybeUpdateTopOriginsMap c this).1 k = Obj d'.
Proof.
  intros [Hwithin Hprefix] Hk.
  unfold ORIGIN_RANKING_FIRST, ORIGIN_RANKING_LAST in *.
  destruct (maybeUpdateTopOriginsMap_cases c this)
    as [[-> _]|(_ & HR & _ & _ & Hlook)]; [by eexists|].
  rewrite Hlook. case_bool_decide; [by eexists|].
  destruct (displacesAt this c _); simpl; [|by eexists].
  case_bool_decide; [|by eexists].
  apply (Hprefix (k - 1) k d); [lia|done].
Qed.

Lemma maybeUpdateTopOriginsMap_origin_from c this k d :
  topOrigin (maybeUpdateTopOriginsMap c this).1 k = Obj d →
  d = c ∨ ∃ k', topOrigin this k' = Obj d.
Proof.
  destruct (maybeUpdateTopOriginsMap_cases c this)
    as [[-> _]|(_ & HR & _ & _ & Hlook)]; [by right; eexists|].
  rewrite Hlook. case_bool_decide; [intros [= <-]; by left|].
  destruct (_ && _); intros Hk; right; by eexists.
Qed.

Lemma maybeUpdateTopOriginsMap_unique c this :
  originsUnique this →
  (∀ k d, topOrigin this k = Obj d → origin d ≠ origin c) →
  originsUnique (maybeUpdateTopOriginsMap c this).1.
Proof.
  intros Huniq Hfresh.
  destruct (maybeUpdateTopOriginsMap_cases c this)
    as [[-> _]|(_ & HR & _ & _ & Hlook)]; [done|].
  set (R := placementRank this (timeOf c)) in *.
  assert (∀ k d, topOrigin (maybeUpdateTopOriginsMap c this).1 k = Obj d →
            (k = R ∧ d = c)
            ∨ (displacesAt this c R = true ∧ R < k ≤ 5 ∧ topOrigin this (k - 1) = Obj d)
            ∨ (k ≠ R ∧ (displacesAt this c R = false ∨ k < R ∨ k > 5)
               ∧ topOrigin this k = Obj d)) as Hview.
  { intros k d. rewrite Hlook. clear Hlook.
    case_bool_decide as Hk; [intros [= <-]; by left|].
    destruct (displacesAt this c R); simpl.
    - case_bool_decide as Hs; intros Hd; [by right; left|].
      right; right. split; [done|]. split; [right; lia|done].
    - intros Hd. right; right. split; [done|]. split; [by left|done]. }
  clear Hlook.
  intros i j d d' Hi Hj Ho.
  apply Hview in Hi as [[-> ->]|[(Hdi & HiR & Hi)|(HiR & Hcasei & Hi)]];
  apply Hview in Hj as [[-> ->]|[(Hdj & HjR & Hj)|(HjR & Hcasej & Hj)]];
    try done.
  - by destruct (Hfresh _ _ Hj).
  - by destruct (Hfresh _ _ Hj).
  - by destruct (Hfresh _ _ Hi).
  - pose proof (Huniq _ _ _ _ Hi Hj Ho). lia.
  - pose proof (Huniq _ _ _ _ Hi Hj Ho). rewrite Hdi in Hcasej.
    destruct Hcasej as [?|?]; [done|lia].
  - by destruct (Hfresh _ _ Hi).
  - pose proof (Huniq _ _ _ _ Hi Hj Ho). rewrite Hdj in Hcasei.
    destruct Hcasei as [?|?]; [done|lia].
  - by apply (Huniq _ _ _ _ Hi Hj Ho).
Qed.

Lemma maybeUpdateTopOriginsMap_keeps_fullAbove c this t1 :
  fullAbove this t1 → fullAbove (maybeUpdateTopOriginsMap c this).1 t1.
Proof.
  intros Hfull.
  destruct (maybeUpdateTopOriginsMap_cases c this)
    as [[-> _]|(_ & HR & Hstop & _ & Hlook)]; [done|].
  set (R := placementRank this (timeOf c)) in *.
  intros k Hk. rewrite Hlook. clear Hlook.
  case_bool_decide as HkR.
  - exists c. split; [done|].
    destruct (Hfull R ltac:(lia)) as (h & Hh & Hle).
    destruct Hstop as [Hs|(h' & Hh' & Hlt)]; [by rewrite Hh in Hs|].
    rewrite Hh in Hh'. injection Hh' as <-. lia.
  - destruct (displacesAt this c R); simpl; [|by apply Hfull].
    case_bool_decide; [apply Hfull; lia|by apply Hfull].
Qed.

(** An origin that is on the board stays on it, one ranking lower at
    most, unless it was last and all five rankings now hold at least its
    time. *)
Lemma maybeUpdateTopOriginsMap_keeps_or_beats c this c1 :
  ranksFilledFromTop this → rankOrdered this →
  (∀ k d, topOrigin this k = Obj d → origin d ≠ origin c) →
  onBoard this c1 →
  onBoard (maybeUpdateTopOriginsMap c this).1 c1
  ∨ fullAbove (maybeUpdateTopOriginsMap c this).1 (timeOf c1).
Proof.
  intros [Hwithin Hprefix] Hord Hfresh [k Hk].
  unfold ORIGIN_RANKING_FIRST, ORIGIN_RANKING_LAST in *.
  pose proof (Hwithin _ _ Hk) as Hkrange.
  destruct (decide (k = 5 ∧ placementRank this (timeOf c) ≤ 5)) as [[-> HR5]|Hnot].
  { (* last on a full board: whatever happens, all five hold at least its time *)
    right. apply maybeUpdateTopOriginsMap_keeps_fullAbove.
    intros k' Hk'. destruct (decide (k' = 5)) as [->|Hne].
    - exists c1. split; [done|lia].
    - destruct (Hprefix k' 5 c1 ltac:(lia) Hk) as (d' & Hd').
      exists d'. split; [done|]. apply (Hord k' 5); [lia|done..]. }
  left.
  destruct (maybeUpdateTopOriginsMap_cases c this)
    as [[-> _]|(_ & HR & Hstop & _ & Hlook)]; [by exists k|].
  set (R := placementRank this (timeOf c)) in *.
  destruct (decide (k < R)) as [Hlt|Hge].
  - exists k. rewrite Hlook.
    rewrite bool_decide_eq_false_2 by lia.
    rewrite (bool_decide_eq_false_2 (R < k ≤ 5)) by lia.
    by rewrite andb_false_r.
  - assert (displacesAt this c R = true) as Hd.
    { apply displacesAt_true.
      destruct (decide (k = R)) as [->|Hne].
      - exists c1. split; [done|]. intros Heq. by destruct (Hfresh _ _ Hk).
      - destruct (Hprefix R k c1 ltac:(lia) Hk) as (h & Hh).
        exists h. split; [done|]. intros Heq. by destruct (Hfresh _ _ Hh). }
    exists (k + 1). rewrite Hlook, Hd.
    rewrite bool_decide_eq_false_2 by lia.
    rewrite bool_decide_eq_true_2 by lia. simpl.
    by replace (k + 1 - 1) with k by lia.
Qed.

Lemma maybeUpdateTopOriginsMap_places_or_beats c this :
  qualifies c = true →
  onBoard (maybeUpdateTopOriginsMap c this).1 c
  ∨ fullAbove (maybeUpdateTopOriginsMap c this).1 (timeOf c).
Proof.
  intros Hq.
  destruct (maybeUpdateTopOriginsMap_cases c this)
    as [[-> [Hnq|HR]]|(_ & HR & _ & _ & Hlook)].
  - by rewrite Hq in Hnq.
  - right. intros k Hk.
    pose proof (placementRank_spec this (timeOf c)) as (_ & _ & Hbefore).
    unfold ORIGIN_RANKING_FIRST in Hbefore.
    by destruct (Hbefore k ltac:(lia)).
  - left. exists (placementRank this (timeOf c)).
    rewrite Hlook. by rewrite bool_decide_eq_true_2.
Qed.

(** The number of rankings in use grows by one with each qualifying
    contender whose origin is new to the board, up to five. *)
Lemma maybeUpdateTopOriginsMap_size c this (n : Z) :
  0 ≤ n ≤ 5 →
  (∀ k d, topOrigin this k = Obj d → origin d ≠ origin c) →
  (∀ k, truthy (topOrigin this k) = true ↔ 1 ≤ k ≤ n) →
  ∀ k, truthy (topOrigin (maybeUpdateTopOriginsMap c this).1 k) = true
       ↔ 1 ≤ k ≤ (if qualifies c then Z.min 5 (n + 1) else n).
Proof.
  intros Hn Hfresh Hocc.
  assert (∀ k, truthy (topOrigin this k) = false ↔ ¬ (1 ≤ k ≤ n)) as Hfree.
  { intros k. rewrite <- Hocc. by destruct (truthy _). }
  destruct (maybeUpdateTopOriginsMap_cases c this)
    as [[-> [->|HR]]|(-> & HR & Hstop & Hbefore & Hlook)]; [done|..].
  - pose proof (placementRank_spec this (timeOf c)) as (_ & _ & Hbefore).
    unfold ORIGIN_RANKING_FIRST in Hbefore.
    destruct (Hbefore 5 ltac:(lia)) as (_ & h & Hh & _).
    assert (1 ≤ 5 ≤ n) by (apply Hocc; by rewrite Hh).
    intros k. rewrite Hocc. destruct (qualifies c); lia.
  - set (R := placementRank this (timeOf c)) in *.
    assert (R ≤ n + 1) as HRn.
    { destruct (decide (R = 1)) as [->|]; [lia|].
      destruct (Hbefore (R - 1) ltac:(lia)) as (h & Hh & _).
      assert (1 ≤ R - 1 ≤ n) by (apply Hocc; by rewrite Hh). lia. }
    assert (displacesAt this c R = bool_decide (R ≤ n)) as Hd.
    { case_bool_decide as Hle.
      - apply displacesAt_true.
        assert (truthy (topOrigin this R) = true) as Ht by (apply Hocc; lia).
        destruct (topOrigin this R) as [| |h] eqn:Hh; try done.
        exists h. split; [done|]. intros Heq. by destruct (Hfresh _ _ Hh).
      - unfold displacesAt.
        assert (truthy (topOrigin this R) = false) as Ht by (apply Hfree; lia).
        by destruct (topOrigin this R). }
    intros k. rewrite Hlook, Hd. clear Hlook.
    repeat case_bool_decide; simpl; rewrite ?Hocc; lia.
Qed.

(** ** Sequences of contenders with distinct origins *)

Lemma considerAll_snoc (contenders : list AkitaOriginData) c this :
  considerAll (contenders ++ [c]) this
  = (maybeUpdateTopOriginsMap c (considerAll contenders this)).1.
Proof. unfold considerAll. by rewrite foldl_app. Qed.

Lemma qualifyingCount_snoc (contenders : list AkitaOriginData) c :
  qualifyingCount (contenders ++ [c])
  = qualifyingCount contenders + (if qualifies c then 1 else 0).
Proof.
  unfold qualifyingCount. rewrite List.filter_app, length_app. simpl.
  destruct (qualifies c); simpl; lia.
Qed.

Lemma considerAll_distinct (contenders : list AkitaOriginData) :
  NoDup (origin <$> contenders) →
  let this : AkitaOriginStats WebMonetizationAsset :=
    considerAll contenders new_AkitaOriginStats in
  ranksFilledFromTop this
  ∧ rankOrdered this
  ∧ originsUnique this
  ∧ (∀ k d, topOrigin this k = Obj d → d ∈ contenders)
  ∧ (∀ c, c ∈ contenders → qualifies c = true →
       onBoard this c ∨ fullAbove this (timeOf c))
  ∧ (∀ k, truthy (topOrigin this k) = true
          ↔ 1 ≤ k ≤ Z.min 5 (qualifyingCount contenders)).
Proof.
  induction contenders as [|c contenders IH] using rev_ind; intros Hnodup this.
  - unfold this. simpl. split_and!.
    + split; intros *; by rewrite ?new_AkitaOriginStats_topOrigin.
    + intros i j d d' _. by rewrite new_AkitaOriginStats_topOrigin.
    + intros i j d d'. by rewrite new_AkitaOriginStats_topOrigin.
    + intros k d. by rewrite new_AkitaOriginStats_topOrigin.
    + intros c Hc. by apply elem_of_nil in Hc.
    + intros k. rewrite new_AkitaOriginStats_topOrigin.
      unfold qualifyingCount. simpl. split; [done|lia].
  - rewrite fmap_app in Hnodup. apply NoDup_app in Hnodup as (Hnodup & Hnotin & _).
    destruct (IH Hnodup) as (Hfill & Hord & Huniq & Hfrom & Hbeats & Hsize).
    clear IH. unfold this. rewrite considerAll_snoc.
    set (old := considerAll contenders new_AkitaOriginStats) in *.
    assert (∀ k d, topOrigin old k = Obj d → origin d ≠ origin c) as Hfresh.
    { intros k d Hk Heq. apply (Hnotin (origin d)).
      - apply list_elem_of_fmap. exists d. split; [done|]. by eapply Hfrom.
      - rewrite Heq. simpl. apply list_elem_of_singleton. done. }
    destruct (maybeUpdateTopOriginsMap_ordered c old Hfill Hord) as [Hfill' Hord'].
    split_and!; try done.
    + by apply maybeUpdateTopOriginsMap_unique.
    + intros k d [->|[k' Hk']]%maybeUpdateTopOriginsMap_origin_from.
      * apply elem_of_app. right. by apply list_elem_of_singleton.
      * apply elem_of_app. left. by eapply Hfrom.
    + intros c1 [Hc1|Hc1%list_elem_of_singleton]%elem_of_app Hq.
      * destruct (Hbeats c1 Hc1 Hq) as [Hon|Hfull].
        -- by apply maybeUpdateTopOriginsMap_keeps_or_beats.
        -- right. by apply maybeUpdateTopOriginsMap_keeps_fullAbove.
      * subst c1. by apply maybeUpdateTopOriginsMap_places_or_beats.
    + intros k. rewrite qualifyingCount_snoc.
      assert (0 ≤ qualifyingCount contenders) as Hcount by (unfold qualifyingCount; lia).
      rewrite (maybeUpdateTopOriginsMap_size c old (Z.min 5 (qualifyingCount contenders)));
        [|lia|done|done].
      destruct (qualifies c); lia.
Qed.

(** ** The leaderboard *)

(** X5.  The board never shrinks: a ranking that holds an origin after
    some calls on a new object still holds one (not necessarily the same)
    after any further calls. *)
Theorem X5_board_never_shrinks (contenders more : list AkitaOriginData) k d :
  topOrigin (considerAll contenders new_AkitaOriginStats
               : AkitaOriginStats WebMonetizationAsset) k = Obj d →
  ∃ d', topOrigin (considerAll (contenders ++ more) new_AkitaOriginStats
                     : AkitaOriginStats WebMonetizationAsset) k = Obj d'.
Proof.
  intros Hk. induction more as [|c more IH] using rev_ind.
  - rewrite app_nil_r. by exists d.
  - destruct IH as (d' & Hd'). rewrite app_assoc, considerAll_snoc.
    eapply maybeUpdateTopOriginsMap_keeps_occupied; [|exact Hd'].
    apply considerAll_ordered_from.
    + split; intros *; by rewrite ?new_AkitaOriginStats_topOrigin.
    + intros i j d1 d2 _. by rewrite new_AkitaOriginStats_topOrigin.
Qed.

(** X6.  When every contender submitted to a new object has its own origin
    identifier, no origin identifier ends up at two rankings, and every
    record on the board is one of the contenders submitted. *)
Theorem X6_distinct_origins_stay_unique (contenders : list AkitaOriginData) :
  NoDup (origin <$> contenders) →
  let this : AkitaOriginStats WebMonetizationAsset :=
    considerAll contenders new_AkitaOriginStats in
  originsUnique this ∧ ∀ k d, topOrigin this k = Obj d → d ∈ contenders.
Proof.
  intros Hnodup.
  by destruct (considerAll_distinct contenders Hnodup) as (_ & _ & ? & ? & _).
Qed.

(** X7.  The board holds the best five.  When the contenders submitted to a
    new object have distinct origin identifiers, a monetized contender with
    positive time is either on the board, or all five rankings hold origins
    with at least its time: a contender left out never has more time than
    one that is listed. *)
Theorem X7_left_out_never_beats_listed (contenders : list AkitaOriginData) c :
  NoDup (origin <$> contenders) →
  c ∈ contenders → isCurrentlyMonetized c = true → 0 < timeOf c →
  let this : AkitaOriginStats WebMonetizationAsset :=
    considerAll contenders new_AkitaOriginStats in
  (∃ k, 1 ≤ k ≤ 5 ∧ topOrigin this k = Obj c)
  ∨ (∀ k, 1 ≤ k ≤ 5 → ∃ d, topOrigin this k = Obj d ∧ timeOf c ≤ timeOf d).
Proof.
  intros Hnodup Hc Hm Ht this.
  destruct (considerAll_distinct contenders Hnodup)
    as ([Hwithin _] & _ & _ & _ & Hbeats & _).
  fold this in Hwithin, Hbeats.
  assert (qualifies c = true) as Hq.
  { unfold qualifies. rewrite Hm. by rewrite bool_decide_eq_true_2. }
  destruct (Hbeats c Hc Hq) as [[k Hk]|Hfull]; [left|by right].
  exists k. split; [|done]. by apply (Hwithin k c).
Qed.

(** X8.  When the contenders submitted to a new object have distinct origin
    identifiers, the rankings in use are exactly 1 .. min(5, q), where q is
    the number of contenders that are monetized with positive time: each of
    them takes a place while there is room. *)
Theorem X8_board_size (contenders : list AkitaOriginData) :
  NoDup (origin <$> contenders) →
  let this : AkitaOriginStats WebMonetizationAsset :=
    considerAll contenders new_AkitaOriginStats in
  ∀ k, (∃ d, topOrigin this k = Obj d) ↔ 1 ≤ k ≤ Z.min 5 (qualifyingCount contenders).
Proof.
  intros Hnodup this k.
  destruct (considerAll_distinct contenders Hnodup) as (_ & _ & _ & _ & _ & Hsize).
  fold this in Hsize. rewrite <- Hsize.
  destruct (topOrigin this k) as [| |d]; simpl; split; try done.
  - by intros [? ?].
  - by intros [? ?].
  - by exists d.
Qed.

(** ** Where a contender lands *)

Lemma placementRank_is this (t : Z) k :
  1 ≤ k →
  contenderStopsAt this k t = true →
  (∀ j, 1 ≤ j < k → contenderStopsAt this j t = false) →
  placementRank this t = k.
Proof.
  intros Hk Hstop Hbefore.
  destruct (contenderBattlesOriginAt_spec this t ORIGIN_RANKING_FIRST)
    as (Hrange & Hstop' & Hbefore' & _).
  fold (placementRank this t) in Hrange, Hstop', Hbefore'.
  unfold ORIGIN_RANKING_FIRST in *.
  destruct (Z.lt_trichotomy (placementRank this t) k) as [Hlt|[Heq|Hgt]]; [|done|].
  - rewrite Hbefore in Hstop' by lia. done.
  - rewrite Hbefore' in Hstop by lia. done.
Qed.

(** X28.  An origin whose time has grown, but not past the origin ranked
    above it, is updated in place.  On a board filled from the top, take a
    monetized contender with the origin identifier of the holder of ranking
    [k], more time than that holder and no more time than the holders of
    the rankings before [k].  Its placement rank is [k]; after the call
    ranking [k] holds the contender, every other ranking holds what it held
    (the map differs at key [k] only), and the totals and the two other
    maps are as they were. *)
Theorem X28_update_in_place c this k (holder : AkitaOriginData) :
  ranksFilledFromTop this →
  topOrigin this k = Obj holder →
  origin c = origin holder →
  isCurrentlyMonetized c = true → 0 < timeOf c →
  timeOf holder < timeOf c →
  (∀ j d, 1 ≤ j < k → topOrigin this j = Obj d → timeOf c ≤ timeOf d) →
  let this' := (maybeUpdateTopOriginsMap c this).1 in
  placementRank this (timeOf c) = k
  ∧ topOrigin this' k = Obj c
  ∧ (∀ j, j ≠ k → topOrigin this' j = topOrigin this j)
  ∧ topOriginsMap this' = <[k := Obj c]> (topOriginsMap this)
  ∧ totalTimeSpent this' = totalTimeSpent this
  ∧ totalMonetizedTimeSpent this' = totalMonetizedTimeSpent this
  ∧ totalVisits this' = totalVisits this
  ∧ totalMonetizedVisits this' = totalMonetizedVisits this
  ∧ needsSomeLoveMap this' = needsSomeLoveMap this
  ∧ totalSentAssetsMap this' = totalSentAssetsMap this.
Proof.
  intros [Hwithin Hprefix] Hk Horigin Hm Ht Hlt Habove this'.
  unfold ORIGIN_RANKING_FIRST, ORIGIN_RANKING_LAST in *.
  pose proof (Hwithin _ _ Hk) as Hkrange.
  assert (placementRank this (timeOf c) = k) as HR.
  { apply placementRank_is; [lia| |].
    - apply contenderStopsAt_true. right; right. by exists holder.
    - intros j Hj. apply contenderStopsAt_false.
      unfold ORIGIN_RANKING_LAST. split; [lia|].
      destruct (Hprefix j k holder ltac:(lia) Hk) as (d & Hd).
      exists d. split; [done|]. by apply (Habove j). }
  assert (this' = topOrigin_assign k (Obj c) this) as ->.
  { unfold this'. rewrite maybeUpdateTopOriginsMap_result by done. rewrite HR. simpl.
    unfold ORIGIN_RANKING_LAST. rewrite bool_decide_eq_false_2 by lia.
    rewrite Hk. by rewrite bool_decide_eq_true_2. }
  split; [done|]. split; [apply topOrigin_assign_eq|].
  split; [intros j Hj; by apply topOrigin_assign_ne|].
  by split_and!.
Qed.

(** X29.  A monetized contender with more time than every origin on the
    board, and an origin identifier that is not on it, goes to first place;
    on a board filled from the top every record listed moves down one
    ranking, and the record at ranking 5 is dropped. *)
Theorem X29_new_leader c this :
  ranksFilledFromTop this →
  isCurrentlyMonetized c = true → 0 < timeOf c →
  (∀ k d, topOrigin this k = Obj d → timeOf d < timeOf c ∧ origin d ≠ origin c) →
  let this' := (maybeUpdateTopOriginsMap c this).1 in
  placementRank this (timeOf c) = 1
  ∧ topOrigin this' 1 = Obj c
  ∧ (∀ k, 1 ≤ k < 5 → occupant (topOrigin this' (k + 1)) = occupant (topOrigin this k))
  ∧ (∀ k, k < 1 ∨ 5 < k → topOrigin this' k = topOrigin this k).
Proof.
  intros [Hwithin Hprefix] Hm Ht Hbeats this'.
  unfold ORIGIN_RANKING_FIRST, ORIGIN_RANKING_LAST in *.
  assert (placementRank this (timeOf c) = 1) as HR.
  { apply placementRank_is; [lia| |intros j Hj; lia].
    apply contenderStopsAt_true.
    destruct (topOrigin this 1) as [| |d] eqn:H1; [by right; left..|].
    right; right. exists d. split; [done|]. by apply (Hbeats 1). }
  assert (∀ k, topOrigin this' k =
            if bool_decide (k = 1) then Obj c
            else if displacesAt this c 1 && bool_decide (1 < k ≤ 5)
            then topOrigin this (k - 1)
            else topOrigin this k) as Hlook.
  { intros k. unfold this'. rewrite maybeUpdateTopOriginsMap_topOrigin by done.
    rewrite HR. unfold ORIGIN_RANKING_LAST.
    by rewrite (bool_decide_eq_false_2 (1 > 5)) by lia. }
  split; [done|]. split_and!.
  - by rewrite Hlook.
  - intros k Hk. rewrite Hlook. rewrite bool_decide_eq_false_2 by lia.
    rewrite (bool_decide_eq_true_2 (1 < k + 1 ≤ 5)) by lia.
    replace (k + 1 - 1) with k by lia.
    destruct (displacesAt this c 1) eqn:Hd; simpl; [done|].
    (* first place was free: the board was empty *)
    assert (∀ j, 1 ≤ j → occupant (topOrigin this j) = None) as Hempty.
    { intros j Hj. destruct (topOrigin this j) as [| |d] eqn:Hjd; try done.
      assert (∃ d1, topOrigin this 1 = Obj d1) as (d1 & Hd1).
      { destruct (decide (j = 1)) as [->|]; [by exists d|].
        apply (Hprefix 1 j d); [lia|done]. }
      assert (displacesAt this c 1 = true) as Hd'.
      { apply displacesAt_true. exists d1. split; [done|].
        intros Heq. by destruct (Hbeats 1 d1 Hd1) as [_ []]. }
      by rewrite Hd in Hd'. }
    by rewrite !Hempty by lia.
  - intros k Hk. rewrite Hlook. rewrite bool_decide_eq_false_2 by lia.
    rewrite (bool_decide_eq_false_2 (1 < k ≤ 5)) by lia. by rewrite andb_false_r.
Qed.
End Leaderboard.

Section Independence.
Context {A B : Type}.
Implicit Types (sa : AkitaOriginStats A) (sb : AkitaOriginStats B).

(** ** The board reads nothing but the origins at the rankings *)

Lemma contenderStopsAt_occupant sa sb (ranking t : Z) :
  occupant (topOrigin sa ranking) = occupant (topOrigin sb ranking) →
  contenderStopsAt sa ranking t = contenderStopsAt sb ranking t.
Proof.
  unfold contenderStopsAt.
  destruct (topOrigin sa ranking), (topOrigin sb ranking); simpl; try done.
  by intros [= ->].
Qed.

Lemma contenderBattlesOriginAt_occupant sa sb (ranking t : Z) :
  (∀ k, occupant (topOrigin sa k) = occupant (topOrigin sb k)) →
  contenderBattlesOriginAt sa ranking t = contenderBattlesOriginAt sb ranking t.
Proof.
  intros Hsame.
  induction ranking as [r Hr|r Hr IH] using ranking_ind;
    rewrite (contenderBattlesOriginAt_eq sa), (contenderBattlesOriginAt_eq sb);
    rewrite (contenderStopsAt_occupant sa sb) by done.
  - assert (contenderStopsAt sb r t = true) as ->; [|done].
    apply contenderStopsAt_true. by left.
  - destruct (contenderStopsAt sb r t); [done|]. simpl. by rewrite IH.
Qed.

Lemma reorderTopOriginsMap_congr sa sb (ranking : Z) (e : Entry AkitaOriginData) :
  topOriginsMap sa = topOriginsMap sb →
  topOriginsMap (reorderTopOriginsMap sa ranking e).1
  = topOriginsMap (reorderTopOriginsMap sb ranking e).1
  ∧ (reorderTopOriginsMap sa ranking e).2 = (reorderTopOriginsMap sb ranking e).2.
Proof.
  revert sa sb e.
  induction ranking as [r Hr|r Hr IH] using ranking_ind; intros sa sb e Hmap;
    rewrite (reorderTopOriginsMap_eq sa), (reorderTopOriginsMap_eq sb).
  - by rewrite bool_decide_eq_false_2 by lia.
  - rewrite bool_decide_eq_true_2 by lia. simpl.
    assert (topOrigin sa r = topOrigin sb r) as -> by (unfold topOrigin; by rewrite Hmap).
    destruct (IH (topOrigin_assign r e sa) (topOrigin_assign r e sb) (topOrigin sb r))
      as [-> ->]; [simpl; by rewrite Hmap|done].
Qed.

Lemma maybeUpdateTopOriginsMap_congr sa sb (c : AkitaOriginData) :
  topOriginsMap sa = topOriginsMap sb →
  topOriginsMap (maybeUpdateTopOriginsMap c sa).1
  = topOriginsMap (maybeUpdateTopOriginsMap c sb).1
  ∧ (maybeUpdateTopOriginsMap c sa).2 = (maybeUpdateTopOriginsMap c sb).2.
Proof.
  intros Hmap.
  assert (∀ k, topOrigin sa k = topOrigin sb k) as Htop.
  { intros k. unfold topOrigin. by rewrite Hmap. }
  unfold maybeUpdateTopOriginsMap.
  destruct (isCurrentlyMonetized c); [|done].
  case_bool_decide; [|done].
  unfold bind.
  rewrite (contenderBattlesOriginAt_occupant sa sb) by (intros k; by rewrite Htop).
  case_bool_decide; [done|].
  rewrite Htop.
  destruct (topOrigin sb _) as [| |holder]; simpl; try by rewrite Hmap.
  case_bool_decide; simpl; [by rewrite Hmap|].
  by destruct (reorderTopOriginsMap_congr sa sb (contenderBattlesOriginAt sb ORIGIN_RANKING_FIRST
             (timeSpentAtOrigin (originVisitData c))).1 (Obj c) Hmap) as [-> ->].
Qed.
End Independence.

Section Commutation.
Context {WebMonetizationAsset : Type}.
Variable new_WebMonetizationAsset : JsValue → WebMonetizationAsset.
Variable addAmount : JsValue → JsValue → WebMonetizationAsset → WebMonetizationAsset.
Variable StringToNumber : string → Number.
Variable NumberToString : Number → string.
Implicit Types (this : AkitaOriginStats WebMonetizationAsset).

Local Abbreviation handle' :=
  (handle new_WebMonetizationAsset addAmount StringToNumber NumberToString).
Local Abbreviation update' :=
  (updateAssetsMapWithAsset new_WebMonetizationAsset addAmount StringToNumber
     NumberToString).

Lemma AkitaOriginStats_eq this1 this2 :
  totalTimeSpent this1 = totalTimeSpent this2 →
  totalMonetizedTimeSpent this1 = totalMonetizedTimeSpent this2 →
  totalVisits this1 = totalVisits this2 →
  totalMonetizedVisits this1 = totalMonetizedVisits this2 →
  topOriginsMap this1 = topOriginsMap this2 →
  needsSomeLoveMap this1 = needsSomeLoveMap this2 →
  totalSentAssetsMap this1 = totalSentAssetsMap this2 →
  this1 = this2.
Proof. destruct this1, this2; simpl; by intros -> -> -> -> -> -> ->. Qed.

Lemma updateAssetsMapWithAsset_congr (paymentData : PaymentData) this1 this2 :
  totalSentAssetsMap this1 = totalSentAssetsMap this2 →
  totalSentAssetsMap (objectAfter (update' paymentData this1))
  = totalSentAssetsMap (objectAfter (update' paymentData this2)).
Proof.
  intros Hmap. rewrite !updateAssetsMapWithAsset_eq. simpl.
  destruct (_ && _); [|done]. rewrite Hmap.
  destruct (totalSentAssetsMap this2 !! _); simpl; [done|].
  by destruct (bool_decide _).
Qed.

(** Each field after a call, from the same field before it. *)
Lemma handle_maps (ev : Event) this :
  topOriginsMap (handle' ev this)
  = match ev with
    | TimeSpent _ originData => topOriginsMap (maybeUpdateTopOriginsMap originData this).1
    | _ => topOriginsMap this
    end
  ∧ needsSomeLoveMap (handle' ev this)
    = match ev with
      | NeedsSomeLove newneedsSomeLoveMap => newneedsSomeLoveMap
      | _ => needsSomeLoveMap this
      end
  ∧ totalSentAssetsMap (handle' ev this)
    = match ev with
      | Payment paymentData => totalSentAssetsMap (objectAfter (update' paymentData this))
      | _ => totalSentAssetsMap this
      end.
Proof.
  destruct ev as [recent d|b|pd|m]; unfold handle.
  - by destruct (updateTimeSpent_fields recent d this) as (_ & _ & _ & _ & -> & -> & ->).
  - by destruct b.
  - destruct (updateAssetsMapWithAsset_fields new_WebMonetizationAsset addAmount
                StringToNumber NumberToString pd this) as (_ & _ & _ & _ & -> & ->).
    done.
  - done.
Qed.

Lemma handle_board_other (ev : Event) this :
  (∀ recent d, ev ≠ TimeSpent recent d) →
  topOriginsMap (handle' ev this) = topOriginsMap this.
Proof.
  intros Hev. destruct (handle_maps ev this) as (-> & _).
  destruct ev; try done. by destruct (Hev recentTimeSpent originData).
Qed.

Lemma handle_board_time (recent : Z) (d : AkitaOriginData) this this0 :
  topOriginsMap this0 = topOriginsMap this →
  topOriginsMap (handle' (TimeSpent recent d) this0)
  = topOriginsMap (handle' (TimeSpent recent d) this).
Proof.
  intros Hmap.
  destruct (handle_maps (TimeSpent recent d) this0) as (-> & _).
  destruct (handle_maps (TimeSpent recent d) this) as (-> & _).
  by apply maybeUpdateTopOriginsMap_congr.
Qed.

Lemma handle_love_other (ev : Event) this :
  (∀ m, ev ≠ NeedsSomeLove m) →
  needsSomeLoveMap (handle' ev this) = needsSomeLoveMap this.
Proof.
  intros Hev. destruct (handle_maps ev this) as (_ & -> & _).
  destruct ev; try done. by destruct (Hev newneedsSomeLoveMap).
Qed.

Lemma handle_love_set (m : gmap string (Entry AkitaOriginData)) this :
  needsSomeLoveMap (handle' (NeedsSomeLove m) this) = m.
Proof. done. Qed.

Lemma handle_assets_other (ev : Event) this :
  (∀ pd, ev ≠ Payment pd) →
  totalSentAssetsMap (handle' ev this) = totalSentAssetsMap this.
Proof.
  intros Hev. destruct (handle_maps ev this) as (_ & _ & ->).
  destruct ev; try done. by destruct (Hev paymentData).
Qed.

Lemma handle_assets_payment (pd : PaymentData) this this0 :
  totalSentAssetsMap this0 = totalSentAssetsMap this →
  totalSentAssetsMap (handle' (Payment pd) this0)
  = totalSentAssetsMap (handle' (Payment pd) this).
Proof. intros Hmap. unfold handle. by apply updateAssetsMapWithAsset_congr. Qed.

(** X9.  Calls of different operations on the same object, and any two
    visits, can be made in either order: the object ends up the same.  Time
    tracking, visit counting, payments and the needs-some-love update each
    write fields that the others neither read nor write. *)
Theorem X9_independent_calls_commute (ev1 ev2 : Event) this :
  independent ev1 ev2 = true →
  handle' ev1 (handle' ev2 this) = handle' ev2 (handle' ev1 this).
Proof.
  intros Hind.
  pose proof (handle_totals new_WebMonetizationAsset addAmount StringToNumber
                NumberToString) as Htotals.
  apply AkitaOriginStats_eq.
  - destruct (Htotals ev1 (handle' ev2 this)) as (-> & _).
    destruct (Htotals ev2 (handle' ev1 this)) as (-> & _).
    destruct (Htotals ev1 this) as (-> & _). destruct (Htotals ev2 this) as (-> & _). lia.
  - destruct (Htotals ev1 (handle' ev2 this)) as (_ & -> & _).
    destruct (Htotals ev2 (handle' ev1 this)) as (_ & -> & _).
    destruct (Htotals ev1 this) as (_ & -> & _).
    destruct (Htotals ev2 this) as (_ & -> & _). lia.
  - destruct (Htotals ev1 (handle' ev2 this)) as (_ & _ & -> & _).
    destruct (Htotals ev2 (handle' ev1 this)) as (_ & _ & -> & _).
    destruct (Htotals ev1 this) as (_ & _ & -> & _).
    destruct (Htotals ev2 this) as (_ & _ & -> & _). lia.
  - destruct (Htotals ev1 (handle' ev2 this)) as (_ & _ & _ & ->).
    destruct (Htotals ev2 (handle' ev1 this)) as (_ & _ & _ & ->).
    destruct (Htotals ev1 this) as (_ & _ & _ & ->).
    destruct (Htotals ev2 this) as (_ & _ & _ & ->). lia.
  - destruct ev1 as [r1 d1|b1|pd1|m1], ev2 as [r2 d2|b2|pd2|m2]; try discriminate Hind;
      lazymatch goal with
      | |- topOriginsMap (handle' (TimeSpent ?r ?d) _) = _ =>
          transitivity (topOriginsMap (handle' (TimeSpent r d) this));
          [apply handle_board_time; by apply handle_board_other
          |symmetry; by apply handle_board_other]
      | |- _ = topOriginsMap (handle' (TimeSpent ?r ?d) _) =>
          transitivity (topOriginsMap (handle' (TimeSpent r d) this));
          [by apply handle_board_other
          |symmetry; apply handle_board_time; by apply handle_board_other]
      | |- _ => by rewrite !handle_board_other by done
      end.
  - destruct ev1 as [r1 d1|b1|pd1|m1], ev2 as [r2 d2|b2|pd2|m2]; try discriminate Hind;
      lazymatch goal with
      | |- needsSomeLoveMap (handle' (NeedsSomeLove ?m) _) = _ =>
          rewrite handle_love_set; symmetry;
          by rewrite handle_love_other by done
      | |- _ = needsSomeLoveMap (handle' (NeedsSomeLove ?m) _) =>
          rewrite (handle_love_set m); by rewrite handle_love_other by done
      | |- _ => by rewrite !handle_love_other by done
      end.
  - destruct ev1 as [r1 d1|b1|pd1|m1], ev2 as [r2 d2|b2|pd2|m2]; try discriminate Hind;
      lazymatch goal with
      | |- totalSentAssetsMap (handle' (Payment ?pd) _) = _ =>
          transitivity (totalSentAssetsMap (handle' (Payment pd) this));
          [apply handle_assets_payment; by apply handle_assets_other
          |symmetry; by apply handle_assets_other]
      | |- _ = totalSentAssetsMap (handle' (Payment ?pd) _) =>
          transitivity (totalSentAssetsMap (handle' (Payment pd) this));
          [by apply handle_assets_other
          |symmetry; apply handle_assets_payment; by apply handle_assets_other]
      | |- _ => by rewrite !handle_assets_other by done
      end.
Qed.
End Commutation.

Section Reload.
Context {StoredAsset WebMonetizationAsset : Type}.
Variable WebMonetizationAsset_fromObject : StoredAsset → WebMonetizationAsset.
Implicit Types (o : AkitaOriginStats StoredAsset).

Local Abbreviation rebuild' := (fromObject WebMonetizationAsset_fromObject).

Lemma occupant_Obj (e : Entry AkitaOriginData) (d : AkitaOriginData) :
  e = Obj d ↔ occupant e = Some d.
Proof. destruct e; simpl; split; intros H; by simplify_eq. Qed.

Lemma fromObject_board o (k : Z) :
  occupant (topOrigin (rebuild' o) k) = occupant (topOrigin o k).
Proof.
  apply (fromObject_occupant (topOriginsMap o) _ (topOriginsMap o)); [|done].
  apply fromObject_topOriginsMap.
Qed.

(** What a ranking holds after a call, up to the difference between a
    missing entry, [undefined] and [null]. *)
Lemma maybeUpdateTopOriginsMap_occupant {A B : Type}
  (sa : AkitaOriginStats A) (sb : AkitaOriginStats B) (c : AkitaOriginData) :
  (∀ k, occupant (topOrigin sa k) = occupant (topOrigin sb k)) →
  ∀ k, occupant (topOrigin (maybeUpdateTopOriginsMap c sa).1 k)
       = occupant (topOrigin (maybeUpdateTopOriginsMap c sb).1 k).
Proof.
  intros Hsame k.
  destruct (isCurrentlyMonetized c) eqn:Hm; cycle 1.
  { by rewrite !maybeUpdateTopOriginsMap_skip by (by left). }
  destruct (decide (0 < timeOf c)) as [Ht|Ht]; cycle 1.
  { by rewrite !maybeUpdateTopOriginsMap_skip by (right; lia). }
  rewrite !maybeUpdateTopOriginsMap_topOrigin by done.
  assert (placementRank sa (timeOf c) = placementRank sb (timeOf c)) as ->.
  { unfold placementRank. by rewrite (contenderBattlesOriginAt_occupant sa sb). }
  assert (displacesAt sa c (placementRank sb (timeOf c))
          = displacesAt sb c (placementRank sb (timeOf c))) as ->.
  { unfold displacesAt. pose proof (Hsame (placementRank sb (timeOf c))) as Hk.
    destruct (topOrigin sa _), (topOrigin sb _); simpl in Hk; by simplify_eq. }
  case_bool_decide; [done|]. case_bool_decide; [done|].
  by destruct (_ && _).
Qed.

(** X10.  Reloading does not change the board as the class sees it.  At
    every ranking the reconstructed object holds the origin the stored
    object holds there, and none where the stored one holds none, [null] or
    [undefined]; so the rank search gives the same ranking with the same
    console lines, the board is ordered by rank and free of repeated origin
    identifiers exactly when the stored one is, and after the next contender
    the two boards still hold the same origins at the same rankings. *)
Theorem X10_reload_keeps_board o :
  (∀ k, occupant (topOrigin (rebuild' o) k) = occupant (topOrigin o k))
  ∧ (∀ ranking t,
       contenderBattlesOriginAt (rebuild' o) ranking t = contenderBattlesOriginAt o ranking t)
  ∧ (rankOrdered (rebuild' o) ↔ rankOrdered o)
  ∧ (originsUnique (rebuild' o) ↔ originsUnique o)
  ∧ (∀ c k,
       occupant (topOrigin (maybeUpdateTopOriginsMap c (rebuild' o)).1 k)
       = occupant (topOrigin (maybeUpdateTopOriginsMap c o).1 k)).
Proof.
  pose proof (fromObject_board o) as Hsame.
  assert (∀ k d, topOrigin (rebuild' o) k = Obj d ↔ topOrigin o k = Obj d) as Hobj.
  { intros k d. by rewrite !occupant_Obj, Hsame. }
  split_and!.
  - done.
  - intros ranking t. by apply contenderBattlesOriginAt_occupant.
  - unfold rankOrdered. split; intros Hord i j d d' Hij Hi Hj.
    + apply (Hord i j); [done|by apply Hobj..].
    + apply (Hord i j); [done|by apply Hobj..].
  - unfold originsUnique. split; intros Huniq i j d d' Hi Hj.
    + apply (Huniq i j d d'); by apply Hobj.
    + apply (Huniq i j d d'); by apply Hobj.
  - intros c k. by apply maybeUpdateTopOriginsMap_occupant.
Qed.

(** X11.  Every entry of the two origin maps of a reconstructed object is
    an object, and reconstructing the reconstructed object again gives the
    same totals and the same two origin maps: only the assets go through
    their reconstruction a second time. *)
Theorem X11_reload_twice (G : WebMonetizationAsset → WebMonetizationAsset) o :
  let this := rebuild' o in
  let again := fromObject G this in
  (∀ k e, topOriginsMap this !! k = Some e → ∃ d, e = Obj d)
  ∧ (∀ key e, needsSomeLoveMap this !! key = Some e → ∃ d, e = Obj d)
  ∧ topOriginsMap again = topOriginsMap this
  ∧ needsSomeLoveMap again = needsSomeLoveMap this
  ∧ totalTimeSpent again = totalTimeSpent this
  ∧ totalMonetizedTimeSpent again = totalMonetizedTimeSpent this
  ∧ totalVisits again = totalVisits this
  ∧ totalMonetizedVisits again = totalMonetizedVisits this
  ∧ totalSentAssetsMap again = G <$> totalSentAssetsMap this.
Proof.
  intros this again.
  assert (∀ e e', keptOrigin e = Some e' → keptOrigin e' = Some e') as Hkept.
  { intros [| |d] e'; simpl; intros [= <-]. simpl.
    by rewrite AkitaOriginData_fromObject_copy. }
  assert (∀ e e', keptOrigin e = Some e' → ∃ d, e' = Obj d) as Hobj.
  { intros [| |d] e'; simpl; intros [= <-]. by eexists. }
  destruct (fromObject_totals G this) as (Ht & Hmt & Hv & Hmv).
  split_and!; try done.
  - intros k e. unfold this. rewrite fromObject_topOriginsMap.
    destruct (topOriginsMap o !! k) as [e0|]; simpl; [|done]. apply Hobj.
  - intros key e. unfold this. rewrite fromObject_needsSomeLoveMap.
    destruct (needsSomeLoveMap o !! key) as [e0|]; simpl; [|done]. apply Hobj.
  - apply map_eq. intros k. unfold again. rewrite fromObject_topOriginsMap.
    unfold this. rewrite fromObject_topOriginsMap.
    destruct (topOriginsMap o !! k) as [e0|]; simpl; [|done].
    destruct (keptOrigin e0) as [e'|] eqn:He; simpl; [|done]. by apply Hkept in He.
  - apply map_eq. intros key. unfold again. rewrite fromObject_needsSomeLoveMap.
    unfold this. rewrite fromObject_needsSomeLoveMap.
    destruct (needsSomeLoveMap o !! key) as [e0|]; simpl; [|done].
    destruct (keptOrigin e0) as [e'|] eqn:He; simpl; [|done]. by apply Hkept in He.
  - apply fromObject_totalSentAssetsMap.
Qed.
End Reload.

Section Payments.
Context {WebMonetizationAsset : Type}.
Variable new_WebMonetizationAsset : JsValue → WebMonetizationAsset.
Variable addAmount : JsValue → JsValue → WebMonetizationAsset → WebMonetizationAsset.
Variable StringToNumber : string → Number.
Variable NumberToString : Number → string.
Implicit Types (this : AkitaOriginStats WebMonetizationAsset).

Local Abbreviation update' :=
  (updateAssetsMapWithAsset new_WebMonetizationAsset addAmount StringToNumber
     NumberToString).

(** An accepted call, by what the object holds under the asset code. *)
Lemma updateAssetsMapWithAsset_accepted (paymentData : PaymentData) this :
  let amount' := withDefault (amount paymentData) JsNull in
  let assetScale' := withDefault (assetScale paymentData) JsNull in
  let assetCode' := withDefault (assetCode paymentData) JsNull in
  let key := ToPropertyKey NumberToString assetCode' in
  isNaN StringToNumber amount' = false →
  isNaN StringToNumber assetScale' = false →
  ToBoolean assetCode' = true →
  update' paymentData this =
    match totalSentAssetsMap this !! key with
    | Some a =>
        Returns
          (set_totalSentAssetsMap
             (<[key := addAmount amount' assetScale' a]> (totalSentAssetsMap this)) this)
    | None =>
        if bool_decide (key ∈ Object_prototype_names) then ThrowsTypeError this
        else
          Returns
            (set_totalSentAssetsMap
               (<[key := addAmount amount' assetScale' (new_WebMonetizationAsset assetCode')]>
                  (totalSentAssetsMap this)) this)
    end.
Proof.
  intros amount' assetScale' assetCode' key Ha Hs Hc.
  rewrite updateAssetsMapWithAsset_eq.
  fold amount' assetScale' assetCode' key. by rewrite Ha, Hs, Hc.
Qed.

(** X12.  A payment whose amount and scale both coerce to numbers and whose
    asset code is truthy and is not the name of a property that plain
    objects inherit from [Object.prototype] is recorded under that code:
    the call returns, and the entry has become [addAmount(amount, scale)]
    applied to the entry that was there, or to a new asset for the code
    when there was none.  Nothing else in the asset map changes. *)
Theorem X12_payment_recorded (paymentData : PaymentData) this :
  let amount' := withDefault (amount paymentData) JsNull in
  let assetScale' := withDefault (assetScale paymentData) JsNull in
  let assetCode' := withDefault (assetCode paymentData) JsNull in
  let key := ToPropertyKey NumberToString assetCode' in
  let this' := objectAfter (update' paymentData this) in
  isNaN StringToNumber amount' = false →
  isNaN StringToNumber assetScale' = false →
  ToBoolean assetCode' = true →
  key ∉ Object_prototype_names →
  update' paymentData this = Returns this'
  ∧ totalSentAssetsMap this' !! key
    = Some (addAmount amount' assetScale'
              (default (new_WebMonetizationAsset assetCode') (totalSentAssetsMap this !! key)))
  ∧ ∀ other, other ≠ key →
      totalSentAssetsMap this' !! other = totalSentAssetsMap this !! other.
Proof.
  intros amount' assetScale' assetCode' key this' Ha Hs Hc Hown. unfold this'.
  rewrite updateAssetsMapWithAsset_accepted by done.
  fold amount' assetScale' assetCode' key.
  rewrite (bool_decide_eq_false_2 (key ∈ Object_prototype_names)) by done.
  destruct (totalSentAssetsMap this !! key) as [a|] eqn:Hkey; simpl.
  - split; [done|]. split; [by rewrite lookup_insert_eq|].
    intros other Hne. by rewrite lookup_insert_ne.
  - split; [done|]. split; [by rewrite lookup_insert_eq|].
    intros other Hne. by rewrite lookup_insert_ne.
Qed.

(** X30.  A payment that passes the guard, with an asset code that is the
    name of a property plain objects inherit from [Object.prototype]
    ("toString", "constructor", ...), on an object that has no entry of
    its own under that name: the inherited value is taken for the entry,
    no asset is created, and the call throws a [TypeError] at [addAmount],
    leaving the object as it was. *)
Theorem X30_inherited_code_throws (paymentData : PaymentData) this :
  let amount' := withDefault (amount paymentData) JsNull in
  let assetScale' := withDefault (assetScale paymentData) JsNull in
  let assetCode' := withDefault (assetCode paymentData) JsNull in
  let key := ToPropertyKey NumberToString assetCode' in
  isNaN StringToNumber amount' = false →
  isNaN StringToNumber assetScale' = false →
  ToBoolean assetCode' = true →
  key ∈ Object_prototype_names →
  totalSentAssetsMap this !! key = None →
  update' paymentData this = ThrowsTypeError this.
Proof.
  intros amount' assetScale' assetCode' key Ha Hs Hc Hinherited Hnone.
  rewrite updateAssetsMapWithAsset_accepted by done.
  fold amount' assetScale' assetCode' key.
  by rewrite Hnone, bool_decide_eq_true_2.
Qed.

(** X13.  Whatever the payment data, a call to [updateAssetsMapWithAsset]
    changes at most the entry under its own asset code: it never removes a
    currency, leaves every other currency's entry as it was, and does not
    touch the totals or the two origin maps. *)
Theorem X13_payment_frame (paymentData : PaymentData) this :
  let this' := objectAfter (update' paymentData this) in
  let key := ToPropertyKey NumberToString (withDefault (assetCode paymentData) JsNull) in
  (∀ code, is_Some (totalSentAssetsMap this !! code) →
     is_Some (totalSentAssetsMap this' !! code))
  ∧ (∀ code, code ≠ key →
       totalSentAssetsMap this' !! code = totalSentAssetsMap this !! code)
  ∧ totalTimeSpent this' = totalTimeSpent this
  ∧ totalMonetizedTimeSpent this' = totalMonetizedTimeSpent this
  ∧ totalVisits this' = totalVisits this
  ∧ totalMonetizedVisits this' = totalMonetizedVisits this
  ∧ topOriginsMap this' = topOriginsMap this
  ∧ needsSomeLoveMap this' = needsSomeLoveMap this.
Proof.
  intros this' key.
  destruct (updateAssetsMapWithAsset_fields new_WebMonetizationAsset addAmount
              StringToNumber NumberToString paymentData this)
    as (Ht & Hmt & Hv & Hmv & Htop & Hlove).
  assert (∀ code, totalSentAssetsMap this' !! code
            = if decide (key = code)
              then totalSentAssetsMap this' !! key
              else totalSentAssetsMap this !! code) as Hlook.
  { intros code. case_decide as Hcode; [by subst|].
    unfold this'. rewrite updateAssetsMapWithAsset_eq. fold key.
    destruct (_ && _); [|done].
    destruct (totalSentAssetsMap this !! key); simpl; [by rewrite lookup_insert_ne|].
    destruct (bool_decide _); simpl; [done|by rewrite lookup_insert_ne]. }
  split_and!; try done.
  - intros code Hsome. rewrite Hlook. case_decide as Hcode; [|done]. subst code.
    unfold this'. rewrite updateAssetsMapWithAsset_eq. fold key.
    destruct (_ && _); [|done].
    destruct (totalSentAssetsMap this !! key) eqn:Hkey; simpl.
    + rewrite lookup_insert_eq. by eexists.
    + by destruct Hsome.
  - intros code Hne. rewrite Hlook. by rewrite decide_False.
Qed.

(** X14.  A call that carries no asset code (a payment pointer alone), or
    an empty one, or whose amount or scale is the number NaN or a string
    that does not read as a number, returns without having changed
    anything. *)
Theorem X14_payment_ignored (paymentData : PaymentData) this :
  (assetCode paymentData = JsUndefined ∨ assetCode paymentData = JsNull
   ∨ assetCode paymentData = JsString ""
   ∨ amount paymentData = JsNumber NaN ∨ assetScale paymentData = JsNumber NaN
   ∨ (∃ s, amount paymentData = JsString s ∧ StringToNumber s = NaN)
   ∨ (∃ s, assetScale paymentData = JsString s ∧ StringToNumber s = NaN)) →
  update' paymentData this = Returns this.
Proof.
  intros Hcase. apply updateAssetsMapWithAsset_guarded.
  destruct Hcase as [Hc|[Hc|[Hc|[Ha|[Hs|[(s & Ha & Hn)|(s & Hs & Hn)]]]]]].
  - right; right. by rewrite Hc.
  - right; right. by rewrite Hc.
  - right; right. by rewrite Hc.
  - left. by rewrite Ha.
  - right; left. by rewrite Hs.
  - left. rewrite Ha. unfold isNaN. simpl. by rewrite Hn.
  - right; left. rewrite Hs. unfold isNaN. simpl. by rewrite Hn.
Qed.

(** X15.  Two accepted payments in the same currency, whose code is not
    the name of a property plain objects inherit, on an object that has no
    entry for it: both calls return, the entry is built once and added to
    twice, the second call does not start from a new asset. *)
Theorem X15_payments_accumulate (code : string) (a1 s1 a2 s2 : Z) this :
  code ≠ ""%string →
  code ∉ Object_prototype_names →
  totalSentAssetsMap this !! code = None →
  let pay a s :=
    {| paymentPointer := JsUndefined;
       amount := JsNumber (Finite a);
       assetScale := JsNumber (Finite s);
       assetCode := JsString code |} in
  let update :=
    updateAssetsMapWithAsset new_WebMonetizationAsset addAmount StringToNumber
      NumberToString in
  let this1 := objectAfter (update (pay a1 s1) this) in
  let this2 := objectAfter (update (pay a2 s2) this1) in
  update (pay a1 s1) this = Returns this1
  ∧ update (pay a2 s2) this1 = Returns this2
  ∧ totalSentAssetsMap this2 !! code
    = Some (addAmount (JsNumber (Finite a2)) (JsNumber (Finite s2))
              (addAmount (JsNumber (Finite a1)) (JsNumber (Finite s1))
                 (new_WebMonetizationAsset (JsString code)))).
Proof.
  intros Hcode Hown Hnone pay update this1 this2.
  assert (ToBoolean (JsString code) = true) as Htruthy.
  { simpl. by rewrite bool_decide_eq_false_2. }
  assert (update (pay a1 s1) this
          = Returns
              (set_totalSentAssetsMap
                 (<[code := addAmount (JsNumber (Finite a1)) (JsNumber (Finite s1))
                              (new_WebMonetizationAsset (JsString code))]>
                    (totalSentAssetsMap this)) this)) as Hfirst.
  { unfold update. rewrite updateAssetsMapWithAsset_accepted by done. simpl.
    by rewrite Hnone, bool_decide_eq_false_2. }
  assert (totalSentAssetsMap this1 !! code
          = Some (addAmount (JsNumber (Finite a1)) (JsNumber (Finite s1))
                    (new_WebMonetizationAsset (JsString code)))) as Hentry.
  { unfold this1. rewrite Hfirst. simpl. by rewrite lookup_insert_eq. }
  assert (update (pay a2 s2) this1
          = Returns
              (set_totalSentAssetsMap
                 (<[code := addAmount (JsNumber (Finite a2)) (JsNumber (Finite s2))
                              (addAmount (JsNumber (Finite a1)) (JsNumber (Finite s1))
                                 (new_WebMonetizationAsset (JsString code)))]>
                    (totalSentAssetsMap this1)) this1)) as Hsecond.
  { unfold update. rewrite updateAssetsMapWithAsset_accepted by done. simpl.
    by rewrite Hentry. }
  split; [by unfold this1; rewrite Hfirst|].
  split; [by unfold this2; rewrite Hsecond|].
  unfold this2. rewrite Hsecond. simpl. by rewrite lookup_insert_eq.
Qed.
End Payments.

(** * Properties of the content script *)

Section PaymentPointers.
Implicit Types (s t q rest : JsStr) (u v : N).

(** ** Trimming *)

Lemma trimStart_suffix s : ∃ pre, s = pre ++ trimStart s.
Proof.
  induction s as [|u s [pre IH]]; [by exists []|]. simpl.
  destruct (isWhiteSpace u); [|by exists []].
  exists (u :: pre). simpl. by rewrite <- IH.
Qed.

Lemma trimStart_head s u s' : trimStart s = u :: s' → isWhiteSpace u = false.
Proof.
  induction s as [|w s IH]; [done|]. simpl.
  destruct (isWhiteSpace w) eqn:Hw; [done|]. by intros [= <- _].
Qed.

Lemma trimStart_fixed u s : isWhiteSpace u = false → trimStart (u :: s) = u :: s.
Proof. intros Hu. simpl. by rewrite Hu. Qed.

Lemma trimEnd_prefix s : ∃ suf, s = trimEnd s ++ suf.
Proof.
  unfold trimEnd. destruct (trimStart_suffix (reverse s)) as [pre Hpre].
  exists (reverse pre). rewrite <- reverse_app, <- Hpre. by rewrite reverse_involutive.
Qed.

Lemma trimEnd_last s v : last (trimEnd s) = Some v → isWhiteSpace v = false.
Proof.
  unfold trimEnd. rewrite last_reverse.
  destruct (trimStart (reverse s)) as [|w s'] eqn:Ht; [done|].
  simpl. intros [= <-]. by eapply trimStart_head.
Qed.

Lemma trimEnd_fixed s v : last s = Some v → isWhiteSpace v = false → trimEnd s = s.
Proof.
  intros Hlast Hv. unfold trimEnd.
  rewrite <- head_reverse in Hlast.
  destruct (reverse s) as [|w s'] eqn:Hrev; [done|].
  simpl in Hlast. injection Hlast as ->.
  rewrite trimStart_fixed by done. rewrite <- Hrev. apply reverse_involutive.
Qed.

Lemma trim_ends s u s' :
  trim s = u :: s' →
  isWhiteSpace u = false ∧ ∃ v, last (trim s) = Some v ∧ isWhiteSpace v = false.
Proof.
  intros Htrim. split.
  - destruct (trimEnd_prefix (trimStart s)) as [suf Hsuf].
    fold (trim s) in Hsuf. rewrite Htrim in Hsuf. simpl in Hsuf.
    by eapply trimStart_head.
  - destruct (last (trim s)) as [v|] eqn:Hlast.
    + exists v. split; [done|]. by eapply trimEnd_last.
    + apply last_None in Hlast. by rewrite Hlast in Htrim.
Qed.

Lemma trim_fixed s u s' v :
  s = u :: s' → isWhiteSpace u = false →
  last s = Some v → isWhiteSpace v = false →
  trim s = s.
Proof.
  intros -> Hu Hlast Hv. unfold trim. rewrite trimStart_fixed by done.
  by eapply trimEnd_fixed.
Qed.

(** ** [resolvePaymentPointer] by cases on the trimmed pointer *)

Lemma units_dollar : units "$" = [36%N].
Proof. reflexivity. Qed.

Lemma resolvePaymentPointer_cases (paymentPointer : option JsStr) :
  resolvePaymentPointer paymentPointer =
    if truthyStr paymentPointer then
      let t := trim (default [] paymentPointer) in
      if bool_decide (head t = Some 36%N) then Some (units "https://" ++ drop 1 t)
      else if startsWith t (units "https://") then Some t
      else None
    else None.
Proof.
  unfold resolvePaymentPointer, discard, substr, concat, charAt.
  destruct (truthyStr paymentPointer); [|done].
  assert (units "$" = [36%N]) as -> by reflexivity.
  destruct (trim (default [] paymentPointer)) as [|u rest]; simpl.
  - done.
  - repeat case_bool_decide; simplify_eq; done.
Qed.

Lemma startsWith_https_head t :
  startsWith t (units "https://") = true → ∃ t', t = 104%N :: t'.
Proof.
  unfold startsWith. intros Ht%bool_decide_eq_true.
  destruct t as [|u t']; [done|]. simpl in Ht. injection Ht as -> _. by eexists.
Qed.

Lemma last_https rest :
  last (units "https://" ++ rest) = match rest with [] => Some 47%N | _ => last rest end.
Proof.
  rewrite last_app. destruct rest as [|w rest']; [done|].
  by destruct (last (w :: rest')) eqn:Hlast; [|apply last_None in Hlast].
Qed.

Lemma startsWith_https_app rest : startsWith (units "https://" ++ rest) (units "https://") = true.
Proof. unfold startsWith. by apply bool_decide_eq_true. Qed.

Lemma resolvePaymentPointer_https (paymentPointer : option JsStr) (endpoint : JsStr) :
  resolvePaymentPointer paymentPointer = Some endpoint →
  startsWith endpoint (units "https://") = true
  ∧ truthyStr (Some endpoint) = true.
Proof.
  rewrite resolvePaymentPointer_cases.
  destruct (truthyStr paymentPointer); [|done]. simpl.
  case_bool_decide as Hdollar.
  - intros [= <-]. split; [apply startsWith_https_app|done].
  - destruct (startsWith _ _) eqn:Hs; [|done]. intros [= <-]. split; [done|].
    by destruct (startsWith_https_head _ Hs) as [t' ->].
Qed.

(** X16.  [resolvePaymentPointer] never hands out anything but an https
    URL: what it returns is [null] or a string that starts with
    "https://", so never the empty string. *)
Theorem X16_resolved_is_https (paymentPointer : option JsStr) (endpoint : JsStr) :
  resolvePaymentPointer paymentPointer = Some endpoint →
  startsWith endpoint (units "https://") = true ∧ endpoint ≠ [].
Proof.
  intros Hres. destruct (resolvePaymentPointer_https _ _ Hres) as [Hs Htruthy].
  split; [done|]. by intros ->.
Qed.

(** X17.  A pointer that, once trimmed, starts with '$' resolves to
    "https://" followed by what comes after the '$', and to nothing more:
    the string built with "/.well-known/pay" is dropped, so a pointer
    without a path resolves to the bare host. *)
Theorem X17_dollar_pointer (q rest : JsStr) :
  q ≠ [] → trim q = units "$" ++ rest →
  resolvePaymentPointer (Some q) = Some (units "https://" ++ rest).
Proof.
  intros Hq Htrim. rewrite resolvePaymentPointer_cases.
  destruct q; [done|]. simpl truthyStr. cbv iota. simpl default. cbv zeta.
  by rewrite Htrim.
Qed.

(** X18.  [resolvePaymentPointer] returns [null] exactly for [null], the
    empty string, and strings that, once trimmed, start neither with '$'
    nor with "https://" (among them the strings made of white space
    only). *)
Theorem X18_rejected_pointers (paymentPointer : option JsStr) :
  resolvePaymentPointer paymentPointer = None ↔
    truthyStr paymentPointer = false
    ∨ (charAt (trim (default [] paymentPointer)) 0 ≠ units "$"
       ∧ startsWith (trim (default [] paymentPointer)) (units "https://") = false).
Proof.
  rewrite resolvePaymentPointer_cases.
  destruct (truthyStr paymentPointer); [|split; [by left|done]]. simpl.
  set (t := trim (default [] paymentPointer)).
  assert (head t = Some 36%N ↔ charAt t 0 = units "$") as Hhead.
  { unfold charAt. rewrite units_dollar. destruct t as [|u rest]; simpl; [done|].
    split; intros H; by simplify_eq. }
  case_bool_decide as Hdollar.
  - split; [done|]. intros [?|[Hc _]]; [done|]. destruct Hc. by apply Hhead.
  - destruct (startsWith t _) eqn:Hs.
    + split; [done|]. by intros [?|[_ ?]].
    + split; [|done]. intros _. right. split; [|done]. by rewrite <- Hhead.
Qed.

(** X19.  Resolving is idempotent: an endpoint that
    [resolvePaymentPointer] returned resolves to itself. *)
Theorem X19_resolve_idempotent (paymentPointer : option JsStr) :
  resolvePaymentPointer (resolvePaymentPointer paymentPointer)
  = resolvePaymentPointer paymentPointer.
Proof.
  destruct (resolvePaymentPointer paymentPointer) as [endpoint|] eqn:Hres; [|done].
  assert (startsWith endpoint (units "https://") = true) as Hs.
  { rewrite resolvePaymentPointer_cases in Hres.
    destruct (truthyStr paymentPointer); [|done]. simpl in Hres.
    case_bool_decide; [injection Hres as <-; apply startsWith_https_app|].
    destruct (startsWith _ _) eqn:Hs; by simplify_eq. }
  destruct (startsWith_https_head _ Hs) as [t' ->].
  assert (∃ v, last (104%N :: t') = Some v ∧ isWhiteSpace v = false) as (v & Hlast & Hv).
  { rewrite resolvePaymentPointer_cases in Hres.
    destruct (truthyStr paymentPointer); [|done]. cbv zeta in Hres.
    destruct (trim (default [] paymentPointer)) as [|u rest] eqn:Htrim; [done|].
    destruct (trim_ends _ _ _ Htrim) as (_ & v & Hlast & Hv). rewrite Htrim in Hlast.
    case_bool_decide as Hdollar.
    - apply (inj Some) in Hres. rewrite <- Hres, last_https. cbn [drop].
      destruct rest as [|w rest']; [by exists 47%N|].
      exists v. by rewrite last_cons_cons in Hlast.
    - destruct (startsWith (u :: rest) _); [|done]. apply (inj Some) in Hres.
      exists v. by rewrite <- Hres. }
  rewrite resolvePaymentPointer_cases. simpl truthyStr. cbv iota. simpl default. cbv zeta.
  rewrite (trim_fixed (104%N :: t') 104%N t' v) by done.
  rewrite bool_decide_eq_false_2 by done. by rewrite Hs.
Qed.
End PaymentPointers.

Section Favicon.
Implicit Types (link : LinkElement) (links before after : list LinkElement).

Lemma scanLinks_plain links after (i relIconFoundIndex : Z) :
  Forall plainLink links →
  scanLinks (links ++ after) i relIconFoundIndex
  = scanLinks after (i + Z.of_nat (length links)) relIconFoundIndex.
Proof.
  intros Hplain. revert i. induction Hplain as [|link links [Hs Hi] _ IH]; intros i.
  - simpl. f_equal. lia.
  - simpl. unfold relIs in Hs, Hi.
    rewrite !bool_decide_eq_false_2 by done. rewrite IH. f_equal. lia.
Qed.

(** Without a "shortcut icon" the loop runs to the end without setting
    [faviconPath], and goes on with the index it has reached. *)
Lemma scanLinks_no_shortcut links after (i relIconFoundIndex : Z) :
  Forall (λ link, ¬ relIs "shortcut icon" link) links →
  (scanLinks links i relIconFoundIndex).1 = None
  ∧ scanLinks (links ++ after) i relIconFoundIndex
    = scanLinks after (i + Z.of_nat (length links))
        (scanLinks links i relIconFoundIndex).2.
Proof.
  intros Hno. revert i relIconFoundIndex.
  induction Hno as [|link links Hs _ IH]; intros i relIconFoundIndex.
  - simpl. split; [done|f_equal; lia].
  - simpl. unfold relIs in Hs. rewrite bool_decide_eq_false_2 by done.
    case_bool_decide.
    + destruct (IH (i + 1) i) as (-> & ->). split; [done|f_equal; lia].
    + destruct (IH (i + 1) relIconFoundIndex) as (-> & ->). split; [done|f_equal; lia].
Qed.

(** The index that [getFaviconPath] reads at the end is that of an element
    of the list. *)
Lemma scanLinks_index links (i relIconFoundIndex : Z) :
  (scanLinks links i relIconFoundIndex).2 = relIconFoundIndex
  ∨ i ≤ (scanLinks links i relIconFoundIndex).2 < i + Z.of_nat (length links).
Proof.
  revert i relIconFoundIndex. induction links as [|link links IH]; intros i idx.
  - by left.
  - simpl. case_bool_decide; [by left|]. case_bool_decide.
    + destruct (IH (i + 1) i) as [->|?]; right; lia.
    + destruct (IH (i + 1) idx) as [->|?]; [by left|right; lia].
Qed.

(** X20.  On a page without any link whose [rel] is "icon" or "shortcut
    icon" (in particular without links at all) the favicon path is the
    default "favicon.ico". *)
Theorem X20_favicon_default links :
  Forall plainLink links →
  getFaviconPath links = Some (units "favicon.ico").
Proof.
  intros Hplain. unfold getFaviconPath.
  pose proof (scanLinks_plain links [] 0 (-1) Hplain) as Hscan.
  rewrite app_nil_r in Hscan. by rewrite Hscan.
Qed.

(** X21.  The first link whose [rel] is "shortcut icon" decides, when it
    has a non-empty [href]: that [href] is the favicon path, whatever the
    links before and after it are. *)
Theorem X21_favicon_shortcut_icon before link after :
  Forall (λ l, ¬ relIs "shortcut icon" l) before →
  relIs "shortcut icon" link →
  truthyStr (href link) = true →
  getFaviconPath (before ++ link :: after) = href link.
Proof.
  intros Hno Hlink Htruthy. unfold getFaviconPath.
  destruct (scanLinks_no_shortcut before (link :: after) 0 (-1) Hno) as (_ & ->).
  cbn [scanLinks]. unfold relIs in Hlink. rewrite bool_decide_eq_true_2 by done.
  by rewrite Htruthy.
Qed.

(** X22.  Without a "shortcut icon" link, the last link whose [rel] is
    "icon" decides: its [href] is returned as it is, [null] when the
    attribute is missing. *)
Theorem X22_favicon_last_icon before link after :
  Forall (λ l, ¬ relIs "shortcut icon" l) before →
  relIs "icon" link →
  Forall plainLink after →
  getFaviconPath (before ++ link :: after) = href link.
Proof.
  intros Hno Hlink Hplain. unfold getFaviconPath.
  destruct (scanLinks_no_shortcut before (link :: after) 0 (-1) Hno) as (_ & ->).
  cbn [scanLinks]. unfold relIs in Hlink.
  assert (rel link ≠ Some (units "shortcut icon")) as Hns.
  { rewrite Hlink. intros Heq. by vm_compute in Heq. }
  rewrite bool_decide_eq_false_2 by done. rewrite bool_decide_eq_true_2 by done.
  pose proof (scanLinks_plain after [] (0 + Z.of_nat (length before) + 1)
                (0 + Z.of_nat (length before)) Hplain) as Hscan.
  rewrite app_nil_r in Hscan. rewrite Hscan. cbn [scanLinks truthyStr].
  rewrite bool_decide_eq_true_2 by lia.
  unfold hrefAt. replace (Z.to_nat (0 + Z.of_nat (length before))) with (length before) by lia.
  by rewrite list_lookup_middle.
Qed.

(** X23.  A "shortcut icon" link without [href], or with an empty one,
    ends the search all the same: the links after it are never looked at,
    and the result is what the links before it give. *)
Theorem X23_favicon_empty_shortcut_icon before link after :
  Forall (λ l, ¬ relIs "shortcut icon" l) before →
  relIs "shortcut icon" link →
  truthyStr (href link) = false →
  getFaviconPath (before ++ link :: after) = getFaviconPath before.
Proof.
  intros Hno Hlink Hfalsy. unfold getFaviconPath.
  destruct (scanLinks_no_shortcut before (link :: after) 0 (-1) Hno) as (Hnone & ->).
  pose proof (scanLinks_index before 0 (-1)) as Hindex.
  destruct (scanLinks before 0 (-1)) as [faviconPath found]. simpl in Hnone, Hindex.
  subst faviconPath.
  cbn [scanLinks snd truthyStr]. unfold relIs in Hlink.
  rewrite bool_decide_eq_true_2 by done. rewrite Hfalsy.
  case_bool_decide as Hidx; [|done].
  unfold hrefAt. rewrite lookup_app_l; [done|]. lia.
Qed.
End Favicon.

Section ValidationProperties.
Variable fetch : nat → JsStr → FetchResult.
Variable newlocation : option (option JsStr).
Implicit Types (fuel requests n m : nat) (endpoint : JsStr).

Local Abbreviation loop := (validationLoop fetch newlocation).

Lemma validationLoop_unresolvable (paymentPointer : option JsStr) fuel requests
  (redirectCounter : Z) :
  resolvePaymentPointer paymentPointer = None →
  redirectCounter > 0 →
  loop fuel requests redirectCounter paymentPointer = None.
Proof.
  intros Hres Hcounter. revert requests.
  induction fuel as [|fuel IH]; intros requests; [done|].
  simpl. rewrite bool_decide_eq_true_2 by done. rewrite Hres. simpl. apply IH.
Qed.

Lemma errorStatus_step (paymentPointer : option JsStr) endpoint fuel requests
  (redirectCounter : Z) :
  resolvePaymentPointer paymentPointer = Some endpoint →
  redirectCounter > 0 →
  errorStatus (fetch requests endpoint) →
  loop (S fuel) requests redirectCounter paymentPointer
  = loop fuel (S requests) redirectCounter paymentPointer.
Proof.
  intros Hres Hcounter (status & Hfetch & Hne & Hnr).
  destruct (resolvePaymentPointer_https _ _ Hres) as [_ Htruthy].
  simpl. rewrite bool_decide_eq_true_2 by done. rewrite Hres, Htruthy. simpl.
  unfold httpGet. rewrite Hfetch.
  rewrite bool_decide_eq_false_2 by done.
  destruct (bool_decide (300 ≤ status)) eqn:H1, (bool_decide (status < 400)) eqn:H2;
    simpl; try done.
  apply bool_decide_eq_true in H1, H2. lia.
Qed.

Lemma validationLoop_errors_then_ok (paymentPointer : option JsStr) endpoint m requests
  (redirectCounter : Z) :
  resolvePaymentPointer paymentPointer = Some endpoint →
  redirectCounter > 0 →
  (∀ i, (requests ≤ i < requests + m)%nat → errorStatus (fetch i endpoint)) →
  fetch (requests + m)%nat endpoint = FetchStatus 200 →
  ∀ fuel,
    ((fuel ≤ m)%nat → loop fuel requests redirectCounter paymentPointer = None)
    ∧ ((m < fuel)%nat →
       loop fuel requests redirectCounter paymentPointer = Some (Fulfilled true)).
Proof.
  intros Hres Hcounter. revert requests.
  destruct (resolvePaymentPointer_https _ _ Hres) as [_ Htruthy].
  induction m as [|m IH]; intros requests Herr Hok fuel.
  - rewrite Nat.add_0_r in Hok. split.
    + intros Hfuel. by replace fuel with 0%nat by lia.
    + intros Hfuel. destruct fuel as [|fuel]; [lia|].
      simpl. rewrite bool_decide_eq_true_2 by done. rewrite Hres, Htruthy. simpl.
      unfold httpGet. rewrite Hok. by rewrite bool_decide_eq_true_2.
  - destruct fuel as [|fuel]; [split; [done|lia]|].
    rewrite (errorStatus_step _ endpoint) by (try done; apply Herr; lia).
    destruct (IH (S requests)) with (fuel := fuel) as [Hnone Hsome].
    + intros i Hi. apply Herr. lia.
    + by replace (S requests + m)%nat with (requests + S m)%nat by lia.
    + split; intros Hfuel; [apply Hnone|apply Hsome]; lia.
Qed.

Lemma validationLoop_errors_forever (paymentPointer : option JsStr) endpoint fuel requests
  (redirectCounter : Z) :
  resolvePaymentPointer paymentPointer = Some endpoint →
  redirectCounter > 0 →
  (∀ i, errorStatus (fetch i endpoint)) →
  loop fuel requests redirectCounter paymentPointer = None.
Proof.
  intros Hres Hcounter Herr. revert requests.
  induction fuel as [|fuel IH]; intros requests; [done|].
  rewrite (errorStatus_step _ endpoint) by done. apply IH.
Qed.

(** X24.  A pointer that does not resolve makes the validation spin: the
    loop of [isPaymentPointerValid] neither makes a request nor counts
    anything down, so it is still running after any number of iterations,
    and so is [getAndValidatePaymentPointer] on a page whose monetization
    meta element holds such a string. *)
Theorem X24_unresolvable_pointer_never_settles (q : JsStr) fuel :
  resolvePaymentPointer (Some q) = None →
  isPaymentPointerValid fetch newlocation fuel (Some q) = None
  ∧ getAndValidatePaymentPointer fetch newlocation fuel (Some q) = None.
Proof.
  intros Hres.
  assert (isPaymentPointerValid fetch newlocation fuel (Some q) = None) as Hloop.
  { unfold isPaymentPointerValid. by apply validationLoop_unresolvable. }
  split; [done|]. unfold getAndValidatePaymentPointer. by rewrite Hloop.
Qed.

(** X25.  The validation asks the same endpoint again for as long as the
    answers are neither 200 nor redirects, without any limit, and reports
    the pointer valid at the first 200: after [n] such answers followed by a
    200 it is still running within [n] iterations and fulfilled with [true]
    from [n + 1] iterations on. *)
Theorem X25_valid_at_first_200 (paymentPointer : option JsStr) endpoint n :
  resolvePaymentPointer paymentPointer = Some endpoint →
  (∀ i, (i < n)%nat → errorStatus (fetch i endpoint)) →
  fetch n endpoint = FetchStatus 200 →
  ∀ fuel,
    ((fuel ≤ n)%nat → isPaymentPointerValid fetch newlocation fuel paymentPointer = None)
    ∧ ((n < fuel)%nat →
       isPaymentPointerValid fetch newlocation fuel paymentPointer
       = Some (Fulfilled true)).
Proof.
  intros Hres Herr Hok fuel. unfold isPaymentPointerValid.
  apply (validationLoop_errors_then_ok _ endpoint n 0); try done.
  intros i Hi. apply Herr. lia.
Qed.

(** X26.  Against a server that only ever answers with statuses other than
    200 and 3xx the validation never settles: it is still running after any
    number of iterations. *)
Theorem X26_errors_never_settle (paymentPointer : option JsStr) endpoint fuel :
  resolvePaymentPointer paymentPointer = Some endpoint →
  (∀ i, errorStatus (fetch i endpoint)) →
  isPaymentPointerValid fetch newlocation fuel paymentPointer = None.
Proof.
  intros Hres Herr. unfold isPaymentPointerValid.
  by apply (validationLoop_errors_forever _ endpoint).
Qed.
End ValidationProperties.

Section NoNewLocation.
Variable fetch : nat → JsStr → FetchResult.
Implicit Types (fuel requests : nat).

(** The script as it stands: no global [newlocation] exists. *)
Local Abbreviation loop0 := (validationLoop fetch None).

Lemma validationLoop_never_false fuel requests (redirectCounter : Z)
  (paymentPointer : option JsStr) :
  redirectCounter > 0 →
  loop0 fuel requests redirectCounter paymentPointer ≠ Some (Fulfilled false).
Proof.
  intros Hcounter. revert requests.
  induction fuel as [|fuel IH]; intros requests; [done|].
  simpl. rewrite bool_decide_eq_true_2 by done.
  destruct (truthyStr _); [|apply IH].
  destruct (httpGet _ _ _) as [|status]; [done|].
  case_bool_decide; [done|].
  destruct (_ && _); [done|apply IH].
Qed.

(** X27.  With no global [newlocation], [isPaymentPointerValid] never
    answers [false]: it answers [true], throws, or keeps running.  A 3xx
    answer to the first request makes it throw a ReferenceError, and
    [getAndValidatePaymentPointer] reports an invalid pointer only for a page
    without a monetization meta element, in which case it makes no request
    at all. *)
Theorem X27_never_reports_invalid :
  (∀ fuel (paymentPointer : option JsStr),
     isPaymentPointerValid fetch None fuel paymentPointer ≠ Some (Fulfilled false))
  ∧ (∀ fuel (paymentPointer : option JsStr) (endpoint : JsStr) (status : Z),
       resolvePaymentPointer paymentPointer = Some endpoint →
       fetch 0%nat endpoint = FetchStatus status → 300 ≤ status < 400 →
       isPaymentPointerValid fetch None (S fuel) paymentPointer
       = Some (Rejected ReferenceError))
  ∧ (∀ fuel (monetizationMeta paymentPointer : option JsStr),
       getAndValidatePaymentPointer fetch None fuel monetizationMeta
       = Some (Fulfilled (false, paymentPointer)) →
       monetizationMeta = None)
  ∧ (∀ fuel, getAndValidatePaymentPointer fetch None fuel None
             = Some (Fulfilled (false, None))).
Proof.
  split_and!.
  - intros fuel paymentPointer. unfold isPaymentPointerValid.
    by apply validationLoop_never_false.
  - intros fuel paymentPointer endpoint status Hres Hfetch Hstatus.
    destruct (resolvePaymentPointer_https _ _ Hres) as [_ Htruthy].
    unfold isPaymentPointerValid. simpl. rewrite Hres, Htruthy. simpl.
    unfold httpGet. rewrite Hfetch.
    rewrite bool_decide_eq_false_2 by lia.
    by rewrite !bool_decide_eq_true_2 by lia.
  - intros fuel [q|] paymentPointer; [|done].
    unfold getAndValidatePaymentPointer.
    destruct (isPaymentPointerValid fetch None fuel (Some q)) as [[[|]|]|] eqn:Hv;
      try done.
    by destruct (validationLoop_never_false fuel 0 5 (Some q)).
  - done.
Qed.
End NoNewLocation.

(** * Instances of the further properties *)

Lemma sampleContenders_distinct : NoDup (origin <$> sampleContenders).
Proof. apply (bool_decide_unpack _). vm_compute. reflexivity. Qed.

(** The seven sample contenders leave distinct origins on the board. *)
Lemma X6_sample_witness :
  NoDup (origin <$> sampleContenders)
  ∧ originsUnique (considerAll sampleContenders new_AkitaOriginStats : AkitaOriginStats Z).
Proof.
  split; [exact sampleContenders_distinct|].
  exact (proj1 (X6_distinct_origins_stay_unique sampleContenders sampleContenders_distinct)).
Defined.

(** The first sample contender, with time 10, is left out, and all five
    rankings hold at least 10. *)
Lemma X7_sample_witness :
  let c := monetizedOrigin "https://one.example" 10 in
  NoDup (origin <$> sampleContenders) ∧ c ∈ sampleContenders
  ∧ isCurrentlyMonetized c = true ∧ 0 < timeOf c
  ∧ ((∃ k, 1 ≤ k ≤ 5
        ∧ topOrigin (considerAll sampleContenders new_AkitaOriginStats
                       : AkitaOriginStats Z) k = Obj c)
     ∨ (∀ k, 1 ≤ k ≤ 5 →
          ∃ d, topOrigin (considerAll sampleContenders new_AkitaOriginStats
                            : AkitaOriginStats Z) k = Obj d
               ∧ timeOf c ≤ timeOf d)).
Proof.
  intros c.
  assert (c ∈ sampleContenders) as Hc by (apply list_elem_of_here).
  assert (isCurrentlyMonetized c = true) as Hm by reflexivity.
  assert (0 < timeOf c) as Ht by reflexivity.
  split; [exact sampleContenders_distinct|]. split; [exact Hc|].
  split; [exact Hm|]. split; [exact Ht|].
  exact (X7_left_out_never_beats_listed sampleContenders c
           sampleContenders_distinct Hc Hm Ht).
Defined.

(** Six of the seven sample contenders qualify, so all five rankings are in
    use. *)
Lemma X8_sample_witness :
  NoDup (origin <$> sampleContenders)
  ∧ qualifyingCount sampleContenders = 6
  ∧ ∃ d, topOrigin (considerAll sampleContenders new_AkitaOriginStats
                      : AkitaOriginStats Z) 5 = Obj d.
Proof.
  split; [exact sampleContenders_distinct|]. split; [reflexivity|].
  apply (X8_board_size sampleContenders sampleContenders_distinct 5).
  vm_compute. split; discriminate.
Defined.

Lemma sampleBoard_filled : ranksFilledFromTop sampleBoard.
Proof.
  apply considerAll_ordered_from; apply new_AkitaOriginStats_board.
Qed.

(** No negative time in the sample events, and the monetized totals are
    1 of 2 visits and 5 of 12 milliseconds. *)
Lemma X4_sample_witness :
  Forall (λ ev, 0 ≤ recentTimeOf ev) sampleEvents
  ∧ 0 ≤ totalMonetizedVisits (sampleHandleAll sampleEvents new_AkitaOriginStats)
      ≤ totalVisits (sampleHandleAll sampleEvents new_AkitaOriginStats)
  ∧ 0 ≤ totalMonetizedTimeSpent (sampleHandleAll sampleEvents new_AkitaOriginStats)
      ≤ totalTimeSpent (sampleHandleAll sampleEvents new_AkitaOriginStats).
Proof.
  assert (Forall (λ ev, 0 ≤ recentTimeOf ev) sampleEvents) as Hnonneg.
  { repeat (constructor; [simpl; lia|]). constructor. }
  split; [exact Hnonneg|].
  exact (X4_monetized_totals_bounded sampleNewAsset sampleAddAmount sampleStringToNumber
           sampleNumberToString sampleEvents Hnonneg).
Defined.

(** Ranking 1 of [sampleBoard] is still in use after two more contenders. *)
Lemma X5_sample_witness :
  topOrigin sampleBoard 1 = Obj (monetizedOrigin "https://a.example" 50)
  ∧ ∃ d',
      topOrigin
        (considerAll
           ([monetizedOrigin "https://a.example" 50; monetizedOrigin "https://b.example" 40]
            ++ [sampleUnmonetized; monetizedOrigin "https://c.example" 45])
           new_AkitaOriginStats : AkitaOriginStats Z) 1 = Obj d'.
Proof.
  assert (topOrigin sampleBoard 1 = Obj (monetizedOrigin "https://a.example" 50)) as Hfirst
    by (vm_compute; reflexivity).
  split; [exact Hfirst|].
  exact (X5_board_never_shrinks
           [monetizedOrigin "https://a.example" 50; monetizedOrigin "https://b.example" 40]
           [sampleUnmonetized; monetizedOrigin "https://c.example" 45] 1 _ Hfirst).
Defined.

(** The origin at ranking 2 of [sampleBoard] comes back with 45, which is
    more than its 40 and less than the 50 at ranking 1: it is updated at
    ranking 2, and ranking 1 keeps its origin. *)
Lemma X28_sample_witness :
  let c := monetizedOrigin "https://b.example" 45 in
  let holder := monetizedOrigin "https://b.example" 40 in
  topOrigin sampleBoard 2 = Obj holder
  ∧ timeOf holder < timeOf c
  ∧ topOrigin (maybeUpdateTopOriginsMap c sampleBoard).1 2 = Obj c
  ∧ topOrigin (maybeUpdateTopOriginsMap c sampleBoard).1 1 = topOrigin sampleBoard 1.
Proof.
  intros c holder.
  assert (topOrigin sampleBoard 2 = Obj holder) as Hk by (vm_compute; reflexivity).
  assert (timeOf holder < timeOf c) as Hlt by reflexivity.
  assert (∀ j d, 1 ≤ j < 2 → topOrigin sampleBoard j = Obj d → timeOf c ≤ timeOf d) as Habove.
  { intros j d Hj Hd. assert (j = 1) as -> by lia.
    vm_compute in Hd. injection Hd as <-. vm_compute. discriminate. }
  pose proof (X28_update_in_place c sampleBoard 2 holder sampleBoard_filled Hk eq_refl eq_refl
                eq_refl Hlt Habove) as (_ & Hplaced & Hothers & _).
  split; [exact Hk|]. split; [exact Hlt|]. split; [exact Hplaced|].
  apply Hothers. lia.
Defined.

(** A new origin with 60 beats both origins of [sampleBoard]. *)
Lemma X29_sample_witness :
  let c := monetizedOrigin "https://c.example" 60 in
  (∀ k d, topOrigin sampleBoard k = Obj d → timeOf d < timeOf c ∧ origin d ≠ origin c)
  ∧ boardRanks (maybeUpdateTopOriginsMap c sampleBoard).1
    = [Obj c; Obj (monetizedOrigin "https://a.example" 50);
       Obj (monetizedOrigin "https://b.example" 40); Undefined; Undefined]
  ∧ topOrigin (maybeUpdateTopOriginsMap c sampleBoard).1 1 = Obj c.
Proof.
  intros c.
  assert (∀ k d, topOrigin sampleBoard k = Obj d →
            timeOf d < timeOf c ∧ origin d ≠ origin c) as Hbeats.
  { intros k d Hd.
    pose proof (proj1 sampleBoard_filled k d Hd) as Hk.
    unfold ORIGIN_RANKING_FIRST, ORIGIN_RANKING_LAST in Hk.
    assert (k = 1 ∨ k = 2 ∨ k = 3 ∨ k = 4 ∨ k = 5) as [-> | [-> | [-> | [-> | ->]]]] by lia;
      vm_compute in Hd; try discriminate Hd;
      injection Hd as <-; (split; [reflexivity|vm_compute; discriminate]). }
  split; [exact Hbeats|]. split; [vm_compute; reflexivity|].
  exact (proj1 (proj2 (X29_new_leader c sampleBoard sampleBoard_filled eq_refl eq_refl Hbeats))).
Defined.

(** A report of time spent and a visit, in either order. *)
Lemma X9_sample_witness :
  let ev1 := TimeSpent 5 (monetizedOrigin "https://c.example" 15) in
  let ev2 := Visit true in
  independent ev1 ev2 = true
  ∧ sampleHandle ev1 (sampleHandle ev2 sampleState)
    = sampleHandle ev2 (sampleHandle ev1 sampleState).
Proof.
  intros ev1 ev2.
  assert (independent ev1 ev2 = true) as Hind by reflexivity.
  split; [exact Hind|].
  exact (X9_independent_calls_commute sampleNewAsset sampleAddAmount sampleStringToNumber
           sampleNumberToString ev1 ev2 sampleState Hind).
Defined.

(** 235 more US dollars on [sampleState], which holds 1000 of them. *)
Lemma X12_sample_witness :
  isNaN sampleStringToNumber (JsNumber (Finite 235)) = false
  ∧ isNaN sampleStringToNumber (JsNumber (Finite 3)) = false
  ∧ ToBoolean (JsString "USD") = true
  ∧ ("USD"%string ∉ Object_prototype_names)
  ∧ totalSentAssetsMap (objectAfter (sampleUpdateAssets (samplePayment "USD") sampleState))
      !! "USD"%string
    = Some 1235.
Proof.
  assert (isNaN sampleStringToNumber (JsNumber (Finite 235)) = false) as Hamount by reflexivity.
  assert (isNaN sampleStringToNumber (JsNumber (Finite 3)) = false) as Hscale by reflexivity.
  assert (ToBoolean (JsString "USD") = true) as Hcode by reflexivity.
  assert ("USD"%string ∉ Object_prototype_names) as Hown
    by (apply (bool_decide_unpack _); vm_compute; reflexivity).
  split; [exact Hamount|]. split; [exact Hscale|]. split; [exact Hcode|].
  split; [exact Hown|].
  exact (proj1 (proj2 (X12_payment_recorded sampleNewAsset sampleAddAmount
                         sampleStringToNumber sampleNumberToString (samplePayment "USD")
                         sampleState Hamount Hscale Hcode Hown))).
Defined.

(** A payment in a currency called "toString" on [sampleState]. *)
Lemma X30_sample_witness :
  isNaN sampleStringToNumber (JsNumber (Finite 235)) = false
  ∧ isNaN sampleStringToNumber (JsNumber (Finite 3)) = false
  ∧ ToBoolean (JsString "toString") = true
  ∧ "toString"%string ∈ Object_prototype_names
  ∧ totalSentAssetsMap sampleState !! "toString"%string = None
  ∧ sampleUpdateAssets (samplePayment "toString") sampleState = ThrowsTypeError sampleState.
Proof.
  assert (isNaN sampleStringToNumber (JsNumber (Finite 235)) = false) as Hamount by reflexivity.
  assert (isNaN sampleStringToNumber (JsNumber (Finite 3)) = false) as Hscale by reflexivity.
  assert (ToBoolean (JsString "toString") = true) as Hcode by reflexivity.
  assert ("toString"%string ∈ Object_prototype_names) as Hinherited
    by (apply (bool_decide_unpack _); vm_compute; reflexivity).
  assert (totalSentAssetsMap sampleState !! "toString"%string = None) as Hnone by reflexivity.
  split; [exact Hamount|]. split; [exact Hscale|]. split; [exact Hcode|].
  split; [exact Hinherited|]. split; [exact Hnone|].
  exact (X30_inherited_code_throws sampleNewAsset sampleAddAmount sampleStringToNumber
           sampleNumberToString (samplePayment "toString") sampleState
           Hamount Hscale Hcode Hinherited Hnone).
Defined.

(** The registration of a payment pointer alone leaves [sampleState] as it
    is. *)
Lemma X14_sample_witness :
  assetCode samplePointerOnly = JsUndefined
  ∧ sampleUpdateAssets samplePointerOnly sampleState = Returns sampleState.
Proof.
  assert (assetCode samplePointerOnly = JsUndefined) as Hcode by reflexivity.
  split; [exact Hcode|].
  exact (X14_payment_ignored sampleNewAsset sampleAddAmount sampleStringToNumber
           sampleNumberToString samplePointerOnly sampleState (or_introl Hcode)).
Defined.

(** Two payments in Canadian dollars, of which [sampleState] has none. *)
Lemma X15_sample_witness :
  "CAD"%string ≠ ""%string
  ∧ ("CAD"%string ∉ Object_prototype_names)
  ∧ totalSentAssetsMap sampleState !! "CAD"%string = None
  ∧ totalSentAssetsMap
      (objectAfter
         (sampleUpdateAssets
            {| paymentPointer := JsUndefined;
               amount := JsNumber (Finite 765);
               assetScale := JsNumber (Finite 3);
               assetCode := JsString "CAD" |}
            (objectAfter
               (sampleUpdateAssets
                  {| paymentPointer := JsUndefined;
                     amount := JsNumber (Finite 235);
                     assetScale := JsNumber (Finite 3);
                     assetCode := JsString "CAD" |}
                  sampleState)))) !! "CAD"%string
    = Some 1000.
Proof.
  assert ("CAD"%string ≠ ""%string) as Hcode by discriminate.
  assert ("CAD"%string ∉ Object_prototype_names) as Hown
    by (apply (bool_decide_unpack _); vm_compute; reflexivity).
  assert (totalSentAssetsMap sampleState !! "CAD"%string = None) as Hnew by reflexivity.
  split; [exact Hcode|]. split; [exact Hown|]. split; [exact Hnew|].
  exact (proj2 (proj2 (X15_payments_accumulate sampleNewAsset sampleAddAmount
                         sampleStringToNumber sampleNumberToString "CAD" 235 3 765 3
                         sampleState Hcode Hown Hnew))).
Defined.

(** * Instances of the properties of the content script *)

(** The pointer [$wallet.example] resolves to [https://wallet.example]. *)
Lemma X16_sample_witness :
  resolvePaymentPointer (Some (units "$wallet.example"))
  = Some (units "https://wallet.example")
  ∧ startsWith (units "https://wallet.example") (units "https://") = true
  ∧ units "https://wallet.example" ≠ [].
Proof.
  assert (resolvePaymentPointer (Some (units "$wallet.example"))
          = Some (units "https://wallet.example")) as Hres by (vm_compute; reflexivity).
  split; [exact Hres|].
  exact (X16_resolved_is_https _ _ Hres).
Defined.

(** A pointer with white space around it. *)
Lemma X17_sample_witness :
  units " $wallet.example/alice " ≠ []
  ∧ trim (units " $wallet.example/alice ") = units "$" ++ units "wallet.example/alice"
  ∧ resolvePaymentPointer (Some (units " $wallet.example/alice "))
    = Some (units "https://" ++ units "wallet.example/alice").
Proof.
  assert (units " $wallet.example/alice " ≠ []) as Hq by (vm_compute; discriminate).
  assert (trim (units " $wallet.example/alice ") = units "$" ++ units "wallet.example/alice")
    as Htrim by (vm_compute; reflexivity).
  split; [exact Hq|]. split; [exact Htrim|].
  exact (X17_dollar_pointer _ _ Hq Htrim).
Defined.

Lemma sampleLink_rel (linkRel name : string) (linkHref : option string) :
  linkRel ≠ name → ¬ relIs name (sampleLink linkRel linkHref).
Proof.
  unfold relIs, sampleLink, units. simpl. intros Hne Heq. apply Hne.
  apply (inj Some) in Heq.
  assert (∀ l : list Ascii.ascii, Ascii.ascii_of_N <$> (Ascii.N_of_ascii <$> l) = l) as Hback.
  { induction l as [|a l IH]; [done|]. by rewrite !fmap_cons, Ascii.ascii_N_embedding, IH. }
  apply (f_equal (fmap (M := list) Ascii.ascii_of_N)) in Heq. rewrite !Hback in Heq.
  rewrite <- (String.string_of_list_ascii_of_string linkRel).
  rewrite <- (String.string_of_list_ascii_of_string name).
  by rewrite Heq.
Qed.

(** A page whose only link is a style sheet. *)
Lemma X20_sample_witness :
  Forall plainLink [sampleLink "stylesheet" (Some "/main.css"%string)]
  ∧ getFaviconPath [sampleLink "stylesheet" (Some "/main.css"%string)]
    = Some (units "favicon.ico").
Proof.
  assert (Forall plainLink [sampleLink "stylesheet" (Some "/main.css"%string)]) as Hplain.
  { repeat constructor; by apply sampleLink_rel. }
  split; [exact Hplain|].
  exact (X20_favicon_default _ Hplain).
Defined.

(** A "shortcut icon" between two "icon" links. *)
Lemma X21_sample_witness :
  let before := [sampleLink "icon" (Some "/a.png"%string)] in
  let link := sampleLink "shortcut icon" (Some "/s.ico"%string) in
  let after := [sampleLink "icon" (Some "/b.png"%string)] in
  Forall (λ l, ¬ relIs "shortcut icon" l) before
  ∧ relIs "shortcut icon" link
  ∧ truthyStr (href link) = true
  ∧ getFaviconPath (before ++ link :: after) = Some (units "/s.ico").
Proof.
  intros before link after.
  assert (Forall (λ l, ¬ relIs "shortcut icon" l) before) as Hbefore.
  { repeat constructor. by apply sampleLink_rel. }
  assert (relIs "shortcut icon" link) as Hrel by reflexivity.
  assert (truthyStr (href link) = true) as Hhref by reflexivity.
  split; [exact Hbefore|]. split; [exact Hrel|]. split; [exact Hhref|].
  exact (X21_favicon_shortcut_icon before link after Hbefore Hrel Hhref).
Defined.

(** Two "icon" links and a style sheet: the second icon is taken. *)
Lemma X22_sample_witness :
  let before := [sampleLink "icon" (Some "/a.png"%string)] in
  let link := sampleLink "icon" (Some "/b.png"%string) in
  let after := [sampleLink "stylesheet" (Some "/main.css"%string)] in
  Forall (λ l, ¬ relIs "shortcut icon" l) before
  ∧ relIs "icon" link
  ∧ Forall plainLink after
  ∧ getFaviconPath (before ++ link :: after) = Some (units "/b.png").
Proof.
  intros before link after.
  assert (Forall (λ l, ¬ relIs "shortcut icon" l) before) as Hbefore.
  { repeat constructor. by apply sampleLink_rel. }
  assert (relIs "icon" link) as Hrel by reflexivity.
  assert (Forall plainLink after) as Hafter.
  { repeat constructor; by apply sampleLink_rel. }
  split; [exact Hbefore|]. split; [exact Hrel|]. split; [exact Hafter|].
  exact (X22_favicon_last_icon before link after Hbefore Hrel Hafter).
Defined.

(** A "shortcut icon" without [href] hides the "icon" after it. *)
Lemma X23_sample_witness :
  let before := [sampleLink "icon" (Some "/a.png"%string)] in
  let link := sampleLink "shortcut icon" None in
  let after := [sampleLink "icon" (Some "/c.png"%string)] in
  Forall (λ l, ¬ relIs "shortcut icon" l) before
  ∧ relIs "shortcut icon" link
  ∧ truthyStr (href link) = false
  ∧ getFaviconPath (before ++ link :: after) = Some (units "/a.png").
Proof.
  intros before link after.
  assert (Forall (λ l, ¬ relIs "shortcut icon" l) before) as Hbefore.
  { repeat constructor. by apply sampleLink_rel. }
  assert (relIs "shortcut icon" link) as Hrel by reflexivity.
  assert (truthyStr (href link) = false) as Hhref by reflexivity.
  split; [exact Hbefore|]. split; [exact Hrel|]. split; [exact Hhref|].
  exact (X23_favicon_empty_shortcut_icon before link after Hbefore Hrel Hhref).
Defined.

(** A pointer without [$] or [https://] keeps the loop running. *)
Lemma X24_sample_witness :
  resolvePaymentPointer (Some (units "wallet.example")) = None
  ∧ isPaymentPointerValid sampleFetchNotFound None 10 (Some (units "wallet.example")) = None
  ∧ getAndValidatePaymentPointer sampleFetchNotFound None 10 (Some (units "wallet.example"))
    = None.
Proof.
  assert (resolvePaymentPointer (Some (units "wallet.example")) = None) as Hres
    by (vm_compute; reflexivity).
  split; [exact Hres|].
  exact (X24_unresolvable_pointer_never_settles sampleFetchNotFound None
           (units "wallet.example") 10 Hres).
Defined.

(** Two answers 503, then 200: valid at the third request. *)
Lemma X25_sample_witness :
  let paymentPointer := Some (units "$wallet.example") in
  let endpoint := units "https://wallet.example" in
  resolvePaymentPointer paymentPointer = Some endpoint
  ∧ (∀ i, (i < 2)%nat → errorStatus (sampleFetchRecovering i endpoint))
  ∧ sampleFetchRecovering 2 endpoint = FetchStatus 200
  ∧ isPaymentPointerValid sampleFetchRecovering None 2 paymentPointer = None
  ∧ isPaymentPointerValid sampleFetchRecovering None 3 paymentPointer
    = Some (Fulfilled true).
Proof.
  intros paymentPointer endpoint.
  assert (resolvePaymentPointer paymentPointer = Some endpoint) as Hres
    by (vm_compute; reflexivity).
  assert (∀ i, (i < 2)%nat → errorStatus (sampleFetchRecovering i endpoint)) as Herr.
  { intros i Hi. exists 503. unfold sampleFetchRecovering.
    destruct (Nat.ltb_spec i 2) as [_|Hge]; [|lia]. split; [reflexivity|lia]. }
  assert (sampleFetchRecovering 2 endpoint = FetchStatus 200) as Hok by reflexivity.
  split; [exact Hres|]. split; [exact Herr|]. split; [exact Hok|].
  split.
  - exact (proj1 (X25_valid_at_first_200 sampleFetchRecovering None paymentPointer endpoint 2
                    Hres Herr Hok 2%nat) (le_n 2)).
  - exact (proj2 (X25_valid_at_first_200 sampleFetchRecovering None paymentPointer endpoint 2
                    Hres Herr Hok 3%nat) (le_n 3)).
Defined.

(** A server that answers 404 to everything. *)
Lemma X26_sample_witness :
  let paymentPointer := Some (units "$wallet.example") in
  let endpoint := units "https://wallet.example" in
  resolvePaymentPointer paymentPointer = Some endpoint
  ∧ (∀ i, errorStatus (sampleFetchNotFound i endpoint))
  ∧ isPaymentPointerValid sampleFetchNotFound None 10 paymentPointer = None.
Proof.
  intros paymentPointer endpoint.
  assert (resolvePaymentPointer paymentPointer = Some endpoint) as Hres
    by (vm_compute; reflexivity).
  assert (∀ i, errorStatus (sampleFetchNotFound i endpoint)) as Herr.
  { intros i. exists 404. split; [reflexivity|lia]. }
  split; [exact Hres|]. split; [exact Herr|].
  exact (X26_errors_never_settle sampleFetchNotFound None paymentPointer endpoint 10 Hres Herr).
Defined.
